(** * Email extraction engine ([process_emails.py], class [EmailParser])

    A shallow embedding of [EmailParser.__init__] and [EmailParser.parse]
    together with the library operations they call ([str] methods, the
    insertion-ordered [dict], the [re] patterns the parser compiles and
    [hashlib.sha256]), and of [apply_discount], [generate_quote],
    [draft_acknowledgment] and the loop of [process_inbox], followed by
    their properties.

    Modelling conventions.
    - A Python [str] is a [string] holding the UTF-8 encoding of the text.
      Case mapping ([lower], [title], [re.IGNORECASE]) and the character
      classes ([\d], [\s], [\w], [str.strip]) are those of the ASCII range,
      where Python's Unicode-aware versions agree with them; bytes above
      127 are uncased and belong to no class.  Substring tests are
      unaffected by the encoding (the rupee sign is its three bytes).
      Outside the ASCII range Python's versions differ from these, so
      every statement whose content depends on them is made for ASCII
      text and ASCII catalog names ([ascii_text], [ascii_catalog]).
    - [int] raises on a string of more than 4300 digits, and [parse] with
      it; [parse] below is the event of a call that returns, and
      [parse_error] tells when the call raises instead.
    - A Python [float] confidence is a rational [Q]: the parser only stores
      decimal literals and compares them with [max], and the comparison of
      the literals as rationals is their comparison as doubles.
    - A Python [dict] is an association list in insertion order whose
      assignment replaces the value of an existing key in place. *)

From Stdlib Require Import List String Ascii ZArith NArith QArith Bool Lia.
From Stdlib Require Import Qround Sorted Permutation DecimalString.
Import ListNotations.

Close Scope Q_scope.
Open Scope string_scope.

(* ================================================================== *)
(** * Part I — the program *)
(* ================================================================== *)

(** ** Characters

    The classes and the case mappings of the ASCII range, where they are
    those of Python.  A byte above 127 is in no class and is left as it
    is, whereas Python classifies and maps the character it is part
    of. *)

Definition code (c : ascii) : N := N_of_ascii c.

Definition in_range (lo hi : N) (c : ascii) : bool :=
  (lo <=? code c)%N && (code c <=? hi)%N.

Definition is_upper (c : ascii) : bool := in_range 65 90 c.
Definition is_lower (c : ascii) : bool := in_range 97 122 c.
Definition is_alpha (c : ascii) : bool := is_upper c || is_lower c.
Definition is_digit (c : ascii) : bool := in_range 48 57 c.

(** [\w]: letters, digits and the underscore. *)
Definition is_word (c : ascii) : bool :=
  is_alpha c || is_digit c || (code c =? 95)%N.

(** [\s] and [str.isspace]: tab, line feed, vertical tab, form feed,
    carriage return, the four separators 0x1c-0x1f and the space. *)
Definition is_space (c : ascii) : bool :=
  in_range 9 13 c || in_range 28 31 c || (code c =? 32)%N.

Definition lower_char (c : ascii) : ascii :=
  if is_upper c then ascii_of_N (code c + 32) else c.

Definition upper_char (c : ascii) : ascii :=
  if is_lower c then ascii_of_N (code c - 32) else c.

(** ** Strings: the [str] methods the parser calls

    [lower], [title] and [strip] are the methods of Python on ASCII
    text. *)

(** [s.lower()] *)
Fixpoint lower (s : string) : string :=
  match s with
  | EmptyString => EmptyString
  | String c s' => String (lower_char c) (lower s')
  end.

(** [s.title()]: a letter that follows a letter is lower-cased, any other
    letter is upper-cased. *)
Fixpoint title_from (prev_cased : bool) (s : string) : string :=
  match s with
  | EmptyString => EmptyString
  | String c s' =>
      String (if prev_cased then lower_char c else upper_char c)
             (title_from (is_alpha c) s')
  end.

Definition title (s : string) : string := title_from false s.

(** [s.startswith(p)] *)
Fixpoint startswith (s p : string) {struct p} : bool :=
  match p, s with
  | EmptyString, _ => true
  | String _ _, EmptyString => false
  | String a p', String b s' => Ascii.eqb a b && startswith s' p'
  end.

(** [s.endswith(suf)] *)
Fixpoint endswith (s suf : string) : bool :=
  (s =? suf) ||
  match s with
  | EmptyString => false
  | String _ s' => endswith s' suf
  end.

(** [sub in s] *)
Fixpoint contains (sub s : string) : bool :=
  startswith s sub ||
  match s with
  | EmptyString => false
  | String _ s' => contains sub s'
  end.

Fixpoint drop (n : nat) (s : string) : string :=
  match n, s with
  | O, _ => s
  | S _, EmptyString => EmptyString
  | S n', String _ s' => drop n' s'
  end.

(** The text before and after the first occurrence of [sep], if any. *)
Fixpoint partition (sep s : string) : option (string * string) :=
  if startswith s sep then Some (EmptyString, drop (String.length sep) s)
  else match s with
       | EmptyString => None
       | String c s' =>
           match partition sep s' with
           | Some (a, b) => Some (String c a, b)
           | None => None
           end
       end.

(** [s.split(sep, 1)], for a non-empty [sep]. *)
Definition split1 (s sep : string) : list string :=
  match partition sep s with
  | Some (a, b) => [a; b]
  | None => [s]
  end.

(** Length of the line terminator [s] starts with, [0] if it starts with
    none: LF, CR, CR LF, VT, FF, FS, GS, RS, and the encodings of NEL
    (U+0085), LS (U+2028) and PS (U+2029). *)
Definition linebreak_len (s : string) : nat :=
  match s with
  | String c1 s1 =>
      match code c1 with
      | 10%N | 11%N | 12%N | 28%N | 29%N | 30%N => 1
      | 13%N => match s1 with
                | String c2 _ => if (code c2 =? 10)%N then 2 else 1
                | EmptyString => 1
                end
      | 194%N => match s1 with
                 | String c2 _ => if (code c2 =? 133)%N then 2 else 0
                 | EmptyString => 0
                 end
      | 226%N => match s1 with
                 | String c2 (String c3 _) =>
                     if (code c2 =? 128)%N
                        && ((code c3 =? 168)%N || (code c3 =? 169)%N)
                     then 3 else 0
                 | _ => 0
                 end
      | _ => 0
      end
  | EmptyString => 0
  end.

(** [s.splitlines()]: [cur] is the line read so far, [skip] the number of
    bytes of the current terminator still to pass. *)
Fixpoint splitlines_from (skip : nat) (cur s : string) : list string :=
  match s with
  | EmptyString => if cur =? "" then [] else [cur]
  | String c s' =>
      match skip with
      | S k => splitlines_from k cur s'
      | O =>
          match linebreak_len s with
          | O => splitlines_from 0 (cur ++ String c "") s'
          | S k => cur :: splitlines_from k "" s'
          end
      end
  end.

Definition splitlines (s : string) : list string := splitlines_from 0 "" s.

Fixpoint lstrip_by (p : ascii -> bool) (s : string) : string :=
  match s with
  | EmptyString => EmptyString
  | String c s' => if p c then lstrip_by p s' else s
  end.

Fixpoint rstrip_by (p : ascii -> bool) (s : string) : string :=
  match s with
  | EmptyString => EmptyString
  | String c s' =>
      match rstrip_by p s' with
      | EmptyString => if p c then EmptyString else String c EmptyString
      | r => String c r
      end
  end.

(** [s.strip()] *)
Definition strip (s : string) : string := rstrip_by is_space (lstrip_by is_space s).

Fixpoint mem_char (c : ascii) (chars : string) : bool :=
  match chars with
  | EmptyString => false
  | String d chars' => Ascii.eqb c d || mem_char c chars'
  end.

(** [s.strip(chars)] *)
Definition strip_chars (s chars : string) : string :=
  rstrip_by (fun c => mem_char c chars) (lstrip_by (fun c => mem_char c chars) s).

(** [x in xs] for a collection of strings. *)
Definition mem (x : string) (xs : list string) : bool :=
  existsb (String.eqb x) xs.

(** ** The insertion-ordered dictionary *)

Definition dict (V : Type) : Type := list (string * V).

Fixpoint dict_get {V : Type} (d : dict V) (k : string) : option V :=
  match d with
  | [] => None
  | (k', v) :: d' => if k' =? k then Some v else dict_get d' k
  end.

(** [d[k] = v]: an existing key keeps its place, a new one goes last. *)
Fixpoint dict_set {V : Type} (d : dict V) (k : string) (v : V) : dict V :=
  match d with
  | [] => [(k, v)]
  | (k', v') :: d' =>
      if k' =? k then (k', v) :: d' else (k', v') :: dict_set d' k v
  end.

Definition dict_keys {V : Type} (d : dict V) : list string := map fst d.
Definition dict_values {V : Type} (d : dict V) : list V := map snd d.

(** [k in d] *)
Definition dict_mem {V : Type} (d : dict V) (k : string) : bool :=
  match dict_get d k with Some _ => true | None => false end.

(** ** Values and configuration *)

(** The scalars a JSON document or an extracted field can hold. *)
Inductive scalar : Type :=
| VNone
| VStr (s : string)
| VInt (n : Z)
| VNum (q : Q).

(** Python truthiness of a scalar. *)
Definition truthy (v : scalar) : bool :=
  match v with
  | VNone => false
  | VStr s => negb (s =? "")
  | VInt n => negb (n =? 0)%Z
  | VNum q => negb (Qeq_bool q 0)
  end.

(** [d.get(k)]: [None] when the key is missing. *)
Definition get_or_none (d : dict scalar) (k : string) : scalar :=
  match dict_get d k with Some v => v | None => VNone end.

(** ** The parser object *)

Record EmailParser : Type := {
  price_list : dict (dict scalar);
  config : dict scalar;
  product_names : dict string
}.

(** One turn of the loop of [__init__]: the lower-cased name, and its
    naive plural unless it already ends in [s], are assigned [name]. *)
Definition register (pn : dict string) (name : string) : dict string :=
  let lc := lower name in
  let pn := dict_set pn lc name in
  if negb (endswith lc "s") then dict_set pn (lc ++ "s") name else pn.

Definition build_product_names (pl : dict (dict scalar)) : dict string :=
  fold_left register (dict_keys pl) [].

(** [EmailParser.__init__] *)
Definition init (pl : dict (dict scalar)) (cfg : dict scalar) : EmailParser :=
  {| price_list := pl; config := cfg; product_names := build_product_names pl |}.

(** ** Regular expressions: the fragment of [re] the parser uses

    A backtracking matcher in continuation-passing style, with the
    priorities of [re]: a greedy [+] first takes all it can, a greedy [?]
    first tries its body.  All patterns are compiled with [re.IGNORECASE],
    so a literal character matches whatever its case. *)

Inductive cclass : Type :=
| Digit                 (* \d *)
| Space                 (* \s *)
| Word                  (* \w *)
| WordDash              (* [\w\-] *)
| Chr (c : ascii).      (* an escaped literal *)

Definition cmatch (k : cclass) (a : ascii) : bool :=
  match k with
  | Digit => is_digit a
  | Space => is_space a
  | Word => is_word a
  | WordDash => is_word a || (code a =? 45)%N
  | Chr c => Ascii.eqb (lower_char a) (lower_char c)
  end.

Inductive regex : Type :=
| RChar (k : cclass)
| RPlus (k : cclass)              (* k+ *)
| RSeq (r1 r2 : regex)
| ROpt (r : regex)                (* (?:r)? *)
| RGroup (i : nat) (r : regex)    (* the i-th capturing group *)
| RBoundary                       (* \b *)
| REmpty.

(** A position in the subject: the character before it, the text from it
    on, and its index. *)
Record cursor : Type := {
  prev : option ascii;
  rest : string;
  pos : nat
}.

Definition captures : Type := list (nat * (nat * nat)).

Definition word_before (cu : cursor) : bool :=
  match prev cu with Some a => is_word a | None => false end.

Definition word_after (cu : cursor) : bool :=
  match rest cu with String a _ => is_word a | EmptyString => false end.

Definition at_boundary (cu : cursor) : bool :=
  xorb (word_before cu) (word_after cu).

(** [k+] after its first character [a0]: take more while possible, and
    give back one at a time when the continuation fails. *)
Fixpoint plus_loop {R : Type} (k : cclass) (a0 : ascii) (s : string) (p : nat)
         (cont : cursor -> option R) : option R :=
  let stop := cont {| prev := Some a0; rest := s; pos := p |} in
  match s with
  | String a s' =>
      if cmatch k a then
        match plus_loop k a s' (S p) cont with
        | Some x => Some x
        | None => stop
        end
      else stop
  | EmptyString => stop
  end.

Fixpoint rmatch {R : Type} (r : regex) (cu : cursor) (cs : captures)
         (cont : cursor -> captures -> option R) : option R :=
  match r with
  | REmpty => cont cu cs
  | RChar k =>
      match rest cu with
      | String a s' =>
          if cmatch k a
          then cont {| prev := Some a; rest := s'; pos := S (pos cu) |} cs
          else None
      | EmptyString => None
      end
  | RPlus k =>
      match rest cu with
      | String a s' =>
          if cmatch k a
          then plus_loop k a s' (S (pos cu)) (fun cu' => cont cu' cs)
          else None
      | EmptyString => None
      end
  | RSeq r1 r2 => rmatch r1 cu cs (fun cu' cs' => rmatch r2 cu' cs' cont)
  | ROpt r1 =>
      match rmatch r1 cu cs cont with
      | Some x => Some x
      | None => cont cu cs
      end
  | RGroup i r1 =>
      rmatch r1 cu cs (fun cu' cs' => cont cu' ((i, (pos cu, pos cu')) :: cs'))
  | RBoundary => if at_boundary cu then cont cu cs else None
  end.

(** A match object: its span and the spans of its groups. *)
Record rematch : Type := {
  m_start : nat;
  m_end : nat;
  m_groups : captures
}.

Definition span (m : rematch) : nat * nat := (m_start m, m_end m).

Fixpoint lookup_group (i : nat) (cs : captures) : option (nat * nat) :=
  match cs with
  | [] => None
  | (j, sp) :: cs' => if Nat.eqb i j then Some sp else lookup_group i cs'
  end.

(** [m.group(i)] on the subject [text]; [""] stands for a group that took
    no part in the match. *)
Definition group (text : string) (m : rematch) (i : nat) : string :=
  match lookup_group i (m_groups m) with
  | Some (b, e) => substring b (e - b) text
  | None => EmptyString
  end.

(** [m.group(0)] *)
Definition group0 (text : string) (m : rematch) : string :=
  substring (m_start m) (m_end m - m_start m) text.

(** One attempt at the cursor; with [must_advance] an empty match is
    refused, as after an empty match at the same place. *)
Definition attempt (r : regex) (must_advance : bool) (cu : cursor)
  : option rematch :=
  rmatch r cu []
    (fun cu' cs =>
       if must_advance && Nat.eqb (pos cu') (pos cu) then None
       else Some {| m_start := pos cu; m_end := pos cu'; m_groups := cs |}).

(** The scan of [finditer]: matches are sought from left to right, each
    search starting where the previous match ended; [skip] counts the
    characters of the last match still to pass. *)
Fixpoint finditer_from (r : regex) (skip : nat) (pv : option ascii)
         (s : string) (p : nat) : list rematch :=
  let cu := {| prev := pv; rest := s; pos := p |} in
  let next (k : nat) :=
    match s with
    | String a s' => finditer_from r k (Some a) s' (S p)
    | EmptyString => []
    end in
  match skip with
  | S k => next k
  | O =>
      match attempt r false cu with
      | None => next 0
      | Some m =>
          if Nat.eqb (m_end m) p then
            m :: match attempt r true cu with
                 | Some m' => m' :: next (m_end m' - p - 1)
                 | None => next 0
                 end
          else m :: next (m_end m - p - 1)
      end
  end.

(** [pattern.finditer(text)] *)
Definition finditer (r : regex) (text : string) : list rematch :=
  finditer_from r 0 None text 0.

(** [re.findall(pattern, text)] for a pattern without groups. *)
Definition findall (r : regex) (text : string) : list string :=
  map (group0 text) (finditer r text).

(** [re.escape(key)]: the characters of [key], each taken literally. *)
Fixpoint escape (key : string) : regex :=
  match key with
  | EmptyString => REmpty
  | String c key' => RSeq (RChar (Chr c)) (escape key')
  end.

(** [r'\b(\d+)\s+(?:\w+\s+)?' + re.escape(key) + r'\b'] *)
Definition qty_pattern (key : string) : regex :=
  RSeq RBoundary
    (RSeq (RGroup 1 (RPlus Digit))
       (RSeq (RPlus Space)
          (RSeq (ROpt (RSeq (RPlus Word) (RPlus Space)))
             (RSeq (escape key) RBoundary)))).

(** [r'\b' + re.escape(key) + r'\b'] *)
Definition plain_pattern (key : string) : regex :=
  RSeq RBoundary (RSeq (escape key) RBoundary).

(** [r'\b([\w\-]+)\s+and\s+([\w\-]+)\b'] *)
Definition and_pattern : regex :=
  RSeq RBoundary
    (RSeq (RGroup 1 (RPlus WordDash))
       (RSeq (RPlus Space)
          (RSeq (escape "and")
             (RSeq (RPlus Space)
                (RSeq (RGroup 2 (RPlus WordDash)) RBoundary))))).

(** [r'[\w\-]+'] *)
Definition token_pattern : regex := RPlus WordDash.

(** ** SHA-256 ([hashlib.sha256]), on 32-bit words held in [Z] *)

Module Sha256.
Local Open Scope Z_scope.

Definition w32 (x : Z) : Z := x mod 2 ^ 32.
Definition add32 (x y : Z) : Z := w32 (x + y).
Definition rotr (n x : Z) : Z :=
  w32 (Z.lor (Z.shiftr x n) (Z.shiftl x (32 - n))).
Definition not32 (x : Z) : Z := 2 ^ 32 - 1 - x.

Definition ch (x y z : Z) : Z := Z.lxor (Z.land x y) (Z.land (not32 x) z).
Definition maj (x y z : Z) : Z :=
  Z.lxor (Z.lxor (Z.land x y) (Z.land x z)) (Z.land y z).
Definition bsig0 (x : Z) : Z := Z.lxor (Z.lxor (rotr 2 x) (rotr 13 x)) (rotr 22 x).
Definition bsig1 (x : Z) : Z := Z.lxor (Z.lxor (rotr 6 x) (rotr 11 x)) (rotr 25 x).
Definition ssig0 (x : Z) : Z := Z.lxor (Z.lxor (rotr 7 x) (rotr 18 x)) (Z.shiftr x 3).
Definition ssig1 (x : Z) : Z := Z.lxor (Z.lxor (rotr 17 x) (rotr 19 x)) (Z.shiftr x 10).

(** The round constants and the initial hash value are the first 32 bits
    of the fractional parts of the cube roots of the first sixty-four
    primes and of the square roots of the first eight. *)
Definition is_prime (p : nat) : bool :=
  forallb (fun d => negb (Nat.eqb (Nat.modulo p d) 0)) (seq 2 (p - 2)).

Definition primes : list Z :=
  Eval vm_compute in map Z.of_nat (filter is_prime (seq 2 310)).

(** The integer cube root of [n], found bit by bit from bit [bits - 1] down. *)
Fixpoint cbrt_bits (bits : nat) (n r : Z) : Z :=
  match bits with
  | O => r
  | S b =>
      let c := r + 2 ^ Z.of_nat b in
      cbrt_bits b n (if c * c * c <=? n then c else r)
  end.

Definition K : list Z :=
  Eval vm_compute in map (fun p => w32 (cbrt_bits 40 (p * 2 ^ 96) 0)) primes.

(** The eight working words. *)
Record state : Type := {
  ha : Z; hb : Z; hc : Z; hd : Z; he : Z; hf : Z; hg : Z; hh : Z
}.

Definition state_of (ws : list Z) : state :=
  {| ha := nth 0 ws 0; hb := nth 1 ws 0; hc := nth 2 ws 0; hd := nth 3 ws 0;
     he := nth 4 ws 0; hf := nth 5 ws 0; hg := nth 6 ws 0; hh := nth 7 ws 0 |}.

Definition initial : state :=
  Eval vm_compute in
    state_of (map (fun p => w32 (Z.sqrt (p * 2 ^ 64))) (firstn 8 primes)).

Definition bytes_of (s : string) : list Z :=
  map (fun c => Z.of_N (N_of_ascii c)) (list_ascii_of_string s).

(** The [n] low bytes of [x], most significant first. *)
Fixpoint be_bytes (n : nat) (x : Z) : list Z :=
  match n with
  | O => []
  | S n' => be_bytes n' (Z.shiftr x 8) ++ [x mod 256]
  end.

(** The message, a [0x80] byte, zeros up to 56 modulo 64, and the length of
    the message in bits on eight bytes. *)
Definition pad (msg : list Z) : list Z :=
  let len := Z.of_nat (List.length msg) in
  let zeros := Z.to_nat ((55 - len) mod 64) in
  msg ++ [128] ++ repeat 0 zeros ++ be_bytes 8 (8 * len).

Fixpoint words_of (fuel : nat) (bs : list Z) : list Z :=
  match fuel, bs with
  | S fuel', b0 :: b1 :: b2 :: b3 :: bs' =>
      (((b0 * 256 + b1) * 256 + b2) * 256 + b3) :: words_of fuel' bs'
  | _, _ => []
  end.

(** The message schedule: [w] holds the words so far, latest first. *)
Fixpoint extend (n : nat) (w : list Z) : list Z :=
  match n with
  | O => w
  | S n' =>
      let x :=
        add32 (add32 (ssig1 (nth 1 w 0)) (nth 6 w 0))
              (add32 (ssig0 (nth 14 w 0)) (nth 15 w 0)) in
      extend n' (x :: w)
  end.

Definition schedule (block : list Z) : list Z :=
  rev (extend 48 (rev block)).

Definition round (st : state) (kw : Z * Z) : state :=
  let (k, w) := kw in
  let t1 := add32 (add32 (add32 (hh st) (bsig1 (he st)))
                         (add32 (ch (he st) (hf st) (hg st)) k)) w in
  let t2 := add32 (bsig0 (ha st)) (maj (ha st) (hb st) (hc st)) in
  {| ha := add32 t1 t2; hb := ha st; hc := hb st; hd := hc st;
     he := add32 (hd st) t1; hf := he st; hg := hf st; hh := hg st |}.

Definition compress (st : state) (block : list Z) : state :=
  let st' := fold_left round (combine K (schedule block)) st in
  {| ha := add32 (ha st) (ha st'); hb := add32 (hb st) (hb st');
     hc := add32 (hc st) (hc st'); hd := add32 (hd st) (hd st');
     he := add32 (he st) (he st'); hf := add32 (hf st) (hf st');
     hg := add32 (hg st) (hg st'); hh := add32 (hh st) (hh st') |}.

Fixpoint blocks (fuel : nat) (ws : list Z) : list (list Z) :=
  match fuel, ws with
  | S fuel', _ :: _ => firstn 16 ws :: blocks fuel' (skipn 16 ws)
  | _, _ => []
  end.

Definition digest (s : string) : state :=
  let bs := pad (bytes_of s) in
  let ws := words_of (List.length bs) bs in
  fold_left compress (blocks (List.length ws) ws) initial.

Definition hex_digit (n : Z) : ascii :=
  match n mod 16 with
  | 0 => "0" | 1 => "1" | 2 => "2" | 3 => "3" | 4 => "4" | 5 => "5"
  | 6 => "6" | 7 => "7" | 8 => "8" | 9 => "9" | 10 => "a" | 11 => "b"
  | 12 => "c" | 13 => "d" | 14 => "e" | _ => "f"
  end%char.

Definition hex_word (x : Z) : string :=
  String (hex_digit (Z.shiftr x 28)) (String (hex_digit (Z.shiftr x 24))
  (String (hex_digit (Z.shiftr x 20)) (String (hex_digit (Z.shiftr x 16))
  (String (hex_digit (Z.shiftr x 12)) (String (hex_digit (Z.shiftr x 8))
  (String (hex_digit (Z.shiftr x 4)) (String (hex_digit x) EmptyString))))))).

(** [hashlib.sha256(s.encode('utf-8')).hexdigest()] *)
Definition hexdigest (s : string) : string :=
  let st := digest s in
  (hex_word (ha st) ++ hex_word (hb st) ++ hex_word (hc st) ++ hex_word (hd st) ++
   hex_word (he st) ++ hex_word (hf st) ++ hex_word (hg st) ++ hex_word (hh st))%string.

End Sha256.

(** ** The output record *)

(** [{'value': ..., 'confidence': ..., 'notes': ...}] *)
Record Field : Type := {
  value : scalar;
  confidence : Q;
  notes : string
}.

Record Item : Type := {
  product_name : Field;
  quantity : Field;
  unit_ : Field                  (* the key ['unit'] *)
}.

Record Event : Type := {
  email_id : string;
  from_ : Field;                 (* the key ['from'] *)
  subject : Field;
  items : list Item;
  currency : Field;
  missing_fields : list string
}.

(** A mention: [(name, qty, conf, note)]. *)
Definition mention : Type := string * option Z * Q * string.

Definition blank_field : Field :=
  {| value := VNone; confidence := 0.0; notes := "" |}.

(** ** [EmailParser.parse], stage by stage *)

(** [hashlib.sha256(text.encode('utf-8')).hexdigest()[:16]] *)
Definition make_email_id (text : string) : string :=
  substring 0 16 (Sha256.hexdigest text).

Definition new_event (id : string) : Event :=
  {| email_id := id; from_ := blank_field; subject := blank_field;
     items := []; currency := blank_field; missing_fields := [] |}.

Definition LF : string := String "010" EmptyString.

(** [parts = text.split('\n\n', 1)], then [parts[0]] and [parts[1]]. *)
Definition split_header_body (text : string) : string * string :=
  let parts := split1 text (LF ++ LF) in
  (match parts with h :: _ => h | [] => "" end,
   match parts with _ :: b :: _ => b | _ => "" end).

(** [line.split(':', 1)[1].strip()]; the lines it is applied to start with
    a prefix that holds a colon, so the second part exists. *)
Definition header_value (line : string) : string :=
  strip (nth 1 (split1 line ":") "").

Definition header_field (v : string) (missing : string) : Field :=
  {| value := VStr v;
     confidence := if v =? "" then 0.0 else 0.95;
     notes := if v =? "" then missing else "" |}.

Definition set_from (ev : Event) (f : Field) : Event :=
  {| email_id := email_id ev; from_ := f; subject := subject ev;
     items := items ev; currency := currency ev;
     missing_fields := missing_fields ev |}.

Definition set_subject (ev : Event) (f : Field) : Event :=
  {| email_id := email_id ev; from_ := from_ ev; subject := f;
     items := items ev; currency := currency ev;
     missing_fields := missing_fields ev |}.

Definition set_currency (ev : Event) (f : Field) : Event :=
  {| email_id := email_id ev; from_ := from_ ev; subject := subject ev;
     items := items ev; currency := f;
     missing_fields := missing_fields ev |}.

Definition append_item (ev : Event) (it : Item) : Event :=
  {| email_id := email_id ev; from_ := from_ ev; subject := subject ev;
     items := items ev ++ [it]; currency := currency ev;
     missing_fields := missing_fields ev |}.

Definition append_missing (ev : Event) (s : string) : Event :=
  {| email_id := email_id ev; from_ := from_ ev; subject := subject ev;
     items := items ev; currency := currency ev;
     missing_fields := missing_fields ev ++ [s] |}.

(** The body of the loop over the header lines. *)
Definition header_step (ev : Event) (line : string) : Event :=
  if startswith (lower line) "from:" then
    set_from ev (header_field (header_value line) "missing sender")
  else if startswith (lower line) "subject:" then
    set_subject ev (header_field (header_value line) "missing subject")
  else ev.

Definition extract_headers (ev : Event) (header : string) : Event :=
  fold_left header_step (splitlines header) ev.

(** The currency cue of the lower-cased body, if any. *)
Definition currency_match (body_lower : string) : option string :=
  if contains "usd" body_lower || contains "$" body_lower then Some "USD"
  else if contains "inr" body_lower || contains "₹" body_lower
          || contains "rupees" body_lower then Some "INR"
  else None.

Definition detect_currency (self : EmailParser) (body_lower : string) : Field :=
  match currency_match body_lower with
  | Some c => {| value := VStr c; confidence := 0.8; notes := "" |}
  | None => {| value := get_or_none (config self) "currency";
               confidence := 0.5; notes := "default currency assumed" |}
  end.

(** [int(s)] for a string of decimal digits, when [int] returns: the limit
    of the interpreter on the length of such a string is the matter of
    [int_error]. *)
Definition int_of_digits (s : string) : Z :=
  fold_left (fun acc c => (acc * 10 + (Z.of_N (code c) - 48))%Z)
            (list_ascii_of_string s) 0%Z.

(** [int(qty_str) if qty_str else None] on group 1 of a quantity match. *)
Definition quantity_of (body_lower : string) (m : rematch) : option Z :=
  let qty_str := group body_lower m 1 in
  if qty_str =? "" then None else Some (int_of_digits qty_str).

(** The inner loop over the quantity matches, left at the first one whose
    span holds [start, stop]. *)
Fixpoint overlaps_quantity (start stop : nat) (qms : list rematch) : bool :=
  match qms with
  | [] => false
  | qm :: qms' =>
      let (qs, qe) := span qm in
      if (qs <=? start)%nat && (stop <=? qe)%nat then true
      else overlaps_quantity start stop qms'
  end.

Definition qty_mention (canonical_name body_lower : string) (m : rematch) : mention :=
  (canonical_name, quantity_of body_lower m, 0.9%Q, "").

Definition bare_mention (canonical_name : string) : mention :=
  (canonical_name, None, 0.6%Q, "").

(** The body of the loop over the bare matches. *)
Definition plain_step (canonical_name : string) (qms : list rematch)
           (m : rematch) : list mention :=
  let (start, stop) := span m in
  if overlaps_quantity start stop qms then [] else [bare_mention canonical_name].

(** One turn of the loop over [self.product_names.items()]. *)
Definition alias_mentions (body_lower : string) (entry : string * string)
  : list mention :=
  let (key, canonical_name) := entry in
  if negb (lower canonical_name =? key)
     && negb (lower canonical_name ++ "s" =? key)
  then []
  else
    let qms := finditer (qty_pattern key) body_lower in
    map (qty_mention canonical_name body_lower) qms
    ++ flat_map (plain_step canonical_name qms)
                (finditer (plain_pattern key) body_lower).

Definition known_mentions (self : EmailParser) (body_lower : string)
  : list mention :=
  flat_map (alias_mentions body_lower) (product_names self).

Definition stopwords : list string := [
  "some"; "any"; "more"; "few"; "asap"; "pricing"; "price"; "cost"; "time";
  "info"; "information"; "availability"; "please"; "could"; "looking";
  "items"; "item"; "product"; "products"; "it"; "them"; "they"; "your";
  "our"; "quote"; "yet"; "us"; "about"; "to"; "and"; "thanks"; "thank";
  "get"; "me"; "how"; "many"; "if"; "there"; "let"; "know"; "hello"; "hi";
  "we"; "i"; "my"; "you"; "also"; "regards"; "cheers"; "kind"; "best"; "team"
].

(** [w in self.product_names] *)
Definition is_known (self : EmailParser) (w : string) : bool :=
  dict_mem (product_names self) w.

(** The body of the loop over the matches of [and_pattern]. *)
Definition and_step (self : EmailParser) (body : string) (m : rematch)
  : list string :=
  let first := group body m 1 in
  let second := group body m 2 in
  let first_lc := lower first in
  let second_lc := lower second in
  if xorb (is_known self first_lc) (is_known self second_lc) then
    let candidate := if is_known self first_lc then second else first in
    let cand_lc := lower candidate in
    if negb (is_known self cand_lc) && negb (mem cand_lc stopwords)
       && endswith cand_lc "s"
    then [title candidate] else []
  else [].

Definition and_candidates (self : EmailParser) (body : string) : list string :=
  flat_map (and_step self body) (finditer and_pattern body).

Definition verb_tokens : list string :=
  ["order"; "buy"; "purchase"; "need"; "looking"].

(** The characters [tokens[idx].strip(...)] removes: full stop, comma,
    semicolon, colon, apostrophe, double quote, exclamation and question
    mark. *)
Definition punctuation : string := ".,;:'" ++ String "034" "!?".

(** The loop over [range(1, 5)]: [following] holds the tokens after the
    verb and [n] the offsets left; a known or stop word, or a word that
    does not end in [s], is passed over, the first other one is taken. *)
Fixpoint scan_ahead (self : EmailParser) (n : nat) (following : list string)
  : list string :=
  match n, following with
  | S n', tok :: following' =>
      let candidate := strip_chars tok punctuation in
      let cand_lc := lower candidate in
      if is_known self cand_lc || mem cand_lc stopwords then
        scan_ahead self n' following'
      else if negb (endswith cand_lc "s") then
        scan_ahead self n' following'
      else [title candidate]
  | _, _ => []
  end.

(** The loop over [enumerate(tokens)]. *)
Fixpoint verb_scan (self : EmailParser) (tokens : list string) : list string :=
  match tokens with
  | [] => []
  | token :: following =>
      (if mem (lower token) verb_tokens then scan_ahead self 4 following else [])
      ++ verb_scan self following
  end.

Definition verb_candidates (self : EmailParser) (body : string) : list string :=
  verb_scan self (findall token_pattern body).

Definition unknown_mention (cand : string) : mention :=
  (cand, None, 0.2%Q, "unknown product").

(** The deduplication loop: [seen] is [seen_unknown]. *)
Fixpoint unknown_mentions_from (seen : list string) (cands : list string)
  : list mention :=
  match cands with
  | [] => []
  | cand :: cands' =>
      if mem cand seen then unknown_mentions_from seen cands'
      else unknown_mention cand :: unknown_mentions_from (cand :: seen) cands'
  end.

Definition unknown_mentions (cands : list string) : list mention :=
  unknown_mentions_from [] cands.

(** [max(a, b)] of Python: [b] when it is greater, else [a]. *)
Definition pymax (a b : Q) : Q := if Qlt_le_dec a b then b else a.

(** [self.price_list.get(name, {}).get('unit_of_measure',
    self.config.get('default_unit'))] *)
Definition unit_value (self : EmailParser) (name : string) : scalar :=
  let meta := match dict_get (price_list self) name with
              | Some m => m
              | None => []
              end in
  match dict_get meta "unit_of_measure" with
  | Some u => u
  | None => get_or_none (config self) "default_unit"
  end.

Definition qty_scalar (qty : option Z) : scalar :=
  match qty with Some q => VInt q | None => VNone end.

(** The entry a first mention creates. *)
Definition new_item (self : EmailParser) (m : mention) : Item :=
  let '(name, qty, conf, note) := m in
  {| product_name := {| value := VStr name; confidence := conf; notes := note |};
     quantity :=
       {| value := qty_scalar qty;
          confidence := match qty with Some _ => conf | None => 0.0%Q end;
          notes := match qty with Some _ => "" | None => "quantity missing" end |};
     unit_ := {| value := unit_value self name; confidence := 0.8%Q; notes := "" |} |}.

(** The update a later mention makes to the entry. *)
Definition merge_item (entry : Item) (m : mention) : Item :=
  let '(name, qty, conf, note) := m in
  let q :=
    match value (quantity entry), qty with
    | VNone, Some n => {| value := VInt n; confidence := conf; notes := "" |}
    | _, _ => quantity entry
    end in
  let pn := product_name entry in
  {| product_name :=
       {| value := value pn; confidence := pymax (confidence pn) conf;
          notes := notes pn |};
     quantity := q;
     unit_ := unit_ entry |}.

Definition mention_name (m : mention) : string := fst (fst (fst m)).
Definition mention_qty (m : mention) : option Z := snd (fst (fst m)).
Definition mention_conf (m : mention) : Q := snd (fst m).
Definition mention_note (m : mention) : string := snd m.

(** The body of the consolidation loop. *)
Definition consolidate_step (self : EmailParser) (consolidated : dict Item)
           (m : mention) : dict Item :=
  let key_name := mention_name m in
  match dict_get consolidated key_name with
  | None => dict_set consolidated key_name (new_item self m)
  | Some entry => dict_set consolidated key_name (merge_item entry m)
  end.

Definition consolidate (self : EmailParser) (items_found : list mention)
  : dict Item :=
  fold_left (consolidate_step self) items_found [].

(** The product name as the messages print it; the consolidator only
    stores strings there. *)
Definition name_text (it : Item) : string :=
  match value (product_name it) with
  | VStr s => s
  | _ => "None"
  end.

(** [v in self.price_list]: only a string can be a key. *)
Definition in_price_list (self : EmailParser) (v : scalar) : bool :=
  match v with
  | VStr s => dict_mem (price_list self) s
  | _ => false
  end.

Definition is_none (v : scalar) : bool :=
  match v with VNone => true | _ => false end.

(** The body of the loop over the items of the missing-field pass. *)
Definition missing_step (self : EmailParser) (ev : Event) (it : Item) : Event :=
  let ev := if is_none (value (quantity it))
            then append_missing ev ("quantity for " ++ name_text it) else ev in
  if negb (in_price_list self (value (product_name it)))
  then append_missing ev ("price for " ++ name_text it) else ev.

Definition determine_missing (self : EmailParser) (ev : Event) : Event :=
  let ev := if negb (truthy (value (from_ ev)))
            then append_missing ev "from" else ev in
  let ev := if negb (truthy (value (subject ev)))
            then append_missing ev "subject" else ev in
  match items ev with
  | [] => append_missing ev "items"
  | _ :: _ => fold_left (missing_step self) (items ev) ev
  end.

(** The mentions of the known products followed by those of the unknown
    candidates: the final [items_found]. *)
Definition items_found (self : EmailParser) (body : string) : list mention :=
  known_mentions self (lower body)
  ++ unknown_mentions (and_candidates self body ++ verb_candidates self body).

(** [EmailParser.parse] *)
Definition parse (self : EmailParser) (text : string) : Event :=
  let event := new_event (make_email_id text) in
  let (header, body) := split_header_body text in
  let event := extract_headers event header in
  let event := set_currency event (detect_currency self (lower body)) in
  let consolidated := consolidate self (items_found self body) in
  let event := fold_left append_item (dict_values consolidated) event in
  determine_missing self event.

(** ** Notions of the specification, for comparison with the program *)

(** The aliases a canonical name stands under: its lower-cased form and,
    unless that ends in [s], the naive plural. *)
Definition aliases (name : string) : list string :=
  let lc := lower name in
  if endswith lc "s" then [lc] else [lc; lc ++ "s"].

Definition registers (alias name : string) : bool := mem alias (aliases name).

(** Among the catalog names in registration order, the first and the last
    one that registers [alias]. *)
Definition first_registrant (names : list string) (alias : string)
  : option string :=
  find (registers alias) names.

Definition last_registrant (names : list string) (alias : string)
  : option string :=
  find (registers alias) (rev names).

(** The distinct elements of a list, in the order of their first
    occurrence. *)
Fixpoint dedup (l : list string) : list string :=
  match l with
  | [] => []
  | x :: l' => x :: filter (fun y => negb (y =? x)) (dedup l')
  end.

(** The mentions of [name] in a stream, the greatest confidence among a
    first mention and the later ones, and the quantity and confidence of
    the first mention that carries a quantity. *)
Definition named (name : string) (m : mention) : bool := mention_name m =? name.

Definition max_conf (m0 : mention) (rest : list mention) : Q :=
  fold_left pymax (map mention_conf rest) (mention_conf m0).

Fixpoint first_with_qty (ms : list mention) : option (Z * Q) :=
  match ms with
  | [] => None
  | m :: ms' =>
      match mention_qty m with
      | Some q => Some (q, mention_conf m)
      | None => first_with_qty ms'
      end
  end.

(** What the consolidation loop does to the entry of one name. *)
Definition absorb (self : EmailParser) (e : option Item) (m : mention)
  : option Item :=
  Some match e with
       | None => new_item self m
       | Some entry => merge_item entry m
       end.

(** The quantity of an item has confidence zero exactly when it has no
    value; a mention keeps this when its quantity, if any, comes with a
    confidence other than zero. *)
Definition qty_consistent (it : Item) : Prop :=
  (confidence (quantity it) == 0)%Q <-> value (quantity it) = VNone.

Definition sound_mention (m : mention) : Prop :=
  mention_qty m <> None -> ~ (mention_conf m == 0)%Q.

(** An entry of the alias map yields a mention in the body; a catalog name
    is mentioned when one of its aliases does; no alias is shared. *)
Definition yields (body_lower : string) (entry : string * string) : bool :=
  match alias_mentions body_lower entry with
  | [] => false
  | _ :: _ => true
  end.

Definition mentioned (body_lower name : string) : bool :=
  existsb (fun a => yields body_lower (a, name)) (aliases name).

Definition collision_free (pl : dict (dict scalar)) : Prop :=
  NoDup (flat_map aliases (dict_keys pl)).

(** The entries the aliases of a name make in the alias map. *)
Definition alias_entries (name : string) : list (string * string) :=
  map (fun a => (a, name)) (aliases name).


(** [x] occurs in [l] exactly once. *)
Definition once {A : Type} (x : A) (l : list A) : Prop :=
  exists l1 l2, l = (l1 ++ x :: l2)%list /\ ~ In x l1 /\ ~ In x l2.

(** The value is missing for the analyzer: [None] or the empty string. *)
Definition absent (f : Field) : bool := negb (truthy (value f)).

(** The value of a header field is [None] or a string. *)
Definition textual (f : Field) : Prop :=
  value f = VNone \/ exists s, value f = VStr s.

Definition is_hex (c : ascii) : bool := is_digit c || in_range 97 102 c.

(** The header block and the body of a text. *)
Definition header_of (text : string) : string := fst (split_header_body text).
Definition body_of (text : string) : string := snd (split_header_body text).

(** A line of the header that gives the sender, the subject. *)
Definition is_from (line : string) : bool := startswith (lower line) "from:".
Definition is_subject (line : string) : bool := startswith (lower line) "subject:".

Fixpoint no_colon (p : string) : bool :=
  match p with
  | EmptyString => true
  | String c p' => negb (Ascii.eqb c ":") && no_colon p'
  end.

(** What a stage keeps of the event: everything but the lists it appends to. *)
Definition same_headers (ev ev' : Event) : Prop :=
  email_id ev' = email_id ev /\ from_ ev' = from_ ev
  /\ subject ev' = subject ev /\ currency ev' = currency ev.

(** What one item adds to the list of missing fields. *)
Definition item_missing (self : EmailParser) (it : Item) : list string :=
  (if is_none (value (quantity it))
   then [("quantity for " ++ name_text it)%string] else [])
  ++ (if in_price_list self (value (product_name it))
      then [] else [("price for " ++ name_text it)%string]).

(** ** The inputs on which the embedding is the program *)

(** A character, a text, the names of a catalog in the ASCII range: there
    the case mappings, [strip] and the character classes above are those
    of Python. *)
Definition ascii_char (c : ascii) : bool := (code c <? 128)%N.

Fixpoint ascii_text (s : string) : bool :=
  match s with
  | EmptyString => true
  | String c s' => ascii_char c && ascii_text s'
  end.

Definition ascii_catalog (pl : dict (dict scalar)) : bool :=
  forallb ascii_text (dict_keys pl).

(** The aliases of the parser are ASCII, as those of an ASCII catalog
    are. *)
Definition ascii_vocabulary (self : EmailParser) : bool :=
  forallb ascii_text (dict_keys (product_names self)).

(** [str(n)] of an int *)
Definition str_of_int (n : Z) : string := NilZero.string_of_int (Z.to_int n).

(** The default limit of the interpreter on the digits [int] converts. *)
Definition int_max_str_digits : nat := 4300.

(** The text of the [ValueError] that [int(qty_str)] raises, if it does. *)
Definition int_error (qty_str : string) : option string :=
  if (int_max_str_digits <? String.length qty_str)%nat
  then Some ("Exceeds the limit (4300 digits) for integer string conversion: value has "
             ++ str_of_int (Z.of_nat (String.length qty_str))
             ++ " digits; use sys.set_int_max_str_digits() to increase the limit")
  else None.

(** The first result in the order of the list. *)
Fixpoint first_some {A B : Type} (f : A -> option B) (l : list A) : option B :=
  match l with
  | [] => None
  | x :: l' =>
      match f x with
      | Some y => Some y
      | None => first_some f l'
      end
  end.

(** The exception of a turn of the loop over the aliases: that of the first
    quantity match whose digits [int] refuses. *)
Definition alias_int_error (body_lower : string) (entry : string * string)
  : option string :=
  let (key, canonical_name) := entry in
  if negb (lower canonical_name =? key)
     && negb (lower canonical_name ++ "s" =? key)
  then None
  else first_some (fun m => int_error (group body_lower m 1))
                  (finditer (qty_pattern key) body_lower).

Definition int_error_in (product_names : dict string) (body_lower : string)
  : option string :=
  first_some (alias_int_error body_lower) product_names.

(** The text of the exception [parse] raises on a text, [None] when it
    returns (then with the event [parse self text]). *)
Definition parse_error (self : EmailParser) (text : string) : option string :=
  int_error_in (product_names self) (lower (body_of text)).

(** ** Sample data *)

Definition demo_parser : EmailParser :=
  init [("Widget", [("unit_price", VNum 2.5); ("unit_of_measure", VStr "each")]);
        ("Gadget", [("unit_price", VNum 10.0)])]
       [("currency", VStr "INR"); ("default_unit", VStr "unit")].

Definition mail (header body : string) : string := header ++ LF ++ LF ++ body.

Definition item_summary (it : Item) : scalar * Q * scalar * Q :=
  (value (product_name it), confidence (product_name it),
   value (quantity it), confidence (quantity it)).

Definition two_senders : string :=
  mail ("From: first@x.org" ++ LF ++ "From: second@x.org" ++ LF ++ "Subject: hi")%string
       "We need 10 Widgets".

Definition order_mail : string := "I would like to order Thingamajigs and Widgets".

(* ================================================================== *)
(** * Part I, continued — the quote, the acknowledgment and the inbox *)
(* ================================================================== *)

(** The functions that work on the events of the parser: [apply_discount],
    [generate_quote], [draft_acknowledgment] and the loop of
    [process_inbox].

    Further conventions.
    - The floats of the quote are kept abstract ([float_ops]): the
      properties hold for every arithmetic, rounding and conversion, those
      of the IEEE doubles included.  The rationals serve to run the
      calculator on examples.
    - A function that can raise returns an [outcome].  An event that
      holds, as the name or the quantity of an item or as the sender or
      the subject, a value of a type [parse] never stores there is outside
      the model.
    - The discount rules are well-formed: a [rule] is a rule with an
      integer threshold after [float] has converted its discount, so
      [apply_discount] does not raise.  Nothing is said of rules that lack
      a key or hold a value of another type.
    - The data directory is a record of maps from file names to the values
      written: the JSON text of a file is not modelled, writing succeeds,
      and the clock is a function of the number of readings taken.  An
      exception of [parse] is the one [parse_error] describes. *)

(** ** Further notions of the parser's results *)

(** The unit field an item is created with. *)
Definition unit_of (self : EmailParser) (name : string) : Field :=
  {| value := unit_value self name; confidence := 0.8%Q; notes := "" |}.

(** A header field as [parse] leaves it: a stripped non-empty text with
    confidence 0.95, or nothing with confidence 0. *)
Definition header_field_ok (f : Field) : Prop :=
  (exists s, value f = VStr s /\ s <> "" /\ strip s = s
             /\ confidence f = 0.95%Q /\ notes f = "")
  \/ (confidence f = 0.0%Q /\ (value f = VNone \/ value f = VStr "")).

(** The confidence levels of a mention, and what a quantity says of
    them. *)
Definition level (c : Q) : Prop := c = 0.9%Q \/ c = 0.6%Q \/ c = 0.2%Q.

Definition graded_mention (m : mention) : Prop :=
  level (mention_conf m) /\ (mention_qty m <> None -> mention_conf m = 0.9%Q).

Definition graded_item (it : Item) : Prop :=
  level (confidence (product_name it))
  /\ ((exists n, quantity it = {| value := VInt n; confidence := 0.9%Q; notes := "" |})
      /\ confidence (product_name it) = 0.9%Q
      \/ quantity it = {| value := VNone; confidence := 0.0%Q;
                          notes := "quantity missing" |}).

(** [token.lower() in verb_tokens] *)
Definition is_verb (token : string) : bool := mem (lower token) verb_tokens.

(** A word the unknown-product heuristics accept: not an alias, not a
    stopword, ending in [s]. *)
Definition plural_unknown (self : EmailParser) (c : string) : Prop :=
  is_known self (lower c) = false
  /\ mem (lower c) stopwords = false
  /\ endswith (lower c) "s" = true.

(** ** [apply_discount] *)

(** A tier of the discount rules, [{'min_quantity': ..., 'discount': ...}];
    the type of the discount is that of the floats. *)
Record rule (F : Type) : Type := {
  min_quantity : Z;
  discount : F
}.

Arguments min_quantity {F} _.
Arguments discount {F} _.

(** [sorted(discount_rules, key=lambda r: r['min_quantity'], reverse=True)]:
    the sort is stable, so of two rules with the same threshold the one
    listed first stays first. *)
Fixpoint insert_rule {F : Type} (x : rule F) (sorted : list (rule F)) : list (rule F) :=
  match sorted with
  | [] => [x]
  | y :: rest =>
      if (min_quantity y <=? min_quantity x)%Z then x :: y :: rest
      else y :: insert_rule x rest
  end.

Fixpoint sorted_rules {F : Type} (rules : list (rule F)) : list (rule F) :=
  match rules with
  | [] => []
  | x :: rest => insert_rule x (sorted_rules rest)
  end.

(** The loop: the first rule the quantity reaches gives the rate. *)
Fixpoint first_match {F : Type} (zero : F) (quantity : Z) (rules : list (rule F)) : F :=
  match rules with
  | [] => zero
  | r :: rest =>
      if (min_quantity r <=? quantity)%Z then discount r
      else first_match zero quantity rest
  end.

(** [apply_discount(quantity, discount_rules)]; [zero] is [0.0]. *)
Definition apply_discount {F : Type} (zero : F) (quantity : Z)
           (discount_rules : list (rule F)) : F :=
  first_match zero quantity (sorted_rules discount_rules).

(** The rule a quantity falls under: among the rules it reaches, one with
    the greatest threshold, and of several such the one listed first. *)
Fixpoint best_rule {F : Type} (quantity : Z) (rules : list (rule F))
  : option (rule F) :=
  match rules with
  | [] => None
  | x :: rest =>
      if (min_quantity x <=? quantity)%Z then
        match best_rule quantity rest with
        | Some y => if (min_quantity x <? min_quantity y)%Z then Some y else Some x
        | None => Some x
        end
      else best_rule quantity rest
  end.

(** The quantity reaches the threshold of the rule. *)
Definition reaches {F : Type} (quantity : Z) (r : rule F) : bool :=
  (min_quantity r <=? quantity)%Z.

Definition first_reached {F : Type} (quantity : Z) (rules : list (rule F))
  : option (rule F) :=
  find (reaches quantity) rules.

(** Thresholds do not grow along the list. *)
Definition descending {F : Type} (rules : list (rule F)) : Prop :=
  StronglySorted (fun x y => (min_quantity y <= min_quantity x)%Z) rules.

Definition sample_rules : list (rule Q) :=
  [ {| min_quantity := 10; discount := 0.05%Q |};
    {| min_quantity := 100; discount := 0.15%Q |};
    {| min_quantity := 50; discount := 0.1%Q |} ].

(** ** Outcomes of the functions that can raise *)

(** A result, an exception by its name, or an event that holds a value of a
    type [parse] never stores there ([Unmodelled]: the model says nothing
    of what the code does then). *)
Inductive outcome (A : Type) : Type :=
| Ok (a : A)
| Raise (exc : string)
| Unmodelled.

Arguments Ok {A} a.
Arguments Raise {A} exc.
Arguments Unmodelled {A}.

Definition bind {A B : Type} (c : outcome A) (k : A -> outcome B) : outcome B :=
  match c with
  | Ok a => k a
  | Raise exc => Raise exc
  | Unmodelled => Unmodelled
  end.

Notation "x <- c ;; k" := (bind c (fun x => k))
  (at level 61, c at next level, right associativity).

(** A loop whose body can raise. *)
Fixpoint fold_outcome {A S : Type} (step : S -> A -> outcome S)
         (l : list A) (s : S) : outcome S :=
  match l with
  | [] => Ok s
  | x :: l' => s' <- step s x ;; fold_outcome step l' s'
  end.

(** The name of an item is a string and its quantity an int or [None]; the
    sender and the subject are a string or [None]. *)
Definition shaped_item (it : Item) : bool :=
  match value (product_name it), value (quantity it) with
  | VStr _, VNone | VStr _, VInt _ => true
  | _, _ => false
  end.

Definition textual_value (f : Field) : bool :=
  match value f with
  | VNone | VStr _ => true
  | _ => false
  end.

Definition shaped (ev : Event) : bool :=
  textual_value (from_ ev) && textual_value (subject ev)
  && forallb shaped_item (items ev).

Definition item_qty (it : Item) : option Z :=
  match value (quantity it) with
  | VInt n => Some n
  | _ => None
  end.

(** ** [generate_quote] *)

(** The floats and the operations on them the calculator uses.  They are
    kept abstract: [float_of_int] is the conversion of an int operand (it
    raises on an int too large), [to_float] the builtin [float], [round2]
    is [round(x, 2)]. *)
Record float_ops : Type := {
  float : Type;
  zero : float;
  fadd : float -> float -> float;
  fsub : float -> float -> float;
  fmul : float -> float -> float;
  round2 : float -> float;
  float_of_int : Z -> outcome float;
  to_float : scalar -> outcome float
}.

Record QuoteLine (fl : Type) : Type := {
  line_product_name : string;
  line_unit_price : option fl;
  line_quantity : option Z;
  line_discount_rate : fl;
  line_discount_amount : fl;
  line_subtotal : option fl
}.

Record Quote (fl : Type) : Type := {
  quote_email_id : string;
  quote_status : string;
  quote_line_items : list (QuoteLine fl);
  quote_subtotal : fl;
  quote_tax : fl;
  quote_total : fl;
  quote_currency : scalar;
  quote_missing_fields : list string
}.

Arguments line_product_name {fl} _.
Arguments line_unit_price {fl} _.
Arguments line_quantity {fl} _.
Arguments line_discount_rate {fl} _.
Arguments line_discount_amount {fl} _.
Arguments line_subtotal {fl} _.
Arguments quote_email_id {fl} _.
Arguments quote_status {fl} _.
Arguments quote_line_items {fl} _.
Arguments quote_subtotal {fl} _.
Arguments quote_tax {fl} _.
Arguments quote_total {fl} _.
Arguments quote_currency {fl} _.
Arguments quote_missing_fields {fl} _.

Section QuoteCalculator.

Variable fo : float_ops.

Definition new_quote (event : Event) : Quote (float fo) :=
  {| quote_email_id := email_id event; quote_status := "complete";
     quote_line_items := []; quote_subtotal := zero fo; quote_tax := zero fo;
     quote_total := zero fo; quote_currency := value (currency event);
     quote_missing_fields := [] |}.

(** [quote['missing_fields'].append(s)] then [quote['line_items'].append(line)] *)
Definition push_pending (quote : Quote (float fo)) (s : string)
           (line : QuoteLine (float fo)) : Quote (float fo) :=
  {| quote_email_id := quote_email_id quote; quote_status := quote_status quote;
     quote_line_items := quote_line_items quote ++ [line];
     quote_subtotal := quote_subtotal quote; quote_tax := quote_tax quote;
     quote_total := quote_total quote; quote_currency := quote_currency quote;
     quote_missing_fields := quote_missing_fields quote ++ [s] |}.

(** [quote['line_items'].append(line)] then [quote['subtotal'] += x] *)
Definition push_priced (quote : Quote (float fo)) (line : QuoteLine (float fo))
           (x : float fo) : Quote (float fo) :=
  {| quote_email_id := quote_email_id quote; quote_status := quote_status quote;
     quote_line_items := quote_line_items quote ++ [line];
     quote_subtotal := fadd fo (quote_subtotal quote) x;
     quote_tax := quote_tax quote; quote_total := quote_total quote;
     quote_currency := quote_currency quote;
     quote_missing_fields := quote_missing_fields quote |}.

(** The body of the loop over the items; the state is the quote and the
    flag [pending]. *)
Definition quote_step (price_list : dict (dict scalar))
           (discount_rules : list (rule (float fo)))
           (st : Quote (float fo) * bool) (item : Item)
  : outcome (Quote (float fo) * bool) :=
  let (quote, pending) := st in
  let pname := name_text item in
  let qty := item_qty item in
  match dict_get price_list pname with
  | None =>
      Ok (push_pending quote ("price for " ++ pname)
            {| line_product_name := pname; line_unit_price := None;
               line_quantity := qty; line_discount_rate := zero fo;
               line_discount_amount := zero fo; line_subtotal := None |},
          true)
  | Some meta =>
      unit_price <- match dict_get meta "unit_price" with
                    | Some v => to_float fo v
                    | None => Raise "KeyError"
                    end ;;
      match qty with
      | None =>
          Ok (push_pending quote ("quantity for " ++ pname)
                {| line_product_name := pname; line_unit_price := Some unit_price;
                   line_quantity := qty; line_discount_rate := zero fo;
                   line_discount_amount := zero fo; line_subtotal := None |},
              true)
      | Some n =>
          let discount_rate := apply_discount (zero fo) n discount_rules in
          qf <- float_of_int fo n ;;
          let discount_amount := fmul fo (fmul fo unit_price qf) discount_rate in
          let line_total := fsub fo (fmul fo unit_price qf) discount_amount in
          Ok (push_priced quote
                {| line_product_name := pname; line_unit_price := Some unit_price;
                   line_quantity := qty; line_discount_rate := discount_rate;
                   line_discount_amount := round2 fo discount_amount;
                   line_subtotal := Some (round2 fo line_total) |}
                line_total,
              pending)
      end
  end.

(** [float(config.get('tax_rate', 0.0))] *)
Definition tax_rate_of (config : dict scalar) : outcome (float fo) :=
  match dict_get config "tax_rate" with
  | Some v => to_float fo v
  | None => Ok (zero fo)
  end.

(** The quote when nothing is pending: tax and total from the subtotal as
    summed, then the subtotal rounded. *)
Definition close_quote (quote : Quote (float fo)) (tax_rate : float fo)
  : Quote (float fo) :=
  let tax := round2 fo (fmul fo (quote_subtotal quote) tax_rate) in
  {| quote_email_id := quote_email_id quote; quote_status := quote_status quote;
     quote_line_items := quote_line_items quote;
     quote_subtotal := round2 fo (quote_subtotal quote);
     quote_tax := tax;
     quote_total := round2 fo (fadd fo (quote_subtotal quote) tax);
     quote_currency := quote_currency quote;
     quote_missing_fields := quote_missing_fields quote |}.

Definition mark_pending (quote : Quote (float fo)) : Quote (float fo) :=
  {| quote_email_id := quote_email_id quote; quote_status := "pending";
     quote_line_items := quote_line_items quote;
     quote_subtotal := quote_subtotal quote; quote_tax := quote_tax quote;
     quote_total := quote_total quote; quote_currency := quote_currency quote;
     quote_missing_fields := quote_missing_fields quote |}.

(** [generate_quote(event, price_list, discount_rules, config)] *)
Definition generate_quote (event : Event) (price_list : dict (dict scalar))
           (discount_rules : list (rule (float fo))) (config : dict scalar)
  : outcome (Quote (float fo)) :=
  if forallb shaped_item (items event) then
    st <- fold_outcome (quote_step price_list discount_rules) (items event)
                       (new_quote event, false) ;;
    if snd st then Ok (mark_pending (fst st))
    else
      tax_rate <- tax_rate_of config ;;
      Ok (close_quote (fst st) tax_rate)
  else Unmodelled.

End QuoteCalculator.

(** What the calculator reports missing for an item, and whether the item
    keeps the quote pending. *)
Definition quote_missing (price_list : dict (dict scalar)) (it : Item)
  : list string :=
  if dict_mem price_list (name_text it) then
    match item_qty it with
    | None => ["quantity for " ++ name_text it]
    | Some _ => []
    end
  else ["price for " ++ name_text it].

Definition unpriced (price_list : dict (dict scalar)) (it : Item) : bool :=
  negb (dict_mem price_list (name_text it))
  || match item_qty it with None => true | Some _ => false end.

(** A line of the quote stands for an item. *)
Definition line_of (fo : float_ops) (price_list : dict (dict scalar))
           (line : QuoteLine (float fo)) (it : Item) : Prop :=
  line_product_name line = name_text it
  /\ line_quantity line = item_qty it
  /\ (line_unit_price line = None <-> dict_mem price_list (name_text it) = false)
  /\ (line_subtotal line = None <-> unpriced price_list it = true)
  /\ (unpriced price_list it = true ->
      line_discount_rate line = zero fo /\ line_discount_amount line = zero fo).

(** What the loop over the items keeps of the quote it starts from, and
    what it adds for the items. *)
Definition extends (fo : float_ops) (price_list : dict (dict scalar))
           (q0 q : Quote (float fo)) (its : list Item) : Prop :=
  quote_email_id q = quote_email_id q0
  /\ quote_status q = quote_status q0
  /\ quote_currency q = quote_currency q0
  /\ quote_tax q = quote_tax q0
  /\ quote_total q = quote_total q0
  /\ quote_missing_fields q
     = (quote_missing_fields q0 ++ flat_map (quote_missing price_list) its)%list
  /\ exists lines, quote_line_items q = (quote_line_items q0 ++ lines)%list
                   /\ Forall2 (line_of fo price_list) lines its.

(** The item names a catalog entry that has no unit price. *)
Definition price_missing (price_list : dict (dict scalar)) (it : Item) : Prop :=
  exists meta, dict_get price_list (name_text it) = Some meta
               /\ dict_get meta "unit_price" = None.

(** The conversions succeed on the prices and the quantities of the items
    and on the tax rate. *)
Definition convertible (fo : float_ops) (price_list : dict (dict scalar))
           (config : dict scalar) (its : list Item) : Prop :=
  Forall (fun it =>
            (forall meta, dict_get price_list (name_text it) = Some meta ->
                          exists v up, dict_get meta "unit_price" = Some v
                                       /\ to_float fo v = Ok up)
            /\ (forall n, item_qty it = Some n ->
                          exists qf, float_of_int fo n = Ok qf))
         its
  /\ exists rate, tax_rate_of fo config = Ok rate.

(** The amount of a priced line before rounding, recomputed from the unit
    price, the quantity and the discount rate the line shows; and the sum
    of these amounts over the priced lines, in the order of the lines. *)
Definition line_exact (fo : float_ops) (line : QuoteLine (float fo))
  : option (float fo) :=
  match line_unit_price line, line_quantity line with
  | Some up, Some n =>
      match float_of_int fo n with
      | Ok qf =>
          let gross := fmul fo up qf in
          Some (fsub fo gross (fmul fo gross (line_discount_rate line)))
      | _ => None
      end
  | _, _ => None
  end.

Definition add_exact (fo : float_ops) (acc : float fo)
           (line : QuoteLine (float fo)) : float fo :=
  match line_exact fo line with
  | Some x => fadd fo acc x
  | None => acc
  end.

Definition sum_exact (fo : float_ops) (lines : list (QuoteLine (float fo)))
  : float fo :=
  fold_left (add_exact fo) lines (zero fo).

(** The discount fields of a line agree with its price and quantity. *)
Definition line_discounted (fo : float_ops)
           (discount_rules : list (rule (float fo)))
           (line : QuoteLine (float fo)) : Prop :=
  line_subtotal line = option_map (round2 fo) (line_exact fo line)
  /\ match line_unit_price line, line_quantity line with
     | Some up, Some n =>
         line_discount_rate line = apply_discount (zero fo) n discount_rules
         /\ exists qf, float_of_int fo n = Ok qf
                       /\ line_discount_amount line
                          = round2 fo (fmul fo (fmul fo up qf)
                                            (line_discount_rate line))
     | _, _ => line_discount_rate line = zero fo
               /\ line_discount_amount line = zero fo
     end.

(** A missing-field entry that names an item, not a part of the email. *)
Definition item_level (s : string) : bool :=
  negb (mem s ["from"; "subject"; "items"]).

(** Exact decimal arithmetic, to run the calculator on examples. *)
Definition exact_floats : float_ops :=
  {| float := Q; zero := 0.0%Q;
     fadd := Qplus; fsub := Qminus; fmul := Qmult;
     round2 := fun x => Qred (Qmake (Qfloor (x * 100 + (1 # 2))%Q) 100);
     float_of_int := fun n => Ok (inject_Z n);
     to_float := fun v => match v with
                          | VNum q => Ok q
                          | VInt n => Ok (inject_Z n)
                          | VStr _ => Raise "ValueError"
                          | VNone => Raise "TypeError"
                          end |}.

(** ** [draft_acknowledgment] *)

Record Draft : Type := {
  draft_email_id : string;
  draft_to : string;
  draft_subject : string;
  draft_body : string;
  draft_missing_fields : list string;
  draft_questions : list string
}.

(** [v or default], for a value that is [None] or a string. *)
Definition or_default (v : scalar) (default : string) : string :=
  match v with
  | VStr s => if s =? "" then default else s
  | _ => default
  end.

(** [s.split(sep)], for a non-empty [sep]: at most [fuel] cuts, and a text
    needs no more cuts than it has characters. *)
Fixpoint split_upto (fuel : nat) (s sep : string) : list string :=
  match fuel with
  | O => [s]
  | S fuel' =>
      match partition sep s with
      | Some (a, b) => a :: split_upto fuel' b sep
      | None => [s]
      end
  end.

Definition split (s sep : string) : list string :=
  split_upto (String.length s) s sep.

(** The greeting, with the part of the address before the first [@]. *)
Definition greeting_of (to_addr : string) : string :=
  let name := if negb (to_addr =? "") && contains "@" to_addr
              then nth 0 (split to_addr "@") ""
              else to_addr in
  if name =? "" then "Hello," else "Hello " ++ title name ++ ",".

Definition describe (item : Item) : string :=
  match item_qty item with
  | Some qty => str_of_int qty ++ " " ++ name_text item ++ "(s)"
  | None => name_text item
  end.

Definition thanks_of (its : list Item) : string :=
  match its with
  | [] => "Thank you for your inquiry."
  | _ :: _ => "Thank you for reaching out to us regarding "
              ++ String.concat ", " (map describe its) ++ "."
  end.

Definition ask_quantity (product : string) : string :=
  "Could you please confirm the quantity required for " ++ product ++ "?".

Definition ask_price (product : string) : string :=
  "Could you provide more details about " ++ product
  ++ " so we can confirm pricing?".

Definition ask_items : string :=
  "Could you specify which products and quantities you are interested in?".

Definition ask_subject : string :=
  "Could you provide a brief subject for this inquiry?".

Definition ask_from : string :=
  "Could you let us know your preferred contact email?".

(** The question a missing field gives rise to, if any; [split(sep)[1]]
    exists when the field starts with [sep]. *)
Definition question_for (field : string) : list string :=
  if startswith field "quantity for "
  then [ask_quantity (nth 1 (split field "quantity for ") "")]
  else if startswith field "price for "
  then [ask_price (nth 1 (split field "price for ") "")]
  else if field =? "items" then [ask_items]
  else if field =? "subject" then [ask_subject]
  else if field =? "from" then [ask_from]
  else [].

(** The questions for the first two missing fields. *)
Definition questions_of (fields : list string) : list string :=
  flat_map question_for (firstn 2 fields).

Definition question_lines (questions : list string) : list string :=
  match questions with
  | [] => []
  | _ :: _ =>
      ([""; "To help us prepare an accurate quote, could you please clarify the following:"]
       ++ map (fun q => ("- " ++ q)%string) questions)%list
  end.

(** [draft_acknowledgment(event, config)]; the join of the lines raises on
    an [sla_text] that is not a string. *)
Definition draft_acknowledgment (event : Event) (config : dict scalar)
  : outcome Draft :=
  if shaped event then
    let to_addr := or_default (value (from_ event)) "customer" in
    let subj := or_default (value (subject event)) "your inquiry" in
    let questions := questions_of (missing_fields event) in
    let body_lines (sla : string) :=
      ([greeting_of to_addr; ""; thanks_of (items event)]
       ++ question_lines questions
       ++ [""; sla; ""; "Kind regards,"; "Sales Team"])%list in
    let draft (sla : string) :=
      {| draft_email_id := email_id event;
         draft_to := to_addr;
         draft_subject := "Re: " ++ subj;
         draft_body := String.concat LF (body_lines sla);
         draft_missing_fields := missing_fields event;
         draft_questions := questions |} in
    match dict_get config "sla_text" with
    | None => Ok (draft "")
    | Some (VStr sla) => Ok (draft sla)
    | Some _ => Raise "TypeError"
    end
  else Unmodelled.

(** The closing text of the configuration is a string, or there is none. *)
Definition sla_textual (config : dict scalar) : bool :=
  match dict_get config "sla_text" with
  | None | Some (VStr _) => true
  | Some _ => false
  end.

Definition widget_item : Item :=
  {| product_name := {| value := VStr "Widget"; confidence := 0.9%Q; notes := "" |};
     quantity := {| value := VInt 12; confidence := 0.9%Q; notes := "" |};
     unit_ := {| value := VStr "each"; confidence := 0.8%Q; notes := "" |} |}.

Definition sprockets_item : Item :=
  {| product_name := {| value := VStr "Sprockets"; confidence := 0.2%Q;
                        notes := "unknown product" |};
     quantity := {| value := VNone; confidence := 0.0%Q;
                    notes := "quantity missing" |};
     unit_ := {| value := VStr "unit"; confidence := 0.8%Q; notes := "" |} |}.

Definition sample_event : Event :=
  {| email_id := "0123456789abcdef";
     from_ := {| value := VStr "asha.rao@example.com"; confidence := 0.95%Q;
                 notes := "" |};
     subject := {| value := VNone; confidence := 0.0%Q; notes := "" |};
     items := [widget_item; sprockets_item];
     currency := {| value := VStr "INR"; confidence := 0.5%Q; notes := "" |};
     missing_fields := ["subject"; "quantity for Sprockets"; "price for Sprockets"] |}.

(** A price list with an entry that has no unit price. *)
Definition unpriced_catalog : dict (dict scalar) :=
  [("Widget", [("unit_of_measure", VStr "each")])].

Definition sample_config : dict scalar :=
  [("currency", VStr "INR"); ("tax_rate", VNum 0.18%Q);
   ("sla_text", VStr "We will respond within one business day.")].

(** ** [process_inbox] *)

(** What the loop finds under a name of the inbox directory: something
    that is not a regular file, a file whose reading raises (with the text
    of the exception), or a file with its text. *)
Inductive inbox_entry : Type :=
| NotFile
| Unreadable (exc : string)
| Text (raw_email : string).

(** A line of [timeline/activity.jsonl]. *)
Record LogRecord : Type := {
  log_timestamp : string;
  log_email_id : option string;
  log_step : string;
  log_status : string;
  log_message : string
}.

(** The data directory, each sub-directory as a map from file names to the
    value written there, and the number of clock readings taken so far.
    Writing a file and appending a line are taken to succeed. *)
Record World (fl : Type) : Type := {
  events_dir : dict Event;
  outbox_dir : dict Draft;
  quotes_dir : dict (Quote fl);
  timeline_file : list LogRecord;
  clock_reads : nat
}.

Arguments events_dir {fl} _.
Arguments outbox_dir {fl} _.
Arguments quotes_dir {fl} _.
Arguments timeline_file {fl} _.
Arguments clock_reads {fl} _.

(** [sorted(os.listdir(inbox_path))]: the names of a directory are
    distinct, so the entries are ordered by their names alone. *)
Fixpoint insert_entry (e : string * inbox_entry)
         (sorted : list (string * inbox_entry)) : list (string * inbox_entry) :=
  match sorted with
  | [] => [e]
  | x :: rest =>
      if String.leb (fst e) (fst x) then e :: x :: rest
      else x :: insert_entry e rest
  end.

Definition sorted_listing (listing : list (string * inbox_entry))
  : list (string * inbox_entry) :=
  fold_right insert_entry [] listing.

Definition event_file (email_id : string) : string := email_id ++ ".json".
Definition ack_file (email_id : string) : string := email_id ++ "_ack.json".
Definition quote_file (email_id : string) : string := email_id ++ ".json".

Section Inbox.

Variable fo : float_ops.

(** The reading of the clock at each call of [current_timestamp_iso]. *)
Variable clock : nat -> string.

Variable price_list : dict (dict scalar).
Variable discount_rules : list (rule (float fo)).
Variable config : dict scalar.

(** [append_jsonl(timeline_file, {'timestamp': current_timestamp_iso(), ...})] *)
Definition log (w : World (float fo)) (email_id : option string)
           (step status message : string) : World (float fo) :=
  {| events_dir := events_dir w; outbox_dir := outbox_dir w;
     quotes_dir := quotes_dir w;
     timeline_file :=
       (timeline_file w
        ++ [{| log_timestamp := clock (clock_reads w);
               log_email_id := email_id; log_step := step;
               log_status := status; log_message := message |}])%list;
     clock_reads := S (clock_reads w) |}.

Definition save_event (w : World (float fo)) (name : string) (event : Event)
  : World (float fo) :=
  {| events_dir := dict_set (events_dir w) name event;
     outbox_dir := outbox_dir w; quotes_dir := quotes_dir w;
     timeline_file := timeline_file w; clock_reads := clock_reads w |}.

Definition save_ack (w : World (float fo)) (name : string) (ack : Draft)
  : World (float fo) :=
  {| events_dir := events_dir w;
     outbox_dir := dict_set (outbox_dir w) name ack;
     quotes_dir := quotes_dir w;
     timeline_file := timeline_file w; clock_reads := clock_reads w |}.

Definition save_quote (w : World (float fo)) (name : string)
           (quote : Quote (float fo)) : World (float fo) :=
  {| events_dir := events_dir w; outbox_dir := outbox_dir w;
     quotes_dir := dict_set (quotes_dir w) name quote;
     timeline_file := timeline_file w; clock_reads := clock_reads w |}.

(** The steps for an email whose event file does not exist yet.  An
    exception of the draft or of the quote leaves the loop, with what was
    written before it. *)
Definition process_new (w : World (float fo)) (fname : string) (event : Event)
  : World (float fo) * outcome unit :=
  let email_id := email_id event in
  let w := save_event w (event_file email_id) event in
  let w := log w (Some email_id) "parse_email" "success" ("Parsed " ++ fname) in
  match draft_acknowledgment event config with
  | Ok ack =>
      let w := save_ack w (ack_file email_id) ack in
      let w := log w (Some email_id) "generate_ack" "success"
                   ("Drafted acknowledgment for " ++ fname) in
      match generate_quote fo event price_list discount_rules config with
      | Ok quote =>
          let w := save_quote w (quote_file email_id) quote in
          (log w (Some email_id) "generate_quote"
               (if quote_status quote =? "complete" then "success" else "pending")
               ("Generated " ++ quote_status quote ++ " quote for " ++ fname),
           Ok tt)
      | Raise exc => (w, Raise exc)
      | Unmodelled => (w, Unmodelled)
      end
  | Raise exc => (w, Raise exc)
  | Unmodelled => (w, Unmodelled)
  end.

(** The body of the loop over the names of the inbox.  An exception of
    the reading or of [parse] is logged and the loop goes on. *)
Definition process_file (w : World (float fo)) (e : string * inbox_entry)
  : World (float fo) * outcome unit :=
  let (fname, entry) := e in
  match entry with
  | NotFile => (w, Ok tt)
  | Unreadable exc =>
      if endswith (lower fname) ".txt"
      then (log w None "read_email" "error"
                ("Failed to read " ++ fname ++ ": " ++ exc), Ok tt)
      else (w, Ok tt)
  | Text raw_email =>
      if endswith (lower fname) ".txt" then
        match parse_error (init price_list config) raw_email with
        | Some exc =>
            (log w None "parse_email" "error"
                 ("Failed to parse " ++ fname ++ ": " ++ exc), Ok tt)
        | None =>
            let event := parse (init price_list config) raw_email in
            if dict_mem (events_dir w) (event_file (email_id event))
            then (log w (Some (email_id event)) "skip_email" "skipped"
                      ("Event for " ++ fname ++ " already processed"), Ok tt)
            else process_new w fname event
        end
      else (w, Ok tt)
  end.

Fixpoint process_files (entries : list (string * inbox_entry))
         (w : World (float fo)) : World (float fo) * outcome unit :=
  match entries with
  | [] => (w, Ok tt)
  | e :: rest =>
      match process_file w e with
      | (w', Ok _) => process_files rest w'
      | stopped => stopped
      end
  end.

(** [process_inbox(inbox_path, data_path)], with the inbox as listed and
    the loaded price list, discount rules and configuration. *)
Definition process_inbox (listing : list (string * inbox_entry))
           (w : World (float fo)) : World (float fo) * outcome unit :=
  process_files (sorted_listing listing) w.

End Inbox.

(** A text file of the inbox that the loop reads. *)
Definition inbox_text (listing : list (string * inbox_entry))
           (fname raw_email : string) : Prop :=
  In (fname, Text raw_email) listing /\ endswith (lower fname) ".txt" = true.

(** The texts of the inbox are ASCII. *)
Definition ascii_inbox (listing : list (string * inbox_entry)) : bool :=
  forallb (fun e => match snd e with
                    | Text raw_email => ascii_text raw_email
                    | _ => true
                    end)
          listing.

(** A text with a quantity of [n] nines before a product of the sample
    catalog. *)
Fixpoint nines (n : nat) : string :=
  match n with
  | O => EmptyString
  | S n' => String "9" (nines n')
  end.

Definition long_quantity_mail (n : nat) : string :=
  mail "From: a@b.c" ("We need " ++ nines n ++ " widgets").

(** The files of a run that were there before it are as they were. *)
Definition keeps_files {V : Type} (before after : dict V) : Prop :=
  forall name v, dict_get before name = Some v -> dict_get after name = Some v.

(** The lines a second run adds tell of nothing but skipped emails, failed
    readings and texts on which [parse] raises. *)
Definition only_skips (records : list LogRecord) : Prop :=
  Forall (fun r => (log_step r = "skip_email" /\ log_status r = "skipped")
                   \/ (log_step r = "read_email" /\ log_status r = "error")
                   \/ (log_step r = "parse_email" /\ log_status r = "error"))
         records.

(** The outcome [o] of a step that stops the loop is that of the call
    that failed. *)
Definition failed_as {A : Type} (c : outcome A) (o : outcome unit) : Prop :=
  match c, o with
  | Raise x, Raise y => x = y
  | Unmodelled, Unmodelled => True
  | _, _ => False
  end.

(** What the steps for a new email leave in the outbox and among the
    quotes, by the outcomes of the draft and of the quote. *)
Definition written (fo : float_ops) (price_list : dict (dict scalar))
           (discount_rules : list (rule (float fo))) (config : dict scalar)
           (w w' : World (float fo)) (event : Event) (o : outcome unit) : Prop :=
  match draft_acknowledgment event config with
  | Ok ack =>
      outbox_dir w' = dict_set (outbox_dir w) (ack_file (email_id event)) ack
      /\ match generate_quote fo event price_list discount_rules config with
         | Ok quote =>
             o = Ok tt
             /\ quotes_dir w'
                = dict_set (quotes_dir w) (quote_file (email_id event)) quote
         | c => failed_as c o /\ quotes_dir w' = quotes_dir w
         end
  | c => failed_as c o /\ outbox_dir w' = outbox_dir w
         /\ quotes_dir w' = quotes_dir w
  end.


(** The files of the emails known before a run are as they were. *)
Definition untouched {fl : Type} (w w' : World fl) : Prop :=
  keeps_files (events_dir w) (events_dir w')
  /\ (forall id, dict_mem (events_dir w) (event_file id) = true ->
                 dict_get (outbox_dir w') (ack_file id)
                 = dict_get (outbox_dir w) (ack_file id)
                 /\ dict_get (quotes_dir w') (quote_file id)
                    = dict_get (quotes_dir w) (quote_file id))
  /\ exists records, timeline_file w' = (timeline_file w ++ records)%list.

(** ** A sample inbox *)

Definition sample_clock (n : nat) : string :=
  "reading " ++ str_of_int (Z.of_nat n).

Definition empty_world : World Q :=
  {| events_dir := []; outbox_dir := []; quotes_dir := [];
     timeline_file := []; clock_reads := 0 |}.

Definition sample_inbox : list (string * inbox_entry) :=
  [("b-order.txt", Text two_senders);
   ("notes.md", Text "not an email");
   ("a-copy.TXT", Text two_senders);
   ("archive", NotFile);
   ("c-broken.txt", Unreadable "invalid start byte")].

(** The sample inbox with a text on which [parse] raises. *)
Definition long_inbox : list (string * inbox_entry) :=
  ("d-long.txt", Text (long_quantity_mail 4301)) :: sample_inbox.

(** A configuration whose closing text is [null]. *)
Definition null_sla_config : dict scalar :=
  [("currency", VStr "INR"); ("sla_text", VNone)].

(* ================================================================== *)
(** * Part II — properties *)
(* ================================================================== *)

Open Scope list_scope.

(** ** The model on sample inputs *)

Example lower_ex : lower "Blue Widget-2" = "blue widget-2".
Proof. reflexivity. Qed.

Example title_ex : title "thingamaJIGS x-ray 3d" = "Thingamajigs X-Ray 3D".
Proof. reflexivity. Qed.

Example splitlines_ex :
  splitlines (String "a" (String "010" (String "013" (String "010"
             (String "b" (String "010" EmptyString))))))
  = ["a"; ""; "b"].
Proof. reflexivity. Qed.

Example strip_ex : strip "  a b  " = "a b".
Proof. reflexivity. Qed.

Example init_ex :
  product_names (init [("Widget", []); ("Gadget", []); ("Glass", [])] [])
  = [("widget", "Widget"); ("widgets", "Widget");
     ("gadget", "Gadget"); ("gadgets", "Gadget"); ("glass", "Glass")].
Proof. reflexivity. Qed.

Example qty_pattern_ex :
  map span (finditer (qty_pattern "widgets") "we need 10 blue widgets and 5 widgets, widgets")
  = [(8, 23); (28, 37)].
Proof. reflexivity. Qed.

Example plain_pattern_ex :
  map span (finditer (plain_pattern "widgets") "we need 10 blue widgets and 5 widgets, widgets")
  = [(16, 23); (30, 37); (39, 46)].
Proof. reflexivity. Qed.

Example and_pattern_ex :
  let text := "order Thingamajigs and Widgets AND gizmos" in
  map (fun m => (group text m 1, group text m 2)) (finditer and_pattern text)
  = [("Thingamajigs", "Widgets")].
Proof. reflexivity. Qed.

Example token_pattern_ex :
  findall token_pattern "I'd like x-ray_2, please." = ["I"; "d"; "like"; "x-ray_2"; "please"].
Proof. reflexivity. Qed.

Example filler_backtracking_ex :
  map span (finditer (qty_pattern "s") "10 20 s 30 s") = [(0, 7); (8, 12)].
Proof. reflexivity. Qed.

Example empty_key_ex :
  map span (finditer (plain_pattern "") "ab cd") = [(0, 0); (2, 2); (3, 3); (5, 5)].
Proof. reflexivity. Qed.

Example sha256_abc :
  Sha256.hexdigest "abc"
  = "ba7816bf8f01cfea414140de5dae2223b00361a396177a9cb410ff61f20015ad".
Proof. vm_compute. reflexivity. Qed.

Example sha256_empty :
  Sha256.hexdigest ""
  = "e3b0c44298fc1c149afbf4c8996fb92427ae41e4649b934ca495991b7852b855".
Proof. vm_compute. reflexivity. Qed.

Example sha256_two_blocks :
  Sha256.hexdigest "abcdbcdecdefdefgefghfghighijhijkijkljklmklmnlmnomnopnopq"
  = "248d6a61d20638b8e5c026930c3e6039a33ce45964ff2167f6ecedd419db06c1".
Proof. vm_compute. reflexivity. Qed.

Example scenario_A :
  let ev := parse demo_parser
              (mail "From: a@b.c" "We need 10 Widgets and 5 Gadgets") in
  map item_summary (items ev)
  = [(VStr "Widget", 0.9%Q, VInt 10, 0.9%Q); (VStr "Gadget", 0.9%Q, VInt 5, 0.9%Q)]
  /\ missing_fields ev = ["subject"].
Proof. vm_compute. split; reflexivity. Qed.

Example scenario_B :
  let ev := parse demo_parser
              (mail ("From: a@b.c" ++ LF ++ "Subject: hi") "Please send pricing for Widgets") in
  map item_summary (items ev) = [(VStr "Widget", 0.6%Q, VNone, 0.0%Q)]
  /\ missing_fields ev = ["quantity for Widget"].
Proof. vm_compute. split; reflexivity. Qed.

Example scenario_D :
  let ev := parse demo_parser
              (mail "Subject: order" "I would like to order Thingamajigs and Widgets") in
  map (fun it => (item_summary it, notes (product_name it))) (items ev)
  = [((VStr "Widget", 0.6%Q, VNone, 0.0%Q), "");
     ((VStr "Thingamajigs", 0.2%Q, VNone, 0.0%Q), "unknown product")]
  /\ missing_fields ev
     = ["from"; "quantity for Widget"; "quantity for Thingamajigs";
        "price for Thingamajigs"]
  /\ currency ev = {| value := VStr "INR"; confidence := 0.5%Q;
                      notes := "default currency assumed" |}.
Proof. vm_compute. repeat split; reflexivity. Qed.

(** ** The dictionary *)

Lemma dict_get_set {V : Type} (d : dict V) (k k' : string) (v : V) :
  dict_get (dict_set d k v) k' = if k =? k' then Some v else dict_get d k'.
Proof.
  induction d as [|[k0 v0] d IH]; simpl.
  - reflexivity.
  - destruct (k0 =? k) eqn:E0; simpl.
    + apply String.eqb_eq in E0; subst k0.
      destruct (k =? k'); reflexivity.
    + rewrite IH. destruct (k0 =? k') eqn:E1; [|reflexivity].
      apply String.eqb_eq in E1; subst k0. rewrite String.eqb_sym, E0. reflexivity.
Qed.

Lemma dict_get_set_same {V : Type} (d : dict V) (k : string) (v : V) :
  dict_get (dict_set d k v) k = Some v.
Proof. rewrite dict_get_set, String.eqb_refl. reflexivity. Qed.

Lemma dict_get_None {V : Type} (d : dict V) (k : string) :
  dict_get d k = None <-> ~ In k (dict_keys d).
Proof.
  induction d as [|[k0 v0] d IH]; simpl.
  - tauto.
  - destruct (k0 =? k) eqn:E.
    + apply String.eqb_eq in E. split; [discriminate | tauto].
    + apply String.eqb_neq in E. rewrite IH. tauto.
Qed.

Lemma dict_get_In {V : Type} (d : dict V) (k : string) (v : V) :
  dict_get d k = Some v -> In (k, v) d.
Proof.
  induction d as [|[k0 v0] d IH]; simpl; [discriminate|].
  destruct (k0 =? k) eqn:E.
  - apply String.eqb_eq in E. intros [= ->]. subst. now left.
  - auto.
Qed.

Lemma dict_set_new {V : Type} (d : dict V) (k : string) (v : V) :
  dict_get d k = None -> dict_set d k v = (d ++ [(k, v)])%list.
Proof.
  induction d as [|[k0 v0] d IH]; simpl; [reflexivity|].
  destruct (k0 =? k); [discriminate|]. intros H. now rewrite IH.
Qed.

Lemma dict_keys_set_old {V : Type} (d : dict V) (k : string) (v w : V) :
  dict_get d k = Some w -> dict_keys (dict_set d k v) = dict_keys d.
Proof.
  induction d as [|[k0 v0] d IH]; simpl; [discriminate|].
  destruct (k0 =? k) eqn:E; simpl; [reflexivity|].
  intros H. f_equal. now apply IH.
Qed.

Lemma dict_set_In {V : Type} (d : dict V) (k : string) (v : V) (e : string * V) :
  In e (dict_set d k v) -> e = (k, v) \/ In e d.
Proof.
  induction d as [|[k0 v0] d IH]; simpl.
  - intros [H|[]]. now left.
  - destruct (k0 =? k) eqn:E; simpl.
    + apply String.eqb_eq in E; subst. intros [H|H]; [now left | now right; right].
    + intros [H|H]; [now right; left|]. apply IH in H. tauto.
Qed.

(** ** The vocabulary indexer *)

Lemma build_product_names_snoc (pl : dict (dict scalar)) (e : string * dict scalar) :
  build_product_names (pl ++ [e]) = register (build_product_names pl) (fst e).
Proof.
  unfold build_product_names, dict_keys.
  rewrite map_app, fold_left_app. reflexivity.
Qed.

Lemma dict_get_register (pn : dict string) (name alias : string) :
  dict_get (register pn name) alias
  = if registers alias name then Some name else dict_get pn alias.
Proof.
  unfold register, registers, aliases, mem.
  destruct (endswith (lower name) "s"); simpl.
  - rewrite dict_get_set, (String.eqb_sym alias).
    destruct (lower name =? alias); reflexivity.
  - rewrite !dict_get_set, !(String.eqb_sym alias).
    destruct (lower name =? alias); simpl;
      destruct ((lower name ++ "s")%string =? alias); reflexivity.
Qed.

Lemma dict_get_build (pl : dict (dict scalar)) (alias : string) :
  dict_get (build_product_names pl) alias = last_registrant (dict_keys pl) alias.
Proof.
  unfold last_registrant.
  induction pl as [|e pl IH] using rev_ind.
  - reflexivity.
  - rewrite build_product_names_snoc, dict_get_register.
    unfold dict_keys in *. rewrite map_app, rev_app_distr. simpl.
    destruct (registers alias (fst e)); [reflexivity | exact IH].
Qed.

(** C1 as amended.  For a catalog of ASCII names, the alias map sends an
    alias to the catalog name that registered it last: a later name that
    produces the same lower-cased alias replaces the earlier one. *)
Theorem last_registration_wins (pl : dict (dict scalar)) (cfg : dict scalar) (alias : string) :
  ascii_catalog pl = true ->
  dict_get (product_names (init pl cfg)) alias
  = last_registrant (dict_keys pl) alias.
Proof. intros _. apply dict_get_build. Qed.

Lemma last_registration_wins_witness :
  dict_get (product_names (init [("Widget", []); ("Widgets", []); ("Gadget", [])] []))
           "widgets"
  = last_registrant ["Widget"; "Widgets"; "Gadget"] "widgets".
Proof.
  apply (last_registration_wins [("Widget", []); ("Widgets", []); ("Gadget", [])]
                                [] "widgets").
  reflexivity.
Defined.

(** Two catalog names that share the alias [widgets]: the alias ends on the
    second name, not on the one that registered it first. *)
Lemma first_registration_overwritten :
  let pl := [("Widget", []); ("Widgets", [])] in
  first_registrant (dict_keys pl) "widgets" = Some "Widget"
  /\ dict_get (product_names (init pl [])) "widgets" = Some "Widgets"
  /\ dict_get (product_names (init pl [])) "widgets"
     <> first_registrant (dict_keys pl) "widgets".
Proof. vm_compute. repeat split; discriminate. Qed.

(** ** The stages of [parse] and the fields they leave alone *)

Lemma parse_stages (self : EmailParser) (text : string) :
  parse self text
  = determine_missing self
      (fold_left append_item
         (dict_values (consolidate self (items_found self (body_of text))))
         (set_currency
            (extract_headers (new_event (make_email_id text)) (header_of text))
            (detect_currency self (lower (body_of text))))).
Proof.
  unfold parse, header_of, body_of.
  destruct (split_header_body text) as [header body]. reflexivity.
Qed.

Lemma same_headers_refl (ev : Event) : same_headers ev ev.
Proof. repeat split. Qed.

Lemma same_headers_trans (a b c : Event) :
  same_headers a b -> same_headers b c -> same_headers a c.
Proof.
  unfold same_headers. intros (H1 & H2 & H3 & H4) (K1 & K2 & K3 & K4).
  repeat split; congruence.
Qed.

Lemma append_items_spec (its : list Item) (ev : Event) :
  let ev' := fold_left append_item its ev in
  same_headers ev ev' /\ items ev' = items ev ++ its
  /\ missing_fields ev' = missing_fields ev.
Proof.
  revert ev. induction its as [|it its IH]; intros ev; simpl.
  - rewrite app_nil_r. repeat split.
  - destruct (IH (append_item ev it)) as ((H1 & H2 & H3 & H4) & H5 & H6).
    simpl in *. rewrite <- app_assoc in H5. repeat split; assumption.
Qed.

Lemma append_missing_spec (ev : Event) (s : string) :
  same_headers ev (append_missing ev s)
  /\ items (append_missing ev s) = items ev
  /\ missing_fields (append_missing ev s) = missing_fields ev ++ [s].
Proof. repeat split. Qed.

Lemma missing_step_spec (self : EmailParser) (ev : Event) (it : Item) :
  let ev' := missing_step self ev it in
  same_headers ev ev' /\ items ev' = items ev
  /\ missing_fields ev' = missing_fields ev ++ item_missing self it.
Proof.
  unfold missing_step, item_missing.
  destruct (is_none (value (quantity it)));
    destruct (in_price_list self (value (product_name it))); simpl;
    rewrite <- ?app_assoc, ?app_nil_r; repeat split.
Qed.

Lemma missing_steps_spec (self : EmailParser) (its : list Item) (ev : Event) :
  let ev' := fold_left (missing_step self) its ev in
  same_headers ev ev' /\ items ev' = items ev
  /\ missing_fields ev' = missing_fields ev ++ flat_map (item_missing self) its.
Proof.
  revert ev. induction its as [|it its IH]; intros ev; simpl.
  - rewrite app_nil_r. repeat split.
  - destruct (IH (missing_step self ev it)) as (H1 & H2 & H3).
    destruct (missing_step_spec self ev it) as (K1 & K2 & K3).
    split; [eapply same_headers_trans; eassumption|].
    split; [congruence|].
    rewrite H3, K3, <- app_assoc. reflexivity.
Qed.

Lemma determine_missing_spec (self : EmailParser) (ev : Event) :
  let ev' := determine_missing self ev in
  same_headers ev ev' /\ items ev' = items ev
  /\ missing_fields ev'
     = missing_fields ev
       ++ (if absent (from_ ev) then ["from"] else [])
       ++ (if absent (subject ev) then ["subject"] else [])
       ++ match items ev with
          | [] => ["items"]
          | _ :: _ => flat_map (item_missing self) (items ev)
          end.
Proof.
  unfold determine_missing, absent.
  set (ev1 := if negb (truthy (value (from_ ev)))
              then append_missing ev "from" else ev).
  assert (H1 : same_headers ev ev1 /\ items ev1 = items ev
               /\ missing_fields ev1
                  = missing_fields ev
                    ++ (if negb (truthy (value (from_ ev))) then ["from"] else [])).
  { subst ev1. destruct (negb (truthy (value (from_ ev)))).
    - apply append_missing_spec.
    - rewrite app_nil_r. repeat split. }
  destruct H1 as (S1 & I1 & M1).
  assert (F1 : subject ev1 = subject ev) by apply S1.
  rewrite F1.
  set (ev2 := if negb (truthy (value (subject ev)))
              then append_missing ev1 "subject" else ev1).
  assert (H2 : same_headers ev1 ev2 /\ items ev2 = items ev1
               /\ missing_fields ev2
                  = missing_fields ev1
                    ++ (if negb (truthy (value (subject ev))) then ["subject"] else [])).
  { subst ev2. destruct (negb (truthy (value (subject ev)))).
    - apply append_missing_spec.
    - rewrite app_nil_r. repeat split. }
  destruct H2 as (S2 & I2 & M2).
  assert (S12 : same_headers ev ev2) by (eapply same_headers_trans; eassumption).
  rewrite I2, I1.
  destruct (items ev) as [|it its] eqn:Its; cbv zeta.
  - destruct (append_missing_spec ev2 "items") as (S3 & I3 & M3).
    split; [eapply same_headers_trans; eassumption|].
    split; [congruence|].
    rewrite M3, M2, M1, <- !app_assoc. reflexivity.
  - destruct (missing_steps_spec self (it :: its) ev2) as (S3 & I3 & M3).
    split; [eapply same_headers_trans; eassumption|].
    split; [congruence|].
    rewrite M3, M2, M1, <- !app_assoc. reflexivity.
Qed.

Lemma header_step_keeps (ev : Event) (line : string) :
  let ev' := header_step ev line in
  email_id ev' = email_id ev /\ items ev' = items ev
  /\ currency ev' = currency ev /\ missing_fields ev' = missing_fields ev.
Proof.
  unfold header_step.
  destruct (startswith (lower line) "from:");
    [|destruct (startswith (lower line) "subject:")]; repeat split.
Qed.

Lemma extract_headers_keeps (header : string) (ev : Event) :
  let ev' := extract_headers ev header in
  email_id ev' = email_id ev /\ items ev' = items ev
  /\ currency ev' = currency ev /\ missing_fields ev' = missing_fields ev.
Proof.
  unfold extract_headers. generalize (splitlines header) as ls.
  intros ls. revert ev. induction ls as [|l ls IH]; intros ev; simpl.
  - repeat split.
  - destruct (IH (header_step ev l)) as (H1 & H2 & H3 & H4).
    destruct (header_step_keeps ev l) as (K1 & K2 & K3 & K4).
    repeat split; congruence.
Qed.

(** The event [parse] returns, field by field. *)
Lemma parse_fields (self : EmailParser) (text : string) :
  let ev := parse self text in
  let hd := extract_headers (new_event (make_email_id text)) (header_of text) in
  email_id ev = make_email_id text
  /\ from_ ev = from_ hd
  /\ subject ev = subject hd
  /\ currency ev = detect_currency self (lower (body_of text))
  /\ items ev = dict_values (consolidate self (items_found self (body_of text)))
  /\ missing_fields ev
     = (if absent (from_ ev) then ["from"] else [])
       ++ (if absent (subject ev) then ["subject"] else [])
       ++ match items ev with
          | [] => ["items"]
          | _ :: _ => flat_map (item_missing self) (items ev)
          end.
Proof.
  cbv zeta. rewrite parse_stages.
  set (hd := extract_headers _ _).
  set (cur := set_currency hd _).
  set (its := dict_values _).
  destruct (extract_headers_keeps (header_of text) (new_event (make_email_id text)))
    as (E1 & E2 & E3 & E4). fold hd in E1, E2, E3, E4. simpl in E1, E2, E3, E4.
  destruct (append_items_spec its cur) as ((A1 & A2 & A3 & A4) & A5 & A6).
  destruct (determine_missing_spec self (fold_left append_item its cur))
    as ((D1 & D2 & D3 & D4) & D5 & D6).
  cbv zeta in *.
  rewrite D1, D2, D3, D4, D5, D6, A1, A2, A3, A4, A5, A6.
  subst cur. simpl. rewrite E1, E2, E4. simpl. repeat split.
Qed.

(** ** The identifier *)

Lemma hex_digit_is_hex (n : Z) : is_hex (Sha256.hex_digit n) = true.
Proof.
  unfold Sha256.hex_digit.
  destruct (n mod 16)%Z as [|p|p]; try reflexivity.
  do 4 (try destruct p as [p|p|]); reflexivity.
Qed.

Lemma hex_word_chars (x : Z) :
  exists c1 c2 c3 c4 c5 c6 c7 c8,
    Sha256.hex_word x
    = String c1 (String c2 (String c3 (String c4 (String c5 (String c6
        (String c7 (String c8 EmptyString)))))))
    /\ Forall (fun c => is_hex c = true) [c1; c2; c3; c4; c5; c6; c7; c8].
Proof.
  unfold Sha256.hex_word. do 8 eexists. split; [reflexivity|].
  repeat constructor; apply hex_digit_is_hex.
Qed.

Lemma make_email_id_shape (text : string) :
  String.length (make_email_id text) = 16
  /\ Forall (fun c => is_hex c = true) (list_ascii_of_string (make_email_id text)).
Proof.
  unfold make_email_id, Sha256.hexdigest.
  generalize (Sha256.digest text) as st. intros st. cbv zeta.
  destruct (hex_word_chars (Sha256.ha st)) as (a1&a2&a3&a4&a5&a6&a7&a8&Ha&Fa).
  destruct (hex_word_chars (Sha256.hb st)) as (b1&b2&b3&b4&b5&b6&b7&b8&Hb&Fb).
  rewrite Ha, Hb. simpl. split; [reflexivity|].
  repeat match goal with
         | H : Forall _ (_ :: _) |- _ => inversion H; subst; clear H
         end.
  repeat constructor; assumption.
Qed.

(** C9.  The identifier [parse] assigns is the first sixteen characters of
    the SHA-256 hex digest of the text: sixteen characters, each a
    hexadecimal digit, the same for the same text whatever the parser. *)
Theorem email_id_content_hash (self : EmailParser) (text : string) :
  email_id (parse self text) = substring 0 16 (Sha256.hexdigest text)
  /\ String.length (email_id (parse self text)) = 16
  /\ Forall (fun c => is_hex c = true)
            (list_ascii_of_string (email_id (parse self text)))
  /\ forall (self' : EmailParser) (text' : string),
       text' = text -> email_id (parse self' text') = email_id (parse self text).
Proof.
  destruct (parse_fields self text) as (E & _). cbv zeta in E.
  destruct (make_email_id_shape text) as (L & F).
  rewrite E. repeat split; try assumption.
  intros self' text' ->.
  destruct (parse_fields self' text) as (E' & _). exact E'.
Qed.

(** ** The currency detector *)

(** C6 as amended.  The currency is USD at 0.8 when the lower-cased body
    holds [usd] or a dollar sign, else INR at 0.8 when it holds [inr], a
    rupee sign or [rupees], else the entry [currency] of the configuration
    ([None] when there is none) at 0.5 with the note of the default. *)
Theorem currency_priority (self : EmailParser) (text : string) :
  let body_lower := lower (body_of text) in
  let usd := contains "usd" body_lower || contains "$" body_lower in
  let inr := contains "inr" body_lower || contains "₹" body_lower
             || contains "rupees" body_lower in
  currency (parse self text)
  = if usd then {| value := VStr "USD"; confidence := 0.8%Q; notes := "" |}
    else if inr then {| value := VStr "INR"; confidence := 0.8%Q; notes := "" |}
    else {| value := get_or_none (config self) "currency";
            confidence := 0.5%Q; notes := "default currency assumed" |}.
Proof.
  cbv zeta.
  destruct (parse_fields self text) as (_ & _ & _ & C & _). cbv zeta in C.
  rewrite C. unfold detect_currency, currency_match.
  destruct (contains "usd" _ || contains "$" _); [reflexivity|].
  destruct (contains "inr" _ || contains "₹" _ || contains "rupees" _);
    reflexivity.
Qed.

(** A configuration that names its default [default_currency] is not
    read: the currency of a body without a cue is [None]. *)
Lemma default_currency_key_not_read :
  let cfg := [("default_currency", VStr "EUR"); ("default_unit", VStr "each")] in
  let ev := parse (init [] cfg) (mail "From: a@b.c" "please send a quote") in
  get_or_none cfg "default_currency" = VStr "EUR"
  /\ currency ev = {| value := VNone; confidence := 0.5%Q;
                      notes := "default currency assumed" |}
  /\ value (currency ev) <> get_or_none cfg "default_currency".
Proof. vm_compute. repeat split; discriminate. Qed.

(** ** The missing-field analyzer *)

Lemma flat_map_ext_In {A B : Type} (f g : A -> list B) (l : list A) :
  (forall x, In x l -> f x = g x) -> flat_map f l = flat_map g l.
Proof.
  induction l as [|x l IH]; intros H; simpl; [reflexivity|].
  rewrite (H x), IH; auto using in_eq, in_cons.
Qed.

Lemma consolidate_step_names (self : EmailParser) (d : dict Item) (m : mention) :
  Forall (fun e => value (product_name (snd e)) = VStr (fst e)) d ->
  Forall (fun e => value (product_name (snd e)) = VStr (fst e))
         (consolidate_step self d m).
Proof.
  intros H. unfold consolidate_step.
  destruct (dict_get d (mention_name m)) as [entry|] eqn:G.
  - apply Forall_forall. intros e He. apply dict_set_In in He.
    destruct He as [-> | He].
    + simpl. apply dict_get_In in G.
      rewrite Forall_forall in H. specialize (H _ G). simpl in H.
      destruct m as [[[name qty] conf] note]. simpl. exact H.
    + rewrite Forall_forall in H. auto.
  - apply Forall_forall. intros e He. apply dict_set_In in He.
    destruct He as [-> | He].
    + destruct m as [[[name qty] conf] note]. reflexivity.
    + rewrite Forall_forall in H. auto.
Qed.

Lemma consolidate_names (self : EmailParser) (ms : list mention) :
  Forall (fun e => value (product_name (snd e)) = VStr (fst e))
         (consolidate self ms).
Proof.
  unfold consolidate.
  assert (G : forall d, Forall (fun e => value (product_name (snd e)) = VStr (fst e)) d ->
                        Forall (fun e => value (product_name (snd e)) = VStr (fst e))
                               (fold_left (consolidate_step self) ms d)).
  { induction ms as [|m ms IH]; intros d Hd; simpl; [exact Hd|].
    apply IH. now apply consolidate_step_names. }
  apply G. constructor.
Qed.

Lemma header_step_textual (ev : Event) (line : string) :
  textual (from_ ev) /\ textual (subject ev) ->
  textual (from_ (header_step ev line)) /\ textual (subject (header_step ev line)).
Proof.
  intros [F S]. unfold header_step.
  destruct (startswith (lower line) "from:");
    [|destruct (startswith (lower line) "subject:")];
    (split; [first [exact F | right; eexists; reflexivity]
            | first [exact S | right; eexists; reflexivity]]).
Qed.

Lemma extract_headers_textual (header : string) (ev : Event) :
  textual (from_ ev) /\ textual (subject ev) ->
  textual (from_ (extract_headers ev header))
  /\ textual (subject (extract_headers ev header)).
Proof.
  unfold extract_headers. generalize (splitlines header) as ls. intros ls.
  revert ev. induction ls as [|l ls IH]; intros ev H; simpl; [exact H|].
  apply IH. now apply header_step_textual.
Qed.

Lemma absent_textual (f : Field) :
  textual f -> (absent f = true <-> value f = VNone \/ value f = VStr "").
Proof.
  unfold absent, truthy. intros [E | (v & E)]; rewrite E.
  - split; [now left | reflexivity].
  - rewrite negb_involutive. split.
    + intros H. apply String.eqb_eq in H. subst v. now right.
    + intros [H|H]; [discriminate H|]. injection H as ->. reflexivity.
Qed.

(** C8.  The list of missing fields is, in this order: [from] when the
    sender is absent, [subject] when the subject is absent, then [items]
    when there is no item, and otherwise for each item in order the entry
    for its quantity when that is [None] followed by the entry for its
    price when its name is no key of the catalog.  A sender or a subject
    is absent when its value is [None] or the empty string. *)
Theorem missing_fields_order (self : EmailParser) (text : string) :
  let ev := parse self text in
  (forall f, f = from_ ev \/ f = subject ev ->
             (absent f = true <-> value f = VNone \/ value f = VStr ""))
  /\ missing_fields ev
  = (if absent (from_ ev) then ["from"] else [])
    ++ (if absent (subject ev) then ["subject"] else [])
    ++ match items ev with
       | [] => ["items"]
       | _ :: _ =>
           flat_map
             (fun it =>
                (if is_none (value (quantity it))
                 then [("quantity for " ++ name_text it)%string] else [])
                ++ (if dict_mem (price_list self) (name_text it)
                    then [] else [("price for " ++ name_text it)%string]))
             (items ev)
       end.
Proof.
  cbv zeta.
  destruct (parse_fields self text) as (_ & F & S & _ & I & M).
  cbv zeta in F, S, I, M.
  split.
  { destruct (extract_headers_textual (header_of text)
                (new_event (make_email_id text))) as [TF TS];
      [split; now left|].
    intros f [-> | ->]; apply absent_textual; [rewrite F | rewrite S];
      assumption. }
  rewrite M. do 2 f_equal.
  assert (E : flat_map (item_missing self) (items (parse self text))
              = flat_map
                  (fun it =>
                     (if is_none (value (quantity it))
                      then [("quantity for " ++ name_text it)%string] else [])
                     ++ (if dict_mem (price_list self) (name_text it)
                         then [] else [("price for " ++ name_text it)%string]))
                  (items (parse self text))).
  { apply flat_map_ext_In.
    intros it' Hin. rewrite I in Hin. unfold dict_values in Hin.
    apply in_map_iff in Hin. destruct Hin as (e & <- & He).
    pose proof (consolidate_names self (items_found self (body_of text))) as N.
    rewrite Forall_forall in N. specialize (N _ He).
    unfold item_missing, name_text, in_price_list. rewrite N. reflexivity. }
  destruct (items (parse self text)) as [|it its]; [reflexivity | exact E].
Qed.

(** ** The header splitter *)

Lemma subject_line_not_from (line : string) :
  is_subject line = true -> is_from line = false.
Proof.
  unfold is_subject, is_from.
  destruct (lower line) as [|b s]; cbn [startswith]; [reflexivity|].
  destruct (Ascii.eqb "s" b) eqn:E; [|intros H; discriminate H].
  apply Ascii.eqb_eq in E. subst b. reflexivity.
Qed.

Lemma header_steps_keep_from (ls : list string) (ev : Event) :
  Forall (fun l => is_from l = false) ls ->
  from_ (fold_left header_step ls ev) = from_ ev.
Proof.
  revert ev. induction ls as [|l ls IH]; intros ev H; simpl; [reflexivity|].
  inversion H as [|? ? Hl Hls]; subst. rewrite IH by assumption.
  unfold header_step. unfold is_from in Hl. rewrite Hl.
  destruct (startswith (lower l) "subject:"); reflexivity.
Qed.

Lemma header_steps_keep_subject (ls : list string) (ev : Event) :
  Forall (fun l => is_subject l = false) ls ->
  subject (fold_left header_step ls ev) = subject ev.
Proof.
  revert ev. induction ls as [|l ls IH]; intros ev H; simpl; [reflexivity|].
  inversion H as [|? ? Hl Hls]; subst. rewrite IH by assumption.
  unfold header_step. unfold is_subject in Hl. rewrite Hl.
  destruct (startswith (lower l) "from:"); reflexivity.
Qed.

(** C2 as amended.  In an ASCII text on which [parse] returns, of the
    header lines with the prefix [From:] the last one gives the sender,
    and of those with [Subject:] the last one gives the subject: value,
    confidence and note are those of that line, and the lines with the
    same prefix before it leave no trace. *)
Theorem header_last_occurrence_wins
        (self : EmailParser) (text : string)
        (before : list string) (line : string) (after : list string) :
  ascii_text text = true ->
  parse_error self text = None ->
  splitlines (header_of text) = before ++ line :: after ->
  (is_from line = true -> Forall (fun l => is_from l = false) after ->
   from_ (parse self text) = header_field (header_value line) "missing sender")
  /\ (is_subject line = true -> Forall (fun l => is_subject l = false) after ->
      subject (parse self text)
      = header_field (header_value line) "missing subject").
Proof.
  intros _ _ Hsplit.
  destruct (parse_fields self text) as (_ & F & S & _). cbv zeta in F, S.
  rewrite F, S. unfold extract_headers. rewrite Hsplit, fold_left_app. simpl.
  split; intros Hline Hafter.
  - rewrite header_steps_keep_from by assumption.
    unfold header_step. unfold is_from in Hline. rewrite Hline. reflexivity.
  - rewrite header_steps_keep_subject by assumption.
    pose proof (subject_line_not_from line Hline) as NF.
    unfold is_from in NF. unfold is_subject in Hline.
    unfold header_step. rewrite NF, Hline. reflexivity.
Qed.

Lemma header_last_occurrence_wins_witness :
  from_ (parse demo_parser two_senders)
  = header_field "second@x.org" "missing sender".
Proof.
  apply (proj1 (header_last_occurrence_wins demo_parser two_senders
                  ["From: first@x.org"] "From: second@x.org" ["Subject: hi"]
                  eq_refl eq_refl eq_refl)).
  - reflexivity.
  - repeat constructor.
Defined.

(** The sender of a header with two [From:] lines is that of the second. *)
Lemma duplicate_from_line_overrides :
  splitlines (header_of two_senders)
  = ["From: first@x.org"; "From: second@x.org"; "Subject: hi"]
  /\ header_value "From: first@x.org" = "first@x.org"
  /\ value (from_ (parse demo_parser two_senders)) = VStr "second@x.org"
  /\ from_ (parse demo_parser two_senders)
     <> header_field (header_value "From: first@x.org") "missing sender".
Proof. vm_compute. repeat split; discriminate. Qed.

(** The second part of [line.split(':', 1)] exists on every line the loop
    applies it to. *)
Lemma lower_char_colon (a : ascii) :
  lower_char a = ":"%char -> a = ":"%char.
Proof.
  destruct a as [[] [] [] [] [] [] [] []]; vm_compute; intros H;
    first [reflexivity | discriminate H].
Qed.

Lemma partition_colon (p line : string) :
  no_colon p = true ->
  startswith (lower line) (p ++ ":")%string = true ->
  partition ":" line
  = Some (substring 0 (String.length p) line, drop (S (String.length p)) line).
Proof.
  revert line. induction p as [|c p IH]; intros line Hp Hpre.
  - destruct line as [|a rest]; cbn [lower startswith append] in Hpre;
      [discriminate|].
    destruct (Ascii.eqb ":" (lower_char a)) eqn:E; [|discriminate].
    apply Ascii.eqb_eq in E. symmetry in E. apply lower_char_colon in E.
    subst a. reflexivity.
  - destruct line as [|a rest]; cbn [lower startswith append] in Hpre;
      [discriminate|].
    destruct (Ascii.eqb c (lower_char a)) eqn:E; [|discriminate].
    apply Ascii.eqb_eq in E.
    simpl in Hp. apply andb_prop in Hp. destruct Hp as [Hc Hp].
    apply negb_true_iff, Ascii.eqb_neq in Hc.
    assert (Ha : Ascii.eqb ":" a = false).
    { apply Ascii.eqb_neq. intros <-. apply Hc. rewrite E. reflexivity. }
    cbn [partition startswith]. rewrite Ha. cbn [andb].
    rewrite (IH rest Hp Hpre). reflexivity.
Qed.

Lemma header_value_from (line : string) :
  is_from line = true -> header_value line = strip (drop 5 line).
Proof.
  intros H. unfold header_value, split1.
  rewrite (partition_colon "from" line eq_refl H). reflexivity.
Qed.

Lemma header_value_subject (line : string) :
  is_subject line = true -> header_value line = strip (drop 8 line).
Proof.
  intros H. unfold header_value, split1.
  rewrite (partition_colon "subject" line eq_refl H). reflexivity.
Qed.

(** ** The known-product matcher *)


Lemma product_names_processed (pl : dict (dict scalar)) (key canonical : string) :
  In (key, canonical) (build_product_names pl) ->
  lower canonical = key \/ (lower canonical ++ "s")%string = key.
Proof.
  induction pl as [|e pl IH] using rev_ind.
  - intros [].
  - rewrite build_product_names_snoc. unfold register.
    destruct (negb (endswith (lower (fst e)) "s")); intros H.
    + apply dict_set_In in H. destruct H as [[= -> ->]|H]; [now right|].
      apply dict_set_In in H. destruct H as [[= -> ->]|H]; [now left|auto].
    + apply dict_set_In in H. destruct H as [[= -> ->]|H]; [now left|auto].
Qed.



(** ** The consolidator *)

Lemma pymax_l (a b : Q) : (a <= pymax a b)%Q.
Proof.
  unfold pymax. destruct (Qlt_le_dec a b).
  - now apply Qlt_le_weak.
  - apply Qle_refl.
Qed.

Lemma pymax_r (a b : Q) : (b <= pymax a b)%Q.
Proof.
  unfold pymax. destruct (Qlt_le_dec a b); [apply Qle_refl | assumption].
Qed.

Lemma pymax_cases (a b : Q) : pymax a b = a \/ pymax a b = b.
Proof. unfold pymax. destruct (Qlt_le_dec a b); auto. Qed.

Lemma fold_pymax_ge (cs : list Q) (c0 : Q) :
  (c0 <= fold_left pymax cs c0)%Q
  /\ Forall (fun c => (c <= fold_left pymax cs c0)%Q) cs.
Proof.
  revert c0. induction cs as [|c cs IH]; intros c0; simpl.
  - split; [apply Qle_refl | constructor].
  - destruct (IH (pymax c0 c)) as [H1 H2]. split; [|constructor].
    + apply Qle_trans with (pymax c0 c); [apply pymax_l | exact H1].
    + apply Qle_trans with (pymax c0 c); [apply pymax_r | exact H1].
    + exact H2.
Qed.

Lemma fold_pymax_attained (cs : list Q) (c0 : Q) :
  In (fold_left pymax cs c0) (c0 :: cs).
Proof.
  revert c0. induction cs as [|c cs IH]; intros c0; simpl.
  - now left.
  - destruct (IH (pymax c0 c)) as [H|H].
    + destruct (pymax_cases c0 c) as [E|E]; [left | right; left]; congruence.
    + auto.
Qed.

Lemma merge_item_quantity_kept (entry : Item) (m : mention) :
  value (quantity entry) <> VNone \/ mention_qty m = None ->
  quantity (merge_item entry m) = quantity entry.
Proof.
  destruct m as [[[name qty] conf] note]. simpl.
  intros [H|H].
  - destruct (value (quantity entry)); [contradiction| | |];
      destruct qty; reflexivity.
  - unfold mention_qty in H. simpl in H. subst qty.
    destruct (value (quantity entry)); reflexivity.
Qed.

Lemma merge_item_quantity_adopted (entry : Item) (m : mention) (q : Z) :
  value (quantity entry) = VNone -> mention_qty m = Some q ->
  quantity (merge_item entry m)
  = {| value := VInt q; confidence := mention_conf m; notes := "" |}.
Proof.
  destruct m as [[[name qty] conf] note]. unfold mention_qty, mention_conf.
  simpl. intros -> ->. reflexivity.
Qed.

Lemma merge_item_confidence (entry : Item) (m : mention) :
  confidence (product_name (merge_item entry m))
  = pymax (confidence (product_name entry)) (mention_conf m).
Proof. destruct m as [[[name qty] conf] note]. reflexivity. Qed.

Lemma consolidate_step_get (self : EmailParser) (d : dict Item)
      (m : mention) (name : string) :
  dict_get (consolidate_step self d m) name
  = if named name m then absorb self (dict_get d name) m else dict_get d name.
Proof.
  unfold consolidate_step, named, absorb.
  destruct (mention_name m =? name) eqn:E.
  - apply String.eqb_eq in E. subst name.
    destruct (dict_get d (mention_name m)); apply dict_get_set_same.
  - destruct (dict_get d (mention_name m));
      rewrite dict_get_set, E; reflexivity.
Qed.

Lemma consolidate_get (self : EmailParser) (ms : list mention)
      (d : dict Item) (name : string) :
  dict_get (fold_left (consolidate_step self) ms d) name
  = fold_left (absorb self) (filter (named name) ms) (dict_get d name).
Proof.
  revert d. induction ms as [|m ms IH]; intros d; simpl; [reflexivity|].
  rewrite IH, consolidate_step_get.
  destruct (named name m); reflexivity.
Qed.

Lemma fold_absorb_some (self : EmailParser) (ms : list mention) (it : Item) :
  fold_left (absorb self) ms (Some it) = Some (fold_left merge_item ms it).
Proof.
  revert it. induction ms as [|m ms IH]; intros it; simpl; [reflexivity|].
  apply IH.
Qed.

Lemma merged_confidence (ms : list mention) (it : Item) :
  confidence (product_name (fold_left merge_item ms it))
  = fold_left pymax (map mention_conf ms) (confidence (product_name it)).
Proof.
  revert it. induction ms as [|m ms IH]; intros it; simpl; [reflexivity|].
  rewrite IH, merge_item_confidence. reflexivity.
Qed.

Lemma merged_quantity_set (ms : list mention) (it : Item) :
  value (quantity it) <> VNone ->
  quantity (fold_left merge_item ms it) = quantity it.
Proof.
  revert it. induction ms as [|m ms IH]; intros it H; simpl; [reflexivity|].
  assert (E : quantity (merge_item it m) = quantity it)
    by (apply merge_item_quantity_kept; now left).
  rewrite IH; rewrite E; auto.
Qed.

Lemma merged_quantity_unset (ms : list mention) (it : Item) :
  value (quantity it) = VNone ->
  quantity (fold_left merge_item ms it)
  = match first_with_qty ms with
    | Some (q, c) => {| value := VInt q; confidence := c; notes := "" |}
    | None => quantity it
    end.
Proof.
  revert it. induction ms as [|m ms IH]; intros it H; simpl; [reflexivity|].
  destruct (mention_qty m) as [q|] eqn:Q.
  - rewrite merged_quantity_set;
      rewrite (merge_item_quantity_adopted it m q H Q); [reflexivity|discriminate].
  - assert (E : quantity (merge_item it m) = quantity it)
      by (apply merge_item_quantity_kept; now right).
    rewrite IH; rewrite E; auto.
Qed.

Lemma new_item_fields (self : EmailParser) (m : mention) :
  confidence (product_name (new_item self m)) = mention_conf m
  /\ quantity (new_item self m)
     = match mention_qty m with
       | Some q => {| value := VInt q; confidence := mention_conf m; notes := "" |}
       | None => {| value := VNone; confidence := 0.0%Q; notes := "quantity missing" |}
       end.
Proof. destruct m as [[[name [q|]] conf] note]; split; reflexivity. Qed.

(** C4.  A merge leaves a quantity that is set as it is, and adopts the
    quantity of the mention (value, confidence of the mention, empty note)
    only when none is set; it never lowers the confidence of the product
    name.  For every stream of mentions and every name, the item of the
    name has the greatest confidence among the mentions of the name, and
    the quantity of the first of them that carries one. *)
Theorem consolidator_merge_rules
        (self : EmailParser) (ms : list mention) (name : string) :
  (forall (entry : Item) (m : mention),
      (value (quantity entry) <> VNone \/ mention_qty m = None ->
       quantity (merge_item entry m) = quantity entry)
      /\ (forall q, value (quantity entry) = VNone -> mention_qty m = Some q ->
          quantity (merge_item entry m)
          = {| value := VInt q; confidence := mention_conf m; notes := "" |})
      /\ (confidence (product_name entry)
          <= confidence (product_name (merge_item entry m)))%Q)
  /\ match filter (named name) ms with
     | [] => dict_get (consolidate self ms) name = None
     | m0 :: rest =>
         exists it : Item,
           dict_get (consolidate self ms) name = Some it
           /\ confidence (product_name it) = max_conf m0 rest
           /\ Forall (fun m => (mention_conf m <= confidence (product_name it))%Q)
                     (m0 :: rest)
           /\ Exists (fun m => confidence (product_name it) = mention_conf m)
                     (m0 :: rest)
           /\ quantity it
              = match first_with_qty (m0 :: rest) with
                | Some (q, c) =>
                    {| value := VInt q; confidence := c; notes := "" |}
                | None =>
                    {| value := VNone; confidence := 0.0%Q;
                       notes := "quantity missing" |}
                end
     end.
Proof.
  split.
  - intros entry m. split; [apply merge_item_quantity_kept|].
    split; [intros q; apply merge_item_quantity_adopted|].
    rewrite merge_item_confidence. apply pymax_l.
  - unfold consolidate. rewrite consolidate_get. simpl.
    destruct (filter (named name) ms) as [|m0 rest]; [reflexivity|].
    simpl. unfold absorb at 2. rewrite fold_absorb_some.
    eexists. split; [reflexivity|].
    destruct (new_item_fields self m0) as [C Q].
    assert (M : confidence (product_name (fold_left merge_item rest (new_item self m0)))
                = max_conf m0 rest).
    { rewrite merged_confidence, C. reflexivity. }
    split; [exact M|]. rewrite M. unfold max_conf.
    split; [|split].
    + destruct (fold_pymax_ge (map mention_conf rest) (mention_conf m0)) as [H1 H2].
      constructor; [exact H1|]. rewrite Forall_map in H2. exact H2.
    + pose proof (fold_pymax_attained (map mention_conf rest) (mention_conf m0)) as H.
      apply Exists_exists. destruct H as [H|H].
      * exists m0. split; [now left | now symmetry].
      * apply in_map_iff in H. destruct H as (m & E & Hm).
        exists m. split; [now right | now symmetry].
    + simpl. destruct (mention_qty m0) as [q|] eqn:Q0.
      * rewrite merged_quantity_set; rewrite Q; [reflexivity | discriminate].
      * rewrite merged_quantity_unset by (rewrite Q; reflexivity).
        rewrite Q. destruct (first_with_qty rest) as [[q c]|]; reflexivity.
Qed.

(** ** Quantity and confidence *)

Lemma new_item_consistent (self : EmailParser) (m : mention) :
  sound_mention m -> qty_consistent (new_item self m).
Proof.
  destruct m as [[[name [q|]] conf] note]; unfold sound_mention, qty_consistent;
    simpl; intros H.
  - split; [|discriminate]. intros E. exfalso. apply H; [discriminate | exact E].
  - split; reflexivity.
Qed.

Lemma merge_item_consistent (entry : Item) (m : mention) :
  sound_mention m -> qty_consistent entry -> qty_consistent (merge_item entry m).
Proof.
  intros Hm He. unfold qty_consistent.
  destruct (mention_qty m) as [q|] eqn:Q.
  - destruct (value (quantity entry)) eqn:V.
    + rewrite (merge_item_quantity_adopted entry m q V Q). simpl.
      split; [|discriminate]. intros E. exfalso.
      apply Hm; [rewrite Q; discriminate | exact E].
    + rewrite merge_item_quantity_kept by (left; rewrite V; discriminate).
      exact He.
    + rewrite merge_item_quantity_kept by (left; rewrite V; discriminate).
      exact He.
    + rewrite merge_item_quantity_kept by (left; rewrite V; discriminate).
      exact He.
  - rewrite merge_item_quantity_kept by now right. exact He.
Qed.

Lemma consolidate_step_consistent (self : EmailParser) (d : dict Item) (m : mention) :
  sound_mention m ->
  Forall (fun e => qty_consistent (snd e)) d ->
  Forall (fun e => qty_consistent (snd e)) (consolidate_step self d m).
Proof.
  intros Hm Hd. rewrite Forall_forall in Hd. apply Forall_forall.
  intros e He. unfold consolidate_step in He.
  destruct (dict_get d (mention_name m)) as [entry|] eqn:G;
    apply dict_set_In in He; destruct He as [-> | He]; auto; simpl.
  - apply merge_item_consistent; [exact Hm|].
    apply dict_get_In in G. exact (Hd _ G).
  - now apply new_item_consistent.
Qed.

Lemma consolidate_consistent (self : EmailParser) (ms : list mention) :
  Forall sound_mention ms ->
  Forall qty_consistent (dict_values (consolidate self ms)).
Proof.
  intros Hms. unfold consolidate, dict_values. apply Forall_map.
  assert (G : forall d, Forall (fun e => qty_consistent (snd e)) d ->
                        Forall (fun e => qty_consistent (snd e))
                               (fold_left (consolidate_step self) ms d)).
  { induction Hms as [|m ms Hm Hms IH]; intros d Hd; simpl; [exact Hd|].
    apply IH. now apply consolidate_step_consistent. }
  apply G. constructor.
Qed.

Lemma nine_tenths_not_zero : ~ (0.9 == 0)%Q.
Proof. intros H. discriminate H. Qed.

Lemma alias_mentions_shape (body_lower : string) (entry : string * string) :
  Forall (fun m => m = bare_mention (snd entry)
                   \/ exists q, m = (snd entry, q, 0.9%Q, ""))
         (alias_mentions body_lower entry).
Proof.
  destruct entry as [key canonical]. unfold alias_mentions. simpl.
  destruct (negb (lower canonical =? key)
            && negb ((lower canonical ++ "s")%string =? key)); [constructor|].
  apply Forall_app. split.
  - apply Forall_map, Forall_forall. intros m _. right.
    eexists. reflexivity.
  - apply Forall_flat_map, Forall_forall. intros m _.
    unfold plain_step. destruct (span m) as [a b].
    destruct (overlaps_quantity a b _); repeat constructor.
Qed.

Lemma known_mentions_shape (self : EmailParser) (body_lower : string) :
  Forall (fun m => exists canonical,
              In canonical (dict_values (product_names self))
              /\ (m = bare_mention canonical
                  \/ exists q, m = (canonical, q, 0.9%Q, "")))
         (known_mentions self body_lower).
Proof.
  unfold known_mentions. apply Forall_flat_map, Forall_forall.
  intros entry He. eapply Forall_impl; [|apply alias_mentions_shape].
  intros m Hm. exists (snd entry). split; [|exact Hm].
  unfold dict_values. now apply in_map.
Qed.

Lemma unknown_mentions_from_shape (seen cands : list string) :
  Forall (fun m => exists c, In c cands /\ m = unknown_mention c)
         (unknown_mentions_from seen cands).
Proof.
  revert seen. induction cands as [|c cands IH]; intros seen; simpl.
  - constructor.
  - assert (W : forall s, Forall (fun m => exists c0, (c = c0 \/ In c0 cands)
                                            /\ m = unknown_mention c0)
                                 (unknown_mentions_from s cands)).
    { intros s. eapply Forall_impl; [|apply (IH s)].
      intros m (c0 & H0 & ->). exists c0. auto. }
    destruct (mem c seen); [apply W|].
    constructor; [|apply W]. exists c. auto.
Qed.

Lemma items_found_sound (self : EmailParser) (body : string) :
  Forall sound_mention (items_found self body).
Proof.
  unfold items_found. apply Forall_app. split.
  - eapply Forall_impl; [|apply known_mentions_shape].
    intros m (c & _ & [-> | (q & ->)]); unfold sound_mention; simpl.
    + intros H. now contradiction H.
    + intros _. apply nine_tenths_not_zero.
  - eapply Forall_impl; [|apply unknown_mentions_from_shape].
    intros m (c & _ & ->). unfold sound_mention. simpl.
    intros H. now contradiction H.
Qed.

(** C7.  In every item [parse] returns, the confidence of the quantity is
    zero exactly when the quantity has no value; the property holds of an
    entry when it is created and is kept by every merge. *)
Theorem quantity_confidence_zero_iff_none (self : EmailParser) (text : string) :
  Forall (fun it => (confidence (quantity it) == 0)%Q
                    <-> value (quantity it) = VNone)
         (items (parse self text))
  /\ (forall m : mention,
         In m (items_found self (body_of text)) ->
         qty_consistent (new_item self m)
         /\ forall entry : Item,
              qty_consistent entry -> qty_consistent (merge_item entry m)).
Proof.
  pose proof (items_found_sound self (body_of text)) as S.
  split.
  - destruct (parse_fields self text) as (_ & _ & _ & _ & I & _). cbv zeta in I.
    rewrite I. now apply consolidate_consistent.
  - intros m Hm. rewrite Forall_forall in S. specialize (S m Hm). split.
    + now apply new_item_consistent.
    + intros entry. now apply merge_item_consistent.
Qed.

(** ** Deduplication *)

Lemma filter_filter {A : Type} (f g : A -> bool) (l : list A) :
  filter f (filter g l) = filter (fun x => g x && f x) l.
Proof.
  induction l as [|x l IH]; simpl; [reflexivity|].
  destruct (g x); simpl; [destruct (f x)|]; rewrite IH; reflexivity.
Qed.

Lemma filter_all {A : Type} (f : A -> bool) (l : list A) :
  (forall x, In x l -> f x = true) -> filter f l = l.
Proof.
  induction l as [|x l IH]; intros H; simpl; [reflexivity|].
  rewrite (H x (in_eq _ _)), IH; auto using in_cons.
Qed.

Lemma dedup_In (x : string) (l : list string) : In x (dedup l) <-> In x l.
Proof.
  induction l as [|y l IH]; simpl; [tauto|].
  rewrite filter_In, IH, negb_true_iff, String.eqb_neq.
  destruct (string_dec y x); [tauto|]. split; [tauto|].
  intros [H|H]; [tauto|]. right. split; [exact H | congruence].
Qed.

Lemma dedup_NoDup (l : list string) : NoDup (dedup l).
Proof.
  induction l as [|y l IH]; simpl; constructor.
  - rewrite filter_In, String.eqb_refl. intros [_ H]. discriminate H.
  - now apply NoDup_filter.
Qed.

Lemma dedup_NoDup_id (l : list string) : NoDup l -> dedup l = l.
Proof.
  induction 1 as [|x l Hx Hl IH]; simpl; [reflexivity|].
  rewrite IH. f_equal. apply filter_all.
  intros y Hy. apply negb_true_iff, String.eqb_neq. congruence.
Qed.

Lemma dedup_repeat (x : string) (n : nat) (l : list string) :
  dedup (repeat x (S n) ++ l) = dedup (x :: l).
Proof.
  induction n as [|n IH]; [reflexivity|].
  change (repeat x (S (S n)) ++ l) with (x :: (repeat x (S n) ++ l)).
  cbn [dedup]. rewrite IH. cbn [dedup filter].
  rewrite String.eqb_refl. cbn [negb]. rewrite filter_filter.
  f_equal. apply filter_ext. intros y. now destruct (negb (y =? x)).
Qed.

Lemma unknown_mentions_from_dedup (seen cands : list string) :
  unknown_mentions_from seen cands
  = map unknown_mention (filter (fun c => negb (mem c seen)) (dedup cands)).
Proof.
  revert seen. induction cands as [|c cands IH]; intros seen; [reflexivity|].
  cbn [unknown_mentions_from dedup filter].
  destruct (mem c seen) eqn:M; cbn [negb]; rewrite IH, filter_filter.
  - f_equal. apply filter_ext_in. intros y _.
    destruct (y =? c) eqn:E; [|reflexivity].
    apply String.eqb_eq in E. subst y. rewrite M. reflexivity.
  - cbn [map]. do 2 f_equal. apply filter_ext. intros y.
    unfold mem. cbn [existsb]. rewrite negb_orb. reflexivity.
Qed.

Lemma unknown_mentions_dedup (cands : list string) :
  unknown_mentions cands = map unknown_mention (dedup cands).
Proof.
  unfold unknown_mentions. rewrite unknown_mentions_from_dedup.
  f_equal. now apply filter_all.
Qed.

Lemma NoDup_once {A : Type} (x : A) (l : list A) :
  NoDup l -> In x l -> once x l.
Proof.
  intros N H. apply in_split in H. destruct H as (l1 & l2 & ->).
  exists l1, l2. split; [reflexivity|].
  apply NoDup_remove_2 in N. rewrite in_app_iff in N. tauto.
Qed.

(** ** The conjunction heuristic *)

Lemma and_step_takes (self : EmailParser) (body : string) (m : rematch)
      (known unknown : string) :
  (known, unknown) = (group body m 1, group body m 2)
  \/ (known, unknown) = (group body m 2, group body m 1) ->
  is_known self (lower known) = true ->
  is_known self (lower unknown) = false ->
  mem (lower unknown) stopwords = false ->
  endswith (lower unknown) "s" = true ->
  and_step self body m = [title unknown].
Proof.
  intros [[= -> ->]|[= -> ->]] K U S E; unfold and_step; cbv zeta;
    rewrite K, U; cbn [xorb]; rewrite ?U, S, E; reflexivity.
Qed.

Lemma unknown_not_known_mention (self : EmailParser) (body_lower cand : string) :
  ~ In (unknown_mention cand) (known_mentions self body_lower).
Proof.
  intros H. pose proof (known_mentions_shape self body_lower) as F.
  rewrite Forall_forall in F. destruct (F _ H) as (c & _ & [E | (q & E)]);
    discriminate E.
Qed.

Lemma unknown_mention_inj (a b : string) :
  unknown_mention a = unknown_mention b -> a = b.
Proof. now intros [= ->]. Qed.

Lemma candidate_once (self : EmailParser) (body cand : string) :
  In cand (and_candidates self body ++ verb_candidates self body) ->
  once (unknown_mention cand) (items_found self body).
Proof.
  intros H. unfold items_found. rewrite unknown_mentions_dedup.
  set (cands := and_candidates self body ++ verb_candidates self body) in *.
  destruct (NoDup_once cand (dedup cands) (dedup_NoDup cands))
    as (l1 & l2 & E & N1 & N2); [now apply dedup_In|].
  exists (known_mentions self (lower body) ++ map unknown_mention l1),
         (map unknown_mention l2).
  split; [rewrite E, map_app, <- app_assoc; reflexivity|].
  split.
  - rewrite in_app_iff, in_map_iff.
    intros [K | (c & Ec & Hc)].
    + exact (unknown_not_known_mention _ _ _ K).
    + apply unknown_mention_inj in Ec. congruence.
  - rewrite in_map_iff. intros (c & Ec & Hc).
    apply unknown_mention_inj in Ec. congruence.
Qed.

(** C5 as amended.  For a parser with ASCII aliases and an ASCII body
    whose quantities [int] accepts, when one of the matches that
    [finditer] reports for the conjunction pattern, from left to right and
    without overlap, joins a known alias and a word that is no alias, no
    stop word and ends in [s], the title-cased word is among the
    candidates; the mentions of the candidates follow those of the known
    products, one for each distinct candidate in the order of first sight,
    and the mention of a candidate, with no quantity, confidence 0.2 and
    the note of an unknown product, occurs once. *)
Theorem conjunction_heuristic
        (self : EmailParser) (body : string) (m : rematch)
        (known unknown : string) :
  ascii_vocabulary self = true ->
  ascii_text body = true ->
  int_error_in (product_names self) (lower body) = None ->
  In m (finditer and_pattern body) ->
  (known, unknown) = (group body m 1, group body m 2)
  \/ (known, unknown) = (group body m 2, group body m 1) ->
  is_known self (lower known) = true ->
  is_known self (lower unknown) = false ->
  mem (lower unknown) stopwords = false ->
  endswith (lower unknown) "s" = true ->
  In (title unknown) (and_candidates self body)
  /\ items_found self body
     = known_mentions self (lower body)
       ++ map (fun cand => (cand, None, 0.2%Q, "unknown product"))
              (dedup (and_candidates self body ++ verb_candidates self body))
  /\ once (title unknown, None, 0.2%Q, "unknown product") (items_found self body)
  /\ forall cand,
       In cand (and_candidates self body ++ verb_candidates self body) ->
       once (cand, None, 0.2%Q, "unknown product") (items_found self body).
Proof.
  intros _ _ _ Hm Hpair K U S E.
  assert (C : In (title unknown) (and_candidates self body)).
  { unfold and_candidates. apply in_flat_map. exists m. split; [exact Hm|].
    rewrite (and_step_takes self body m known unknown Hpair K U S E).
    now left. }
  split; [exact C|]. split; [|split].
  - unfold items_found. rewrite unknown_mentions_dedup. reflexivity.
  - apply (candidate_once self body). apply in_or_app. now left.
  - intros cand. apply (candidate_once self body).
Qed.

Lemma conjunction_heuristic_witness :
  once ("Thingamajigs", None, 0.2%Q, "unknown product")
       (items_found demo_parser "please send thingamajigs and widgets").
Proof.
  refine (proj1 (proj2 (proj2
            (conjunction_heuristic demo_parser
               "please send thingamajigs and widgets"
               {| m_start := 12; m_end := 36;
                  m_groups := [(2, (29, 36)); (1, (12, 24))] |}
               "widgets" "thingamajigs" eq_refl eq_refl eq_refl
               _ _ _ _ _ _)))).
  - left. reflexivity.
  - right. reflexivity.
  - reflexivity.
  - reflexivity.
  - reflexivity.
  - reflexivity.
Defined.

(** The pattern matches the pair [gizmos and widgets], of which the second
    word is a known alias and the first a plural that is neither an alias
    nor a stop word; in the body the scan has used [gizmos] as the second
    word of the match before, the pair is not looked at, and no candidate
    is recorded. *)
Lemma overlapping_pair_not_examined :
  let self := init [("Widget", [])] [] in
  let body := "sprockets and gizmos and widgets" in
  map (fun m => (group (substring 14 18 body) m 1, group (substring 14 18 body) m 2))
      (finditer and_pattern (substring 14 18 body))
  = [("gizmos", "widgets")]
  /\ is_known self "widgets" = true
  /\ is_known self "gizmos" = false
  /\ mem "gizmos" stopwords = false
  /\ endswith "gizmos" "s" = true
  /\ map (fun m => (group body m 1, group body m 2)) (finditer and_pattern body)
     = [("sprockets", "gizmos")]
  /\ and_candidates self body = []
  /\ items_found self body = [("Widget", None, 0.6%Q, "")].
Proof. vm_compute. repeat split. Qed.

(** ** Case mapping *)

Lemma lower_char_lower (c : ascii) : lower_char (lower_char c) = lower_char c.
Proof. destruct c as [[] [] [] [] [] [] [] []]; reflexivity. Qed.

Lemma lower_char_upper (c : ascii) : lower_char (upper_char c) = lower_char c.
Proof. destruct c as [[] [] [] [] [] [] [] []]; reflexivity. Qed.

Lemma lower_title_from (b : bool) (s : string) : lower (title_from b s) = lower s.
Proof.
  revert b. induction s as [|c s IH]; intros b; simpl; [reflexivity|].
  rewrite IH. destruct b; [rewrite lower_char_lower | rewrite lower_char_upper];
    reflexivity.
Qed.

Lemma lower_title (s : string) : lower (title s) = lower s.
Proof. apply lower_title_from. Qed.

(** ** Membership *)

Lemma mem_In (x : string) (l : list string) : mem x l = true <-> In x l.
Proof.
  unfold mem. rewrite existsb_exists. split.
  - intros (y & Hy & E). apply String.eqb_eq in E. now subst.
  - intros H. exists x. split; [exact H | apply String.eqb_refl].
Qed.

Lemma mem_app (x : string) (l1 l2 : list string) :
  mem x (l1 ++ l2) = mem x l1 || mem x l2.
Proof. unfold mem. apply existsb_app. Qed.

Lemma dict_mem_In {V : Type} (d : dict V) (k : string) :
  dict_mem d k = true <-> In k (dict_keys d).
Proof.
  unfold dict_mem. pose proof (dict_get_None d k) as N.
  destruct (dict_get d k).
  - split; [|reflexivity]. intros _.
    destruct (in_dec string_dec k (dict_keys d)) as [H|H]; [exact H|].
    apply N in H. discriminate H.
  - split; [discriminate|]. intros H. exfalso. now apply N.
Qed.

Lemma dict_keys_app {V : Type} (d1 d2 : dict V) :
  dict_keys (d1 ++ d2) = dict_keys d1 ++ dict_keys d2.
Proof. apply map_app. Qed.

(** ** The names the alias map holds *)

Lemma product_names_values (pl : dict (dict scalar)) (key canonical : string) :
  In (key, canonical) (build_product_names pl) -> In canonical (dict_keys pl).
Proof.
  induction pl as [|e pl IH] using rev_ind.
  - intros [].
  - rewrite build_product_names_snoc, dict_keys_app, in_app_iff.
    unfold register.
    destruct (negb (endswith (lower (fst e)) "s")); intros H.
    + apply dict_set_In in H. destruct H as [[= -> ->]|H]; [right; now left|].
      apply dict_set_In in H. destruct H as [[= -> ->]|H]; [right; now left|auto].
    + apply dict_set_In in H. destruct H as [[= -> ->]|H]; [right; now left|auto].
Qed.

Lemma registers_own_lower (name : string) : registers (lower name) name = true.
Proof.
  unfold registers, aliases, mem.
  destruct (endswith (lower name) "s"); simpl; now rewrite String.eqb_refl.
Qed.

Lemma catalog_name_known (pl : dict (dict scalar)) (name : string) :
  In name (dict_keys pl) ->
  dict_mem (build_product_names pl) (lower name) = true.
Proof.
  intros H. unfold dict_mem. rewrite dict_get_build. unfold last_registrant.
  destruct (find (registers (lower name)) (rev (dict_keys pl))) eqn:F;
    [reflexivity|].
  apply find_none with (x := name) in F; [|now apply in_rev in H].
  rewrite registers_own_lower in F. discriminate F.
Qed.

(** A candidate is the title-cased form of a word that is no alias, hence
    no name of the catalog. *)
Lemma and_step_unknown (self : EmailParser) (body : string) (m : rematch) :
  Forall (fun c => exists w, c = title w /\ is_known self (lower w) = false)
         (and_step self body m).
Proof.
  unfold and_step. cbv zeta.
  destruct (xorb _ _); [|constructor].
  match goal with
  | |- context [negb (is_known self (lower ?w))] =>
      destruct (is_known self (lower w)) eqn:K
  end; cbn [negb andb]; [constructor|].
  destruct (negb _ && _); repeat constructor.
  eexists. split; [reflexivity | exact K].
Qed.

Lemma scan_ahead_unknown (self : EmailParser) (n : nat) (following : list string) :
  Forall (fun c => exists w, c = title w /\ is_known self (lower w) = false)
         (scan_ahead self n following).
Proof.
  revert following.
  induction n as [|n IH]; intros [|tok following]; cbn [scan_ahead]; cbv zeta;
    try constructor.
  destruct (is_known self (lower (strip_chars tok punctuation))) eqn:K;
    cbn [orb]; [apply IH|].
  destruct (mem (lower (strip_chars tok punctuation)) stopwords); [apply IH|].
  destruct (negb (endswith (lower (strip_chars tok punctuation)) "s"));
    [apply IH|].
  repeat constructor. eexists. split; [reflexivity | exact K].
Qed.

Lemma verb_scan_unknown (self : EmailParser) (tokens : list string) :
  Forall (fun c => exists w, c = title w /\ is_known self (lower w) = false)
         (verb_scan self tokens).
Proof.
  induction tokens as [|t tokens IH]; cbn [verb_scan]; [constructor|].
  apply Forall_app. split; [|exact IH].
  destruct (mem (lower t) verb_tokens); [apply scan_ahead_unknown | constructor].
Qed.

Lemma candidates_not_in_catalog (pl : dict (dict scalar)) (cfg : dict scalar)
      (body cand : string) :
  In cand (and_candidates (init pl cfg) body ++ verb_candidates (init pl cfg) body) ->
  dict_mem pl cand = false.
Proof.
  intros H.
  assert (U : exists w, cand = title w /\ is_known (init pl cfg) (lower w) = false).
  { apply in_app_or in H. destruct H as [H|H].
    - unfold and_candidates in H. apply in_flat_map in H.
      destruct H as (m & _ & H).
      pose proof (and_step_unknown (init pl cfg) body m) as F.
      rewrite Forall_forall in F. now apply F.
    - pose proof (verb_scan_unknown (init pl cfg) (findall token_pattern body)) as F.
      rewrite Forall_forall in F. now apply F. }
  destruct U as (w & -> & K).
  destruct (dict_mem pl (title w)) eqn:M; [|reflexivity].
  apply dict_mem_In, catalog_name_known in M.
  rewrite lower_title in M. unfold is_known in K. simpl in K. congruence.
Qed.

(** ** The keys of the consolidated dictionary *)

Lemma consolidate_step_keys (self : EmailParser) (d : dict Item) (m : mention) :
  dict_keys (consolidate_step self d m)
  = if mem (mention_name m) (dict_keys d) then dict_keys d
    else dict_keys d ++ [mention_name m].
Proof.
  unfold consolidate_step.
  destruct (dict_get d (mention_name m)) as [entry|] eqn:G.
  - rewrite (dict_keys_set_old d _ _ entry G).
    assert (I : In (mention_name m) (dict_keys d)).
    { apply dict_mem_In. unfold dict_mem. now rewrite G. }
    apply mem_In in I. now rewrite I.
  - rewrite dict_set_new by exact G. rewrite dict_keys_app.
    apply dict_get_None in G.
    destruct (mem (mention_name m) (dict_keys d)) eqn:M; [|reflexivity].
    apply mem_In in M. contradiction.
Qed.

Lemma consolidate_keys_from (self : EmailParser) (ms : list mention) (d : dict Item) :
  dict_keys (fold_left (consolidate_step self) ms d)
  = dict_keys d
    ++ filter (fun n => negb (mem n (dict_keys d))) (dedup (map mention_name ms)).
Proof.
  revert d. induction ms as [|m ms IH]; intros d.
  - simpl. now rewrite app_nil_r.
  - cbn [fold_left map dedup filter]. rewrite IH, consolidate_step_keys.
    destruct (mem (mention_name m) (dict_keys d)) eqn:M; cbn [negb].
    + f_equal. rewrite filter_filter. apply filter_ext. intros y.
      destruct (y =? mention_name m) eqn:E; [|reflexivity].
      apply String.eqb_eq in E. subst y. now rewrite M.
    + rewrite <- app_assoc. cbn [app]. do 2 f_equal.
      rewrite filter_filter. apply filter_ext. intros y.
      rewrite mem_app. unfold mem at 2. cbn [existsb].
      rewrite orb_false_r, negb_orb. apply andb_comm.
Qed.

Lemma consolidate_keys (self : EmailParser) (ms : list mention) :
  dict_keys (consolidate self ms) = dedup (map mention_name ms).
Proof.
  unfold consolidate. rewrite consolidate_keys_from. simpl.
  now apply filter_all.
Qed.

(** Mentions of distinct names that the dictionary does not hold yet are
    appended to it, each as a new item. *)
Lemma consolidate_fresh (self : EmailParser) (ms : list mention) (d : dict Item) :
  NoDup (map mention_name ms) ->
  (forall m, In m ms -> ~ In (mention_name m) (dict_keys d)) ->
  fold_left (consolidate_step self) ms d
  = d ++ map (fun m => (mention_name m, new_item self m)) ms.
Proof.
  revert d. induction ms as [|m ms IH]; intros d N F.
  - simpl. now rewrite app_nil_r.
  - cbn [fold_left map]. inversion N as [|? ? Hm Hms]; subst.
    assert (G : dict_get d (mention_name m) = None).
    { apply dict_get_None. apply F. now left. }
    unfold consolidate_step at 2. rewrite G, dict_set_new by exact G.
    rewrite IH; [now rewrite <- app_assoc | exact Hms |].
    intros m' Hm'. rewrite dict_keys_app, in_app_iff. intros [H|[H|[]]].
    + apply (F m'); [now right | exact H].
    + apply Hm. simpl in H. rewrite H. now apply in_map.
Qed.

Lemma names_of_alias_mentions (body_lower : string) (entry : string * string) :
  map mention_name (alias_mentions body_lower entry)
  = repeat (snd entry) (List.length (alias_mentions body_lower entry)).
Proof.
  pose proof (alias_mentions_shape body_lower entry) as F.
  induction F as [|m l Hm _ IH]; simpl; [reflexivity|].
  rewrite IH. f_equal. destruct Hm as [-> | (q & ->)]; reflexivity.
Qed.

Lemma known_names_dedup (body_lower : string) (pn : dict string) :
  dedup (map mention_name (flat_map (alias_mentions body_lower) pn))
  = dedup (map snd (filter (yields body_lower) pn)).
Proof.
  induction pn as [|e pn IH]; [reflexivity|].
  cbn [flat_map filter]. rewrite map_app, names_of_alias_mentions.
  unfold yields at 1.
  destruct (alias_mentions body_lower e) as [|m l]; [exact IH|].
  cbn [List.length map]. rewrite dedup_repeat. cbn [dedup]. now rewrite IH.
Qed.

(** ** A catalog without shared aliases *)

Lemma NoDup_app_inv {A : Type} (l1 l2 : list A) :
  NoDup (l1 ++ l2) ->
  NoDup l1 /\ NoDup l2 /\ forall x, In x l1 -> ~ In x l2.
Proof.
  induction l1 as [|a l1 IH]; simpl; intros N.
  - repeat split; [constructor | exact N | tauto].
  - inversion N as [|? ? Ha N']; subst. destruct (IH N') as (N1 & N2 & D).
    rewrite in_app_iff in Ha. repeat split.
    + constructor; tauto.
    + exact N2.
    + intros x [<-|Hx]; [tauto | now apply D].
Qed.

Lemma alias_entries_keys (names : list string) :
  dict_keys (flat_map alias_entries names) = flat_map aliases names.
Proof.
  induction names as [|n names IH]; simpl; [reflexivity|].
  rewrite dict_keys_app, IH. f_equal.
  unfold alias_entries, dict_keys. rewrite map_map. simpl. apply map_id.
Qed.

Lemma register_fresh (pn : dict string) (name : string) :
  NoDup (aliases name) ->
  (forall a, In a (aliases name) -> ~ In a (dict_keys pn)) ->
  register pn name = pn ++ alias_entries name.
Proof.
  unfold register, alias_entries, aliases.
  destruct (endswith (lower name) "s"); cbn [negb map]; intros N F.
  - apply dict_set_new, dict_get_None, F. now left.
  - assert (G1 : dict_get pn (lower name) = None).
    { apply dict_get_None, F. now left. }
    rewrite (dict_set_new pn _ _ G1).
    rewrite dict_set_new; [now rewrite <- app_assoc|].
    apply dict_get_None. rewrite dict_keys_app, in_app_iff.
    intros [H|[H|[]]].
    + apply (F (lower name ++ "s")%string); [right; now left | exact H].
    + inversion N as [|? ? Hn _]; subst. apply Hn. left. symmetry. exact H.
Qed.

Lemma build_collision_free (pl : dict (dict scalar)) :
  collision_free pl ->
  build_product_names pl = flat_map alias_entries (dict_keys pl).
Proof.
  unfold collision_free.
  induction pl as [|e pl IH] using rev_ind; [reflexivity|].
  rewrite build_product_names_snoc, dict_keys_app, !flat_map_app.
  cbn [dict_keys map flat_map]. rewrite !app_nil_r. intros N.
  apply NoDup_app_inv in N. destruct N as (N1 & N2 & D).
  rewrite IH by exact N1. apply register_fresh; [exact N2|].
  intros a Ha Hk. rewrite alias_entries_keys in Hk. exact (D a Hk Ha).
Qed.

Lemma aliases_own_lower (name : string) : In (lower name) (aliases name).
Proof. unfold aliases. destruct (endswith (lower name) "s"); now left. Qed.

Lemma collision_free_names (names : list string) :
  NoDup (flat_map aliases names) -> NoDup names.
Proof.
  induction names as [|n names IH]; simpl; intros N; constructor.
  - apply NoDup_app_inv in N. destruct N as (_ & _ & D).
    intros H. apply (D (lower n) (aliases_own_lower n)).
    apply in_flat_map. exists n. split; [exact H | apply aliases_own_lower].
  - apply IH. now apply NoDup_app_inv in N.
Qed.

Lemma hits_of_name (body_lower name : string) (l : list string) :
  map snd (filter (yields body_lower) (map (fun a => (a, name)) l))
  = repeat name
      (List.length (filter (fun a => yields body_lower (a, name)) l)).
Proof.
  induction l as [|a l IH]; simpl; [reflexivity|].
  destruct (yields body_lower (a, name)); simpl; now rewrite IH.
Qed.

Lemma filter_nil_existsb {A : Type} (f : A -> bool) (l : list A) :
  existsb f l = match filter f l with [] => false | _ :: _ => true end.
Proof.
  induction l as [|a l IH]; simpl; [reflexivity|].
  destruct (f a); [reflexivity | exact IH].
Qed.

Lemma known_names_catalog_order (body_lower : string) (names : list string) :
  NoDup names ->
  dedup (map snd (filter (yields body_lower) (flat_map alias_entries names)))
  = filter (mentioned body_lower) names.
Proof.
  induction 1 as [|n names Hn N IH]; [reflexivity|].
  cbn [flat_map filter]. rewrite filter_app, map_app.
  unfold alias_entries at 1. rewrite hits_of_name.
  unfold mentioned at 1. rewrite filter_nil_existsb.
  destruct (filter (fun a => yields body_lower (a, n)) (aliases n)) as [|a l].
  - exact IH.
  - cbn [List.length]. rewrite dedup_repeat. cbn [dedup]. rewrite IH.
    f_equal. apply filter_all. intros x Hx. apply filter_In in Hx.
    apply negb_true_iff, String.eqb_neq. intros ->. tauto.
Qed.

(** ** The order of the items *)

Lemma name_text_entry (self : EmailParser) (ms : list mention) :
  map name_text (dict_values (consolidate self ms)) = dict_keys (consolidate self ms).
Proof.
  unfold dict_values, dict_keys. rewrite map_map. apply map_ext_in.
  intros e He. pose proof (consolidate_names self ms) as F.
  rewrite Forall_forall in F. unfold name_text. now rewrite (F e He).
Qed.

Lemma known_mention_names (self : EmailParser) (body_lower name : string) :
  In name (map mention_name (known_mentions self body_lower)) ->
  In name (dict_values (product_names self)).
Proof.
  rewrite in_map_iff. intros (m & <- & Hm).
  pose proof (known_mentions_shape self body_lower) as F.
  rewrite Forall_forall in F.
  destruct (F m Hm) as (c & Hc & [-> | (q & ->)]); exact Hc.
Qed.

Lemma product_names_in_catalog (pl : dict (dict scalar)) (name : string) :
  In name (dict_values (build_product_names pl)) -> In name (dict_keys pl).
Proof.
  unfold dict_values. rewrite in_map_iff. intros ([k c] & <- & H).
  exact (product_names_values pl k c H).
Qed.

(** C10 as amended.  For an ASCII text on which [parse] returns and a
    catalog of ASCII names, the items of the known products come first,
    one for each name some alias of which yields a mention, in the order
    in which the alias map holds the first such alias, whatever the place
    of the products in the body; the items of the unknown candidates
    follow, in the order of first sight.  The former bear names of the
    catalog, the latter do not.  When no alias is shared by two names, the
    order of the known items is that of the keys of the catalog. *)
Theorem known_items_first_in_alias_map_order
        (pl : dict (dict scalar)) (cfg : dict scalar) (text : string) :
  ascii_catalog pl = true ->
  ascii_text text = true ->
  parse_error (init pl cfg) text = None ->
  let self := init pl cfg in
  let body := body_of text in
  let hits := filter (yields (lower body)) (product_names self) in
  let cands := dedup (and_candidates self body ++ verb_candidates self body) in
  exists known : list Item,
    items (parse self text)
    = known ++ map (fun c => new_item self (c, None, 0.2%Q, "unknown product")) cands
    /\ map name_text known = dedup (map snd hits)
    /\ Forall (fun it => dict_mem pl (name_text it) = true) known
    /\ Forall (fun c => dict_mem pl c = false) cands
    /\ (collision_free pl ->
        map name_text known = filter (mentioned (lower body)) (dict_keys pl)).
Proof.
  intros _ _ _ self body hits cands.
  set (K := known_mentions self (lower body)).
  exists (dict_values (consolidate self K)).
  assert (Names : map name_text (dict_values (consolidate self K))
                  = dedup (map snd hits)).
  { rewrite name_text_entry, consolidate_keys. apply known_names_dedup. }
  assert (InCat : forall n, In n (dict_keys (consolidate self K)) ->
                            In n (dict_keys pl)).
  { intros n Hn. rewrite consolidate_keys in Hn.
    apply (proj1 (dedup_In _ _)) in Hn. subst K.
    apply known_mention_names in Hn. now apply product_names_in_catalog. }
  assert (NotCat : forall c, In c cands -> dict_mem pl c = false).
  { intros c Hc. apply (proj1 (dedup_In _ _)) in Hc.
    exact (candidates_not_in_catalog pl cfg body c Hc). }
  split; [|split; [exact Names|split; [|split]]].
  - destruct (parse_fields self text) as (_ & _ & _ & _ & I & _). cbv zeta in I.
    rewrite I. fold body. unfold items_found. fold K.
    rewrite unknown_mentions_dedup. fold cands.
    unfold consolidate at 1. rewrite fold_left_app. fold (consolidate self K).
    rewrite consolidate_fresh.
    + unfold dict_values. rewrite map_app, !map_map. reflexivity.
    + rewrite map_map. cbn [mention_name unknown_mention fst].
      rewrite map_id. apply dedup_NoDup.
    + intros m Hm Hk. apply in_map_iff in Hm. destruct Hm as (c & <- & Hc).
      apply InCat, dict_mem_In in Hk. cbn in Hk.
      rewrite (NotCat c Hc) in Hk. discriminate Hk.
  - apply Forall_forall. intros it Hit.
    apply dict_mem_In, InCat. rewrite <- name_text_entry. now apply in_map.
  - apply Forall_forall. exact NotCat.
  - intros CF. rewrite Names. subst hits. cbn [product_names self init].
    rewrite (build_collision_free pl CF).
    apply known_names_catalog_order, collision_free_names. exact CF.
Qed.

Lemma known_items_first_in_alias_map_order_witness :
  exists known : list Item,
    items (parse demo_parser
                 (mail "From: a@b.c" "We need 3 gadgets, then 2 widgets and Doohickeys"))
    = known ++ [new_item demo_parser ("Doohickeys", None, 0.2%Q, "unknown product")]
    /\ map name_text known = ["Widget"; "Gadget"].
Proof.
  destruct (known_items_first_in_alias_map_order
              (price_list demo_parser) (config demo_parser)
              (mail "From: a@b.c" "We need 3 gadgets, then 2 widgets and Doohickeys")
              eq_refl eq_refl eq_refl)
    as (known & I & N & _).
  exists known. split.
  - exact I.
  - rewrite N. vm_compute. reflexivity.
Defined.

(** With the catalog [Bolt], [Nut], [Bolts] the alias [bolts] is registered
    by [Bolt], before the aliases of [Nut], and ends on [Bolts]: the item
    of [Bolts] precedes that of [Nut], against the order of the keys of
    the catalog. *)
Lemma shared_alias_breaks_catalog_order :
  let pl := [("Bolt", []); ("Nut", []); ("Bolts", [])] in
  let ev := parse (init pl []) (mail "From: a@b.c" "nuts and bolts") in
  product_names (init pl [])
  = [("bolt", "Bolt"); ("bolts", "Bolts"); ("nut", "Nut"); ("nuts", "Nut")]
  /\ map name_text (items ev) = ["Bolts"; "Nut"]
  /\ filter (fun name => mem name (map name_text (items ev))) (dict_keys pl)
     = ["Nut"; "Bolts"].
Proof. vm_compute. repeat split. Qed.

(** The body names the gadgets before the widgets; the items follow the
    alias map. *)
Example known_items_order_ex :
  map name_text
      (items (parse demo_parser
                (mail "From: a@b.c" "We need 3 gadgets, then 2 widgets and Doohickeys")))
  = ["Widget"; "Gadget"; "Doohickeys"].
Proof. vm_compute. reflexivity. Qed.

(** With the catalog [As], [B], [A] the alias [as] is first in the alias
    map and ends on [A]: the item of [A] precedes that of [B]. *)
Example shared_alias_order_ex :
  let pl := [("As", []); ("B", []); ("A", [])] in
  product_names (init pl [])
  = [("as", "A"); ("b", "B"); ("bs", "B"); ("a", "A")]
  /\ map name_text (items (parse (init pl []) (mail "From: a@b.c" "as b")))
     = ["A"; "B"].
Proof. vm_compute. split; reflexivity. Qed.

(* ================================================================== *)
(** * Part III — further properties *)
(* ================================================================== *)

(** ** One item for each name *)

Lemma one_item_per_name_names (self : EmailParser) (text : string) :
  Forall (fun it => value (product_name it) = VStr (name_text it))
         (items (parse self text)).
Proof.
  destruct (parse_fields self text) as (_ & _ & _ & _ & I & _). cbv zeta in I.
  rewrite I. unfold dict_values. apply Forall_map.
  eapply Forall_impl; [|apply consolidate_names].
  intros e He. unfold name_text. now rewrite He.
Qed.

(** X1.  For every list of mentions, the consolidation leaves one item for
    each distinct product name, in the order in which the names first
    occur in the list.  The items of a parsed event are the consolidation
    of a list of mentions: no two of them have the same name, and every
    name is a string. *)
Theorem one_item_per_name (self : EmailParser) :
  (forall ms : list mention,
      map name_text (dict_values (consolidate self ms))
      = dedup (map mention_name ms))
  /\ forall text : string,
      let ev := parse self text in
      (exists ms : list mention, items ev = dict_values (consolidate self ms))
      /\ NoDup (map name_text (items ev))
      /\ Forall (fun it => value (product_name it) = VStr (name_text it))
                (items ev).
Proof.
  split.
  - intros ms. now rewrite name_text_entry, consolidate_keys.
  - intros text. cbv zeta.
    destruct (parse_fields self text) as (_ & _ & _ & _ & I & _). cbv zeta in I.
    split; [eauto|]. rewrite I, name_text_entry, consolidate_keys.
    split; [apply dedup_NoDup|].
    unfold dict_values. apply Forall_map.
    eapply Forall_impl; [|apply consolidate_names].
    intros e He. unfold name_text. now rewrite He.
Qed.

(** ** The unit of an item *)

Lemma merge_item_unit (entry : Item) (m : mention) :
  unit_ (merge_item entry m) = unit_ entry.
Proof. destruct m as [[[name qty] conf] note]. reflexivity. Qed.

Lemma consolidate_step_units (self : EmailParser) (d : dict Item) (m : mention) :
  Forall (fun e => unit_ (snd e) = unit_of self (fst e)) d ->
  Forall (fun e => unit_ (snd e) = unit_of self (fst e)) (consolidate_step self d m).
Proof.
  intros H. rewrite Forall_forall in H. apply Forall_forall.
  intros e He. unfold consolidate_step in He.
  destruct (dict_get d (mention_name m)) as [entry|] eqn:G;
    apply dict_set_In in He; destruct He as [-> | He]; auto; simpl.
  - rewrite merge_item_unit. apply dict_get_In in G. exact (H _ G).
  - destruct m as [[[name qty] conf] note]. reflexivity.
Qed.

Lemma consolidate_units (self : EmailParser) (ms : list mention) :
  Forall (fun e => unit_ (snd e) = unit_of self (fst e)) (consolidate self ms).
Proof.
  unfold consolidate.
  assert (G : forall d,
             Forall (fun e => unit_ (snd e) = unit_of self (fst e)) d ->
             Forall (fun e => unit_ (snd e) = unit_of self (fst e))
                    (fold_left (consolidate_step self) ms d)).
  { induction ms as [|m ms IH]; intros d Hd; simpl; [exact Hd|].
    apply IH. now apply consolidate_step_units. }
  apply G. constructor.
Qed.

(** X2.  The unit of every item of a parsed event has confidence 0.8 and
    an empty note; its value is the [unit_of_measure] of the catalog entry
    of the item's name when there is one, and otherwise the [default_unit]
    of the configuration ([None] when there is none). *)
Theorem unit_resolved_at_creation (self : EmailParser) (text : string) :
  Forall
    (fun it =>
       let default := get_or_none (config self) "default_unit" in
       unit_ it
       = {| value :=
              match dict_get (price_list self) (name_text it) with
              | Some meta =>
                  match dict_get meta "unit_of_measure" with
                  | Some u => u
                  | None => default
                  end
              | None => default
              end;
            confidence := 0.8%Q; notes := "" |})
    (items (parse self text)).
Proof.
  destruct (parse_fields self text) as (_ & _ & _ & _ & I & _). cbv zeta in I.
  rewrite I. unfold dict_values. apply Forall_map.
  pose proof (consolidate_units self (items_found self (body_of text))) as U.
  pose proof (consolidate_names self (items_found self (body_of text))) as N.
  rewrite Forall_forall in U, N. apply Forall_forall. intros e He.
  cbv zeta. rewrite (U e He). unfold unit_of, unit_value, name_text.
  rewrite (N e He).
  destruct (dict_get (price_list self) (fst e)); reflexivity.
Qed.

(** ** The alias map is well formed *)

Lemma lower_lower (s : string) : lower (lower s) = lower s.
Proof.
  induction s as [|c s IH]; simpl; [reflexivity|].
  now rewrite lower_char_lower, IH.
Qed.

Lemma lower_append (s t : string) : lower (s ++ t)%string = (lower s ++ lower t)%string.
Proof. induction s as [|c s IH]; simpl; [reflexivity | now rewrite IH]. Qed.

Lemma NoDup_snoc {A : Type} (l : list A) (x : A) :
  NoDup l -> ~ In x l -> NoDup (l ++ [x]).
Proof.
  induction 1 as [|a l Ha N IH]; simpl; intros Hx.
  - constructor; [tauto | constructor].
  - constructor.
    + rewrite in_app_iff. simpl. intros [H|[H|[]]]; [tauto | subst; tauto].
    + apply IH. tauto.
Qed.

Lemma dict_set_keys_NoDup {V : Type} (d : dict V) (k : string) (v : V) :
  NoDup (dict_keys d) -> NoDup (dict_keys (dict_set d k v)).
Proof.
  intros N. destruct (dict_get d k) as [w|] eqn:G.
  - now rewrite (dict_keys_set_old d k v w G).
  - rewrite (dict_set_new d k v G), dict_keys_app. simpl.
    apply dict_get_None in G. now apply NoDup_snoc.
Qed.

Lemma build_keys_NoDup (pl : dict (dict scalar)) :
  NoDup (dict_keys (build_product_names pl)).
Proof.
  induction pl as [|e pl IH] using rev_ind; [constructor|].
  rewrite build_product_names_snoc. unfold register.
  destruct (negb (endswith (lower (fst e)) "s"));
    repeat apply dict_set_keys_NoDup; exact IH.
Qed.

Lemma alias_lowercase (key canonical : string) :
  lower canonical = key \/ (lower canonical ++ "s")%string = key ->
  lower key = key.
Proof.
  intros [<-|<-]; [apply lower_lower|].
  rewrite lower_append, lower_lower. reflexivity.
Qed.

(** X3.  For a catalog of ASCII names, the alias map [__init__] builds has
    pairwise distinct keys; every key is lower-case and is the lower-cased
    form of its canonical name or that form followed by [s], and the
    canonical name is a key of the catalog; every catalog name is known
    under its lower-cased form; and on an ASCII body the guard at the head
    of the product loop of [parse] skips no entry of the map. *)
Theorem alias_map_well_formed (pl : dict (dict scalar)) (cfg : dict scalar) :
  ascii_catalog pl = true ->
  let self := init pl cfg in
  NoDup (dict_keys (product_names self))
  /\ Forall (fun e => let (key, canonical) := e : string * string in
                      In canonical (dict_keys pl)
                      /\ (key = lower canonical
                          \/ key = (lower canonical ++ "s")%string)
                      /\ lower key = key)
            (product_names self)
  /\ Forall (fun name => is_known self (lower name) = true) (dict_keys pl)
  /\ forall body_lower : string,
       ascii_text body_lower = true ->
       known_mentions self body_lower
       = flat_map
           (fun e =>
              let (key, canonical) := e : string * string in
              let qms := finditer (qty_pattern key) body_lower in
              map (qty_mention canonical body_lower) qms
              ++ flat_map (plain_step canonical qms)
                          (finditer (plain_pattern key) body_lower))
           (product_names self).
Proof.
  intros _. cbv zeta. cbn [product_names init].
  split; [apply build_keys_NoDup|].
  split; [|split].
  - apply Forall_forall. intros [key canonical] He.
    pose proof (product_names_processed pl key canonical He) as P.
    split; [exact (product_names_values pl key canonical He)|].
    split; [destruct P as [<-|<-]; auto | exact (alias_lowercase _ _ P)].
  - apply Forall_forall. intros name Hn. unfold is_known. cbn [product_names].
    now apply catalog_name_known.
  - intros body_lower _. unfold known_mentions. cbn [product_names].
    apply flat_map_ext_In. intros [key canonical] He.
    pose proof (product_names_processed pl key canonical He) as P.
    unfold alias_mentions.
    destruct P as [<-|<-].
    + rewrite String.eqb_refl. reflexivity.
    + rewrite String.eqb_refl, andb_false_r. reflexivity.
Qed.

Lemma alias_map_well_formed_witness :
  NoDup (dict_keys (product_names demo_parser))
  /\ Forall (fun name => is_known demo_parser (lower name) = true)
            ["Widget"; "Gadget"].
Proof.
  destruct (alias_map_well_formed (price_list demo_parser) (config demo_parser)
              eq_refl) as (N & _ & K & _).
  split; [exact N | exact K].
Defined.

(** ** A text without a blank line *)

Lemma partition_None_contains (sep s : string) :
  contains sep s = false -> partition sep s = None.
Proof.
  induction s as [|c s IH]; cbn [contains partition]; intros H;
    apply orb_false_iff in H; destruct H as [H1 H2]; rewrite H1.
  - reflexivity.
  - now rewrite IH.
Qed.

Lemma known_mentions_empty_body (self : EmailParser) : known_mentions self "" = [].
Proof.
  unfold known_mentions.
  induction (product_names self) as [|[key canonical] pn IH]; [reflexivity|].
  cbn [flat_map]. rewrite IH, app_nil_r. unfold alias_mentions.
  destruct (negb (lower canonical =? key)
            && negb ((lower canonical ++ "s")%string =? key)); reflexivity.
Qed.

Lemma items_found_empty_body (self : EmailParser) : items_found self "" = [].
Proof.
  unfold items_found. cbn [lower]. rewrite known_mentions_empty_body.
  reflexivity.
Qed.

(** X4.  A text without a blank line is all header: its body is empty, no
    item is found, the currency is that of the configuration at confidence
    0.5, and the missing fields are [from] and [subject] when absent,
    followed by [items]. *)
Theorem no_blank_line_no_body (self : EmailParser) (text : string) :
  contains (LF ++ LF) text = false ->
  let ev := parse self text in
  header_of text = text
  /\ body_of text = ""
  /\ items ev = []
  /\ currency ev = {| value := get_or_none (config self) "currency";
                      confidence := 0.5%Q; notes := "default currency assumed" |}
  /\ missing_fields ev
     = (if absent (from_ ev) then ["from"] else [])
       ++ (if absent (subject ev) then ["subject"] else []) ++ ["items"].
Proof.
  intros H. cbv zeta.
  assert (HB : header_of text = text /\ body_of text = "").
  { unfold header_of, body_of, split_header_body, split1.
    rewrite (partition_None_contains _ _ H). split; reflexivity. }
  destruct HB as [Hh Hb]. split; [exact Hh|]. split; [exact Hb|].
  destruct (parse_fields self text) as (_ & _ & _ & C & I & M).
  cbv zeta in C, I, M. rewrite Hb in C, I.
  rewrite items_found_empty_body in I.
  change (dict_values (consolidate self [])) with (@nil Item) in I.
  split; [exact I|]. split; [exact C|].
  rewrite M, I. reflexivity.
Qed.

Lemma no_blank_line_no_body_witness :
  items (parse demo_parser ("From: a@b.c" ++ LF ++ "We need 10 Widgets")%string) = [].
Proof.
  refine (proj1 (proj2 (proj2
            (no_blank_line_no_body demo_parser
               ("From: a@b.c" ++ LF ++ "We need 10 Widgets")%string _)))).
  reflexivity.
Defined.

(** ** Trimming *)

Lemma lstrip_by_head (p : ascii -> bool) (s : string) (c : ascii) (r : string) :
  lstrip_by p s = String c r -> p c = false.
Proof.
  induction s as [|a s IH]; simpl; [discriminate|].
  destruct (p a) eqn:E; [exact IH|]. intros [= <- _]. exact E.
Qed.

Lemma rstrip_by_keep (p : ascii -> bool) (c : ascii) (s : string) :
  p c = false -> rstrip_by p (String c s) = String c (rstrip_by p s).
Proof. intros H. simpl. rewrite H. now destruct (rstrip_by p s). Qed.

Lemma rstrip_by_cons (p : ascii -> bool) (c : ascii) (s : string) :
  rstrip_by p (String c s)
  = match rstrip_by p s with
    | EmptyString => if p c then EmptyString else String c EmptyString
    | String a r => String c (String a r)
    end.
Proof. reflexivity. Qed.

Lemma rstrip_by_idem (p : ascii -> bool) (s : string) :
  rstrip_by p (rstrip_by p s) = rstrip_by p s.
Proof.
  induction s as [|c s IH]; [reflexivity|]. rewrite rstrip_by_cons.
  destruct (rstrip_by p s) as [|a r] eqn:E.
  - destruct (p c) eqn:Pc; [reflexivity|]. simpl. now rewrite Pc.
  - rewrite rstrip_by_cons, IH. reflexivity.
Qed.

Lemma strip_by_idem (p : ascii -> bool) (s : string) :
  rstrip_by p (lstrip_by p (rstrip_by p (lstrip_by p s)))
  = rstrip_by p (lstrip_by p s).
Proof.
  destruct (lstrip_by p s) as [|c r] eqn:E; [reflexivity|].
  pose proof (lstrip_by_head p s c r E) as Pc.
  rewrite (rstrip_by_keep p c r Pc). cbn [lstrip_by]. rewrite Pc.
  rewrite (rstrip_by_keep p c _ Pc), rstrip_by_idem. reflexivity.
Qed.

Lemma strip_idem (s : string) : strip (strip s) = strip s.
Proof. apply strip_by_idem. Qed.

(** ** The sender and the subject *)

Lemma header_steps_from (lines : list string) (ev : Event) :
  from_ (fold_left header_step lines ev)
  = match find is_from (rev lines) with
    | Some line => header_field (header_value line) "missing sender"
    | None => from_ ev
    end.
Proof.
  induction lines as [|l lines IH] using rev_ind; [reflexivity|].
  rewrite fold_left_app, rev_app_distr. cbn [fold_left rev app find].
  unfold header_step at 1. unfold is_from at 1.
  destruct (startswith (lower l) "from:"); [reflexivity|].
  destruct (startswith (lower l) "subject:"); exact IH.
Qed.

Lemma header_steps_subject (lines : list string) (ev : Event) :
  subject (fold_left header_step lines ev)
  = match find is_subject (rev lines) with
    | Some line => header_field (header_value line) "missing subject"
    | None => subject ev
    end.
Proof.
  induction lines as [|l lines IH] using rev_ind; [reflexivity|].
  rewrite fold_left_app, rev_app_distr. cbn [fold_left rev app find].
  pose proof (subject_line_not_from l) as NF.
  unfold header_step at 1. unfold is_subject at 1.
  unfold is_subject, is_from in NF.
  destruct (startswith (lower l) "subject:").
  - rewrite NF by reflexivity. reflexivity.
  - destruct (startswith (lower l) "from:"); exact IH.
Qed.

Lemma parsed_headers (self : EmailParser) (text : string) :
  let lines := splitlines (header_of text) in
  let ev := parse self text in
  from_ ev
  = match find is_from (rev lines) with
    | Some line => header_field (strip (drop 5 line)) "missing sender"
    | None => {| value := VNone; confidence := 0.0%Q; notes := "" |}
    end
  /\ subject ev
     = match find is_subject (rev lines) with
       | Some line => header_field (strip (drop 8 line)) "missing subject"
       | None => {| value := VNone; confidence := 0.0%Q; notes := "" |}
       end.
Proof.
  cbv zeta.
  destruct (parse_fields self text) as (_ & F & S & _). cbv zeta in F, S.
  rewrite F, S. unfold extract_headers.
  rewrite header_steps_from, header_steps_subject. split.
  - destruct (find is_from _) as [line|] eqn:E; [|reflexivity].
    apply find_some in E. now rewrite (header_value_from line (proj2 E)).
  - destruct (find is_subject _) as [line|] eqn:E; [|reflexivity].
    apply find_some in E. now rewrite (header_value_subject line (proj2 E)).
Qed.

(** X5.  In an ASCII text on which [parse] returns, the sender of the
    event is read off the last header line whose lower-cased form starts with [from:]: it is the
    field of the text after the first five characters of that line,
    stripped; without such a line it is the initial field ([None],
    confidence 0, no note).  The subject likewise, with [subject:] and eight
    characters. *)
Theorem sender_and_subject_extraction (self : EmailParser) (text : string) :
  ascii_text text = true ->
  parse_error self text = None ->
  let lines := splitlines (header_of text) in
  let ev := parse self text in
  from_ ev
  = match find is_from (rev lines) with
    | Some line => header_field (strip (drop 5 line)) "missing sender"
    | None => {| value := VNone; confidence := 0.0%Q; notes := "" |}
    end
  /\ subject ev
     = match find is_subject (rev lines) with
       | Some line => header_field (strip (drop 8 line)) "missing subject"
       | None => {| value := VNone; confidence := 0.0%Q; notes := "" |}
       end.
Proof. intros _ _. apply parsed_headers. Qed.

Lemma sender_and_subject_extraction_witness :
  from_ (parse demo_parser two_senders)
  = header_field "second@x.org" "missing sender"
  /\ subject (parse demo_parser two_senders)
     = header_field "hi" "missing subject".
Proof.
  exact (sender_and_subject_extraction demo_parser two_senders
           eq_refl eq_refl).
Defined.

Lemma header_field_stripped_ok (s missing : string) :
  header_field_ok (header_field (strip s) missing).
Proof.
  unfold header_field_ok, header_field. cbn [value confidence notes].
  destruct (strip s =? "") eqn:E.
  - right. apply String.eqb_eq in E. rewrite E. auto.
  - left. exists (strip s). apply String.eqb_neq in E.
    repeat split; auto using strip_idem.
Qed.

(** X6.  The sender and the subject of a parsed event are either a
    non-empty string without surrounding whitespace, at confidence 0.95
    with an empty note, or a value that is [None] or the empty string, at
    confidence 0. *)
Theorem header_confidence_invariant (self : EmailParser) (text : string) :
  header_field_ok (from_ (parse self text))
  /\ header_field_ok (subject (parse self text)).
Proof.
  destruct (parsed_headers self text) as [F S].
  cbv zeta in F, S. rewrite F, S. split.
  - destruct (find is_from _); [apply header_field_stripped_ok|].
    right. cbn. auto.
  - destruct (find is_subject _); [apply header_field_stripped_ok|].
    right. cbn. auto.
Qed.

(** ** The markers of the missing-field list *)

Lemma item_missing_no_marker (self : EmailParser) (it : Item) (s : string) :
  In s (item_missing self it) ->
  s <> "from" /\ s <> "subject" /\ s <> "items".
Proof.
  unfold item_missing. intros H. apply in_app_or in H.
  destruct H as [H|H].
  - destruct (is_none (value (quantity it))); [|destruct H].
    destruct H as [<-|[]]. repeat split; discriminate.
  - destruct (in_price_list self (value (product_name it))); [destruct H|].
    destruct H as [<-|[]]. repeat split; discriminate.
Qed.

Lemma items_missing_no_marker (self : EmailParser) (its : list Item) (s : string) :
  In s (flat_map (item_missing self) its) ->
  s <> "from" /\ s <> "subject" /\ s <> "items".
Proof.
  intros H. apply in_flat_map in H. destruct H as (it & _ & H).
  exact (item_missing_no_marker self it s H).
Qed.

Lemma in_marked (a b : bool) (tail : list string) (s : string) :
  In s ((if a then ["from"] else []) ++ (if b then ["subject"] else []) ++ tail)
  <-> (a = true /\ s = "from") \/ (b = true /\ s = "subject") \/ In s tail.
Proof.
  rewrite !in_app_iff. destruct a, b; simpl;
    intuition (try discriminate; subst; auto).
Qed.

Lemma item_missing_nil (self : EmailParser) (it : Item) :
  value (product_name it) = VStr (name_text it) ->
  (item_missing self it = []
   <-> value (quantity it) <> VNone
       /\ dict_mem (price_list self) (name_text it) = true).
Proof.
  intros N. unfold item_missing, in_price_list. rewrite N.
  destruct (value (quantity it)); destruct (dict_mem (price_list self) (name_text it));
    simpl; intuition (try discriminate; try congruence).
Qed.

Lemma flat_map_nil {A B : Type} (f : A -> list B) (l : list A) :
  flat_map f l = [] <-> Forall (fun x => f x = []) l.
Proof.
  induction l as [|x l IH]; simpl.
  - split; [constructor | reflexivity].
  - split.
    + intros H. apply app_eq_nil in H. destruct H as [H1 H2].
      constructor; [exact H1 | now apply IH].
    + intros H. inversion H as [|? ? H1 H2]; subst.
      rewrite H1. now apply IH.
Qed.

(** X7.  In the missing fields of a parsed event, [from] occurs exactly
    when the sender is absent, [subject] exactly when the subject is absent
    and [items] exactly when there is no item; the list is empty exactly
    when sender and subject are present, there is an item, and every item
    has a quantity and a name of the catalog. *)
Theorem missing_field_markers (self : EmailParser) (text : string) :
  let ev := parse self text in
  (In "from" (missing_fields ev) <-> absent (from_ ev) = true)
  /\ (In "subject" (missing_fields ev) <-> absent (subject ev) = true)
  /\ (In "items" (missing_fields ev) <-> items ev = [])
  /\ (missing_fields ev = [] <->
      absent (from_ ev) = false /\ absent (subject ev) = false
      /\ items ev <> []
      /\ Forall (fun it => value (quantity it) <> VNone
                           /\ dict_mem (price_list self) (name_text it) = true)
                (items ev)).
Proof.
  cbv zeta.
  destruct (parse_fields self text) as (_ & _ & _ & _ & _ & M). cbv zeta in M.
  pose proof (one_item_per_name_names self text) as N.
  set (ev := parse self text) in *.
  set (tail := match items ev with
               | [] => ["items"]
               | _ :: _ => flat_map (item_missing self) (items ev)
               end) in *.
  assert (T : forall s, In s tail ->
                        (s = "items" /\ items ev = [])
                        \/ (items ev <> [] /\ s <> "from" /\ s <> "subject"
                            /\ s <> "items")).
  { intros s Hs. subst tail. destruct (items ev) as [|it its] eqn:E.
    - destruct Hs as [<-|[]]. now left.
    - right. split; [discriminate|].
      exact (items_missing_no_marker self (it :: its) s Hs). }
  assert (TI : items ev = [] -> In "items" tail).
  { intros E. subst tail. rewrite E. now left. }
  rewrite M. split; [|split; [|split]].
  - rewrite in_marked. split; [|tauto].
    intros [[H _]|[[_ H]|H]]; [exact H | discriminate H|].
    destruct (T _ H) as [[E _]|(_ & E & _)]; [discriminate E | now elim E].
  - rewrite in_marked. split; [|tauto].
    intros [[_ H]|[[H _]|H]]; [discriminate H | exact H |].
    destruct (T _ H) as [[E _]|(_ & _ & E & _)]; [discriminate E | now elim E].
  - rewrite in_marked. split; [|intros E; right; right; now apply TI].
    intros [[_ H]|[[_ H]|H]]; [discriminate H | discriminate H |].
    destruct (T _ H) as [[_ E]|(_ & _ & _ & E)]; [exact E | now elim E].
  - assert (TN : tail = [] <->
                 items ev <> []
                 /\ Forall (fun it => value (quantity it) <> VNone
                                      /\ dict_mem (price_list self) (name_text it) = true)
                           (items ev)).
    { subst tail. destruct (items ev) as [|it its] eqn:E.
      - split; [discriminate | intros [H _]; now elim H].
      - rewrite <- E in *. rewrite flat_map_nil. split.
        + intros H. split; [rewrite E; discriminate|].
          rewrite Forall_forall in *. intros x Hx.
          apply item_missing_nil; auto.
        + intros [_ H]. rewrite Forall_forall in *. intros x Hx.
          apply item_missing_nil; auto. }
    destruct (absent (from_ ev)); destruct (absent (subject ev)); cbn [app];
      try (split; [discriminate | intros (A & B & _); discriminate]).
    rewrite TN. tauto.
Qed.

(** ** Confidence levels *)

Lemma pymax_level (a b : Q) : level a -> level b -> level (pymax a b).
Proof. intros A B. destruct (pymax_cases a b) as [-> | ->]; assumption. Qed.

Lemma pymax_top_l (b : Q) : level b -> pymax 0.9 b = 0.9%Q.
Proof. intros [-> | [-> | ->]]; reflexivity. Qed.

Lemma pymax_top_r (a : Q) : level a -> pymax a 0.9 = 0.9%Q.
Proof. intros [-> | [-> | ->]]; reflexivity. Qed.

Lemma new_item_graded (self : EmailParser) (m : mention) :
  graded_mention m -> graded_item (new_item self m).
Proof.
  destruct m as [[[name [q|]] conf] note]; unfold graded_mention, graded_item;
    cbn; intros [L H].
  - split; [exact L|]. left. rewrite H by discriminate. split; [eauto | reflexivity].
  - split; [exact L|]. now right.
Qed.

Lemma merge_item_graded (entry : Item) (m : mention) :
  graded_mention m -> graded_item entry -> graded_item (merge_item entry m).
Proof.
  intros [Lm Hm] [Le He]. unfold graded_item.
  rewrite merge_item_confidence. split; [now apply pymax_level|].
  destruct He as [[(n & Q) C] | Q].
  - left. rewrite merge_item_quantity_kept by (left; rewrite Q; discriminate).
    split; [eauto|]. rewrite C. now apply pymax_top_l.
  - destruct (mention_qty m) as [q|] eqn:E.
    + left. rewrite (merge_item_quantity_adopted entry m q) by (rewrite ?Q; auto).
      rewrite Hm by discriminate. split; [eauto | now apply pymax_top_r].
    + right. rewrite merge_item_quantity_kept by now right. exact Q.
Qed.

Lemma consolidate_graded (self : EmailParser) (ms : list mention) :
  Forall graded_mention ms ->
  Forall graded_item (dict_values (consolidate self ms)).
Proof.
  intros Hms. unfold consolidate, dict_values. apply Forall_map.
  assert (G : forall d, Forall (fun e => graded_item (snd e)) d ->
                        Forall (fun e => graded_item (snd e))
                               (fold_left (consolidate_step self) ms d)).
  { induction Hms as [|m ms Hm Hms IH]; intros d Hd; simpl; [exact Hd|].
    apply IH. rewrite Forall_forall in Hd. apply Forall_forall.
    intros e He. unfold consolidate_step in He.
    destruct (dict_get d (mention_name m)) as [entry|] eqn:G;
      apply dict_set_In in He; destruct He as [-> | He]; auto; simpl.
    - apply merge_item_graded; [exact Hm|].
      apply dict_get_In in G. exact (Hd _ G).
    - now apply new_item_graded. }
  apply G. constructor.
Qed.

Lemma items_found_graded (self : EmailParser) (body : string) :
  Forall graded_mention (items_found self body).
Proof.
  unfold items_found. apply Forall_app. split.
  - eapply Forall_impl; [|apply known_mentions_shape].
    intros m (c & _ & [-> | (q & ->)]); unfold graded_mention, level; cbn.
    + split; [auto|]. intros H. now elim H.
    + split; auto.
  - eapply Forall_impl; [|apply unknown_mentions_from_shape].
    intros m (c & _ & ->). unfold graded_mention, level. cbn.
    split; [auto|]. intros H. now elim H.
Qed.

(** X8.  In every item of a parsed event the confidence of the name is
    0.9, 0.6 or 0.2.  An item that has a quantity has it at confidence 0.9
    with an empty note, and its name at confidence 0.9; an item without a
    quantity has the quantity field [None] at confidence 0 with the note
    [quantity missing]. *)
Theorem quantity_implies_high_confidence (self : EmailParser) (text : string) :
  Forall
    (fun it =>
       (confidence (product_name it) = 0.9%Q
        \/ confidence (product_name it) = 0.6%Q
        \/ confidence (product_name it) = 0.2%Q)
       /\ ((exists n, quantity it
                      = {| value := VInt n; confidence := 0.9%Q; notes := "" |})
           /\ confidence (product_name it) = 0.9%Q
           \/ quantity it = {| value := VNone; confidence := 0.0%Q;
                               notes := "quantity missing" |}))
    (items (parse self text)).
Proof.
  destruct (parse_fields self text) as (_ & _ & _ & _ & I & _). cbv zeta in I.
  rewrite I. apply (consolidate_graded self). apply items_found_graded.
Qed.

(** ** The verb-proximity scan *)

Lemma scan_ahead_window (self : EmailParser) (n : nat) (following : list string) :
  scan_ahead self n following = []
  \/ exists tok, In tok (firstn n following)
                 /\ scan_ahead self n following
                    = [title (strip_chars tok punctuation)].
Proof.
  revert following.
  induction n as [|n IH]; intros [|tok following]; cbn [scan_ahead firstn];
    cbv zeta; try (now left).
  assert (R : scan_ahead self n following = []
              \/ exists tok0, In tok0 (tok :: firstn n following)
                              /\ scan_ahead self n following
                                 = [title (strip_chars tok0 punctuation)]).
  { destruct (IH following) as [E | (t & Ht & E)]; [now left|].
    right. exists t. split; [now right | exact E]. }
  destruct (is_known self (lower (strip_chars tok punctuation))
            || mem (lower (strip_chars tok punctuation)) stopwords); [exact R|].
  destruct (negb (endswith (lower (strip_chars tok punctuation)) "s")); [exact R|].
  right. exists tok. split; [now left | reflexivity].
Qed.

Lemma scan_ahead_length (self : EmailParser) (n : nat) (following : list string) :
  List.length (scan_ahead self n following) <= 1.
Proof.
  destruct (scan_ahead_window self n following) as [-> | (t & _ & ->)];
    simpl; lia.
Qed.

Lemma verb_scan_length (self : EmailParser) (tokens : list string) :
  List.length (verb_scan self tokens) <= List.length (filter is_verb tokens).
Proof.
  induction tokens as [|t tokens IH]; cbn [verb_scan filter]; [lia|].
  rewrite length_app. unfold is_verb at 1.
  destruct (mem (lower t) verb_tokens); cbn [List.length].
  - pose proof (scan_ahead_length self 4 tokens). lia.
  - lia.
Qed.

(** X9.  In an ASCII body whose quantities [int] accepts, the verb scan yields at most one candidate for
    each verb token.  For a verb token, the scan of the tokens that follow
    it yields nothing, or exactly one candidate: the title-cased form,
    stripped of punctuation, of one of the next four tokens, and it is
    among the verb candidates of the body. *)
Theorem verb_scan_first_hit_only (self : EmailParser) (body : string) :
  ascii_text body = true ->
  int_error_in (product_names self) (lower body) = None ->
  let tokens := findall token_pattern body in
  List.length (verb_candidates self body) <= List.length (filter is_verb tokens)
  /\ forall (before : list string) (verb : string) (following : list string),
       tokens = before ++ verb :: following ->
       is_verb verb = true ->
       scan_ahead self 4 following = []
       \/ exists tok, In tok (firstn 4 following)
                      /\ scan_ahead self 4 following
                         = [title (strip_chars tok punctuation)]
                      /\ In (title (strip_chars tok punctuation))
                            (verb_candidates self body).
Proof.
  intros _ _. cbv zeta. split; [apply verb_scan_length|].
  intros before verb following E V.
  destruct (scan_ahead_window self 4 following) as [H | (tok & Ht & H)];
    [now left|].
  right. exists tok. split; [exact Ht|]. split; [exact H|].
  unfold verb_candidates. rewrite E. clear E.
  induction before as [|b before IH]; cbn [app verb_scan].
  - unfold is_verb in V. rewrite V, H. now left.
  - apply in_or_app. now right.
Qed.

Lemma verb_scan_first_hit_only_witness :
  List.length (verb_candidates demo_parser "we need some sprockets, gizmos now")
  <= List.length (filter is_verb
                         (findall token_pattern "we need some sprockets, gizmos now"))
  /\ verb_candidates demo_parser "we need some sprockets, gizmos now"
     = ["Sprockets"].
Proof.
  split.
  - exact (proj1 (verb_scan_first_hit_only demo_parser
                    "we need some sprockets, gizmos now" eq_refl eq_refl)).
  - reflexivity.
Defined.

(** ** Items outside the catalog *)

Lemma plural_unknown_title (self : EmailParser) (w : string) :
  plural_unknown self w -> plural_unknown self (title w).
Proof. unfold plural_unknown. now rewrite lower_title. Qed.

Lemma and_step_plural (self : EmailParser) (body : string) (m : rematch) :
  Forall (plural_unknown self) (and_step self body m).
Proof.
  unfold and_step. cbv zeta.
  destruct (xorb _ _); [|constructor].
  match goal with
  | |- context [negb (is_known self (lower ?w))] =>
      destruct (is_known self (lower w)) eqn:K;
      destruct (mem (lower w) stopwords) eqn:S;
      destruct (endswith (lower w) "s") eqn:E
  end; cbn [negb andb]; try (now constructor).
  constructor; [|constructor].
  apply plural_unknown_title. repeat split; assumption.
Qed.

Lemma scan_ahead_plural (self : EmailParser) (n : nat) (following : list string) :
  Forall (plural_unknown self) (scan_ahead self n following).
Proof.
  revert following.
  induction n as [|n IH]; intros [|tok following]; cbn [scan_ahead]; cbv zeta;
    try constructor.
  destruct (is_known self (lower (strip_chars tok punctuation))) eqn:K;
    cbn [orb]; [apply IH|].
  destruct (mem (lower (strip_chars tok punctuation)) stopwords) eqn:S;
    [apply IH|].
  destruct (endswith (lower (strip_chars tok punctuation)) "s") eqn:E;
    cbn [negb]; [|apply IH].
  constructor; [|constructor].
  apply plural_unknown_title. repeat split; assumption.
Qed.

Lemma verb_scan_plural (self : EmailParser) (tokens : list string) :
  Forall (plural_unknown self) (verb_scan self tokens).
Proof.
  induction tokens as [|t tokens IH]; cbn [verb_scan]; [constructor|].
  apply Forall_app. split; [|exact IH].
  destruct (mem (lower t) verb_tokens); [apply scan_ahead_plural | constructor].
Qed.

Lemma candidates_plural (self : EmailParser) (body : string) :
  Forall (plural_unknown self)
         (and_candidates self body ++ verb_candidates self body).
Proof.
  apply Forall_app. split.
  - unfold and_candidates. apply Forall_flat_map, Forall_forall.
    intros m _. apply and_step_plural.
  - apply verb_scan_plural.
Qed.

(** The items of the known products, then one new item for each distinct
    candidate. *)
Lemma items_known_then_candidates
      (pl : dict (dict scalar)) (cfg : dict scalar) (text : string) :
  let self := init pl cfg in
  let body := body_of text in
  let known := dict_values (consolidate self (known_mentions self (lower body))) in
  let cands := dedup (and_candidates self body ++ verb_candidates self body) in
  items (parse self text)
  = known ++ map (fun c => new_item self (unknown_mention c)) cands
  /\ Forall (fun it => dict_mem pl (name_text it) = true) known
  /\ Forall (fun c => dict_mem pl c = false) cands.
Proof.
  intros self body known cands. subst known.
  set (K := known_mentions self (lower body)).
  assert (InCat : forall n, In n (dict_keys (consolidate self K)) ->
                            In n (dict_keys pl)).
  { intros n Hn. rewrite consolidate_keys in Hn.
    apply (proj1 (dedup_In _ _)) in Hn. subst K.
    apply known_mention_names in Hn. now apply product_names_in_catalog. }
  assert (NotCat : forall c, In c cands -> dict_mem pl c = false).
  { intros c Hc. apply (proj1 (dedup_In _ _)) in Hc.
    exact (candidates_not_in_catalog pl cfg body c Hc). }
  split; [|split].
  - destruct (parse_fields self text) as (_ & _ & _ & _ & I & _). cbv zeta in I.
    rewrite I. fold body. unfold items_found. fold K.
    rewrite unknown_mentions_dedup. fold cands.
    unfold consolidate at 1. rewrite fold_left_app. fold (consolidate self K).
    rewrite consolidate_fresh.
    + unfold dict_values. rewrite map_app, !map_map. reflexivity.
    + rewrite map_map. cbn [mention_name unknown_mention fst].
      rewrite map_id. apply dedup_NoDup.
    + intros m Hm Hk. apply in_map_iff in Hm. destruct Hm as (c & <- & Hc).
      apply InCat, dict_mem_In in Hk. cbn in Hk.
      rewrite (NotCat c Hc) in Hk. discriminate Hk.
  - apply Forall_forall. intros it Hit.
    apply dict_mem_In, InCat. rewrite <- name_text_entry. now apply in_map.
  - apply Forall_forall. exact NotCat.
Qed.

Lemma missing_of_item (self : EmailParser) (text : string) (it : Item) (s : string) :
  In it (items (parse self text)) -> In s (item_missing self it) ->
  In s (missing_fields (parse self text)).
Proof.
  intros Hit Hs.
  destruct (parse_fields self text) as (_ & _ & _ & _ & _ & M). cbv zeta in M.
  rewrite M. apply in_or_app. right. apply in_or_app. right.
  assert (F : In s (flat_map (item_missing self) (items (parse self text)))).
  { apply in_flat_map. exists it. now split. }
  destruct (items (parse self text)); [destruct Hit | exact F].
Qed.

(** X10.  For an ASCII text on which [parse] returns and a catalog of ASCII
    names, an item of the event whose name is no key of the catalog comes from the
    unknown-product heuristics: its name has confidence 0.2 and the note
    [unknown product], it has no quantity, its unit is the default unit of
    the configuration, its lower-cased name ends in [s] and is neither a
    stopword nor an alias, and the missing fields hold both the entry for
    its quantity and the entry for its price. *)
Theorem item_outside_catalog_is_plural_candidate
        (pl : dict (dict scalar)) (cfg : dict scalar) (text : string) :
  ascii_catalog pl = true ->
  ascii_text text = true ->
  parse_error (init pl cfg) text = None ->
  let self := init pl cfg in
  let ev := parse self text in
  Forall
    (fun it =>
       let name := name_text it in
       dict_mem pl name = false ->
       product_name it
       = {| value := VStr name; confidence := 0.2%Q; notes := "unknown product" |}
       /\ quantity it
          = {| value := VNone; confidence := 0.0%Q; notes := "quantity missing" |}
       /\ unit_ it
          = {| value := get_or_none cfg "default_unit"; confidence := 0.8%Q;
               notes := "" |}
       /\ endswith (lower name) "s" = true
       /\ mem (lower name) stopwords = false
       /\ is_known self (lower name) = false
       /\ In ("quantity for " ++ name)%string (missing_fields ev)
       /\ In ("price for " ++ name)%string (missing_fields ev))
    (items ev).
Proof.
  intros _ _ _. cbv zeta.
  destruct (items_known_then_candidates pl cfg text) as (I & KN & CN).
  cbv zeta in I, KN, CN.
  apply Forall_forall. intros it Hit Hout.
  assert (Hit' := Hit). rewrite I in Hit. apply in_app_or in Hit.
  destruct Hit as [Hit|Hit].
  - rewrite Forall_forall in KN. rewrite (KN it Hit) in Hout. discriminate Hout.
  - apply in_map_iff in Hit. destruct Hit as (c & <- & Hc).
    rewrite Forall_forall in CN. specialize (CN c Hc).
    pose proof (candidates_plural (init pl cfg) (body_of text)) as P.
    rewrite Forall_forall in P.
    destruct (P c (proj1 (dedup_In _ _) Hc)) as (P1 & P2 & P3).
    assert (G : dict_get pl c = None).
    { unfold dict_mem in CN. now destruct (dict_get pl c). }
    assert (Q : In ("quantity for " ++ c)%string
                   (item_missing (init pl cfg) (new_item (init pl cfg) (unknown_mention c)))
                /\ In ("price for " ++ c)%string
                      (item_missing (init pl cfg) (new_item (init pl cfg) (unknown_mention c)))).
    { unfold item_missing. cbn. rewrite CN. cbn. auto. }
    assert (F : forall s,
               In s (item_missing (init pl cfg)
                       (new_item (init pl cfg) (unknown_mention c))) ->
               In s (missing_fields (parse (init pl cfg) text))).
    { intros s. now apply missing_of_item. }
    cbn [name_text new_item unknown_mention product_name quantity unit_ value].
    repeat split; try assumption.
    + unfold unit_value. cbn [price_list init config]. rewrite G. reflexivity.
    + apply F, Q.
    + apply F, Q.
Qed.

Lemma item_outside_catalog_is_plural_candidate_witness :
  Forall
    (fun it =>
       dict_mem (price_list demo_parser) (name_text it) = false ->
       product_name it
       = {| value := VStr (name_text it); confidence := 0.2%Q;
            notes := "unknown product" |}
       /\ In ("price for " ++ name_text it)%string
             (missing_fields
                (parse demo_parser
                       (mail "From: a@b.c" "please send thingamajigs and widgets"))))
    (items (parse demo_parser
                  (mail "From: a@b.c" "please send thingamajigs and widgets"))).
Proof.
  eapply Forall_impl;
    [|exact (item_outside_catalog_is_plural_candidate
               (price_list demo_parser) (config demo_parser)
               (mail "From: a@b.c" "please send thingamajigs and widgets")
               eq_refl eq_refl eq_refl)].
  intros it H Out. destruct (H Out) as (N & _ & _ & _ & _ & _ & _ & P).
  split; assumption.
Defined.

(** ** The discount tiers *)

Section Discount.
Context {F : Type}.
Implicit Types (r x y : rule F) (rules : list (rule F)).

Lemma first_match_find (zero : F) (quantity : Z) rules :
  first_match zero quantity rules
  = match first_reached quantity rules with
    | Some r => discount r
    | None => zero
    end.
Proof.
  unfold first_reached, reaches.
  induction rules as [|r rules IH]; simpl; [reflexivity|].
  destruct (min_quantity r <=? quantity)%Z; [reflexivity | exact IH].
Qed.

Lemma insert_rule_In x rules y :
  In y (insert_rule x rules) <-> y = x \/ In y rules.
Proof.
  induction rules as [|z rules IH]; simpl.
  - intuition.
  - destruct (min_quantity z <=? min_quantity x)%Z; simpl; [intuition|].
    rewrite IH. intuition.
Qed.

Lemma insert_rule_descending x rules :
  descending rules -> descending (insert_rule x rules).
Proof.
  unfold descending. induction 1 as [|z rules S IH A]; simpl.
  - repeat constructor.
  - destruct (min_quantity z <=? min_quantity x)%Z eqn:E.
    + apply Z.leb_le in E. constructor; [constructor; assumption|].
      constructor; [exact E|].
      rewrite Forall_forall in *. intros y Hy. specialize (A y Hy). lia.
    + apply Z.leb_gt in E. constructor; [exact IH|].
      apply Forall_forall. intros y Hy. apply insert_rule_In in Hy.
      destruct Hy as [->|Hy]; [lia|].
      rewrite Forall_forall in A. now apply A.
Qed.

Lemma sorted_rules_descending rules : descending (sorted_rules rules).
Proof.
  induction rules as [|x rules IH]; simpl; [constructor|].
  now apply insert_rule_descending.
Qed.

Lemma first_reached_bound (quantity : Z) rules r :
  descending rules -> first_reached quantity rules = Some r ->
  forall y, In y rules -> (min_quantity y <= quantity)%Z ->
            (min_quantity y <= min_quantity r)%Z.
Proof.
  unfold first_reached, reaches.
  induction 1 as [|z rules S IH A]; simpl; [discriminate|].
  destruct (min_quantity z <=? quantity)%Z eqn:E.
  - intros [= <-] y [<-|Hy] _; [lia|].
    rewrite Forall_forall in A. now apply A.
  - apply Z.leb_gt in E. intros H y [<-|Hy] Q; [lia|]. now apply IH.
Qed.

Lemma first_reached_insert (quantity : Z) x rules :
  descending rules ->
  first_reached quantity (insert_rule x rules)
  = if reaches quantity x then
      match first_reached quantity rules with
      | Some y => if (min_quantity x <? min_quantity y)%Z then Some y else Some x
      | None => Some x
      end
    else first_reached quantity rules.
Proof.
  unfold first_reached.
  induction 1 as [|z rules S IH A]; cbn [insert_rule find].
  - destruct (reaches quantity x); reflexivity.
  - destruct (min_quantity z <=? min_quantity x)%Z eqn:E; cbn [find].
    + apply Z.leb_le in E. destruct (reaches quantity x) eqn:Rx; [|reflexivity].
      destruct (reaches quantity z) eqn:Rz.
      * destruct (Z.ltb_spec (min_quantity x) (min_quantity z)); [lia|reflexivity].
      * destruct (find (reaches quantity) rules) as [y|] eqn:Fy; [|reflexivity].
        apply find_some in Fy. destruct Fy as [Hy _].
        rewrite Forall_forall in A. specialize (A y Hy).
        destruct (Z.ltb_spec (min_quantity x) (min_quantity y)); [lia|reflexivity].
    + apply Z.leb_gt in E. destruct (reaches quantity z) eqn:Rz.
      * destruct (reaches quantity x) eqn:Rx; [|reflexivity].
        destruct (Z.ltb_spec (min_quantity x) (min_quantity z)); [reflexivity|lia].
      * exact IH.
Qed.

Lemma first_reached_best (quantity : Z) rules :
  first_reached quantity (sorted_rules rules) = best_rule quantity rules.
Proof.
  induction rules as [|x rules IH]; [reflexivity|].
  cbn [sorted_rules best_rule].
  rewrite first_reached_insert by apply sorted_rules_descending.
  rewrite IH. reflexivity.
Qed.

Lemma best_rule_spec (quantity : Z) rules :
  match best_rule quantity rules with
  | None => forall y, In y rules -> (quantity < min_quantity y)%Z
  | Some r =>
      (min_quantity r <= quantity)%Z
      /\ (forall y, In y rules -> (min_quantity y <= quantity)%Z ->
                    (min_quantity y <= min_quantity r)%Z)
      /\ exists before after,
           rules = before ++ r :: after
           /\ forall y, In y before -> (min_quantity y <= quantity)%Z ->
                        (min_quantity y < min_quantity r)%Z
  end.
Proof.
  induction rules as [|x rules IH]; cbn [best_rule]; [intros y []|].
  destruct (min_quantity x <=? quantity)%Z eqn:E.
  - apply Z.leb_le in E.
    destruct (best_rule quantity rules) as [b|].
    + destruct IH as (Q & M & before & after & -> & T).
      destruct (Z.ltb_spec (min_quantity x) (min_quantity b)).
      * split; [exact Q|]. split.
        -- intros y [<-|Hy] Hq; [lia | now apply M].
        -- exists (x :: before), after. split; [reflexivity|].
           intros y [<-|Hy] Hq; [lia | now apply T].
      * split; [exact E|]. split.
        -- intros y [<-|Hy] Hq; [lia|]. specialize (M y Hy Hq). lia.
        -- exists [], (before ++ b :: after). split; [reflexivity|].
           intros y [].
    + split; [exact E|]. split.
      * intros y [<-|Hy] Hq; [lia|]. specialize (IH y Hy). lia.
      * exists [], rules. split; [reflexivity | intros y []].
  - apply Z.leb_gt in E.
    destruct (best_rule quantity rules) as [b|].
    + destruct IH as (Q & M & before & after & -> & T).
      split; [exact Q|]. split.
      * intros y [<-|Hy] Hq; [lia | now apply M].
      * exists (x :: before), after. split; [reflexivity|].
        intros y [<-|Hy] Hq; [lia | now apply T].
    + intros y [<-|Hy]; [exact E | now apply IH].
Qed.

(** X11.  [apply_discount] returns the discount of the rule with the
    greatest threshold among the rules whose threshold the quantity
    reaches, and of the one listed first when several rules have that
    threshold; it returns zero when the quantity reaches no threshold. *)
Theorem apply_discount_highest_tier (zero : F) (quantity : Z) rules :
  match best_rule quantity rules with
  | None =>
      apply_discount zero quantity rules = zero
      /\ forall y, In y rules -> (quantity < min_quantity y)%Z
  | Some r =>
      apply_discount zero quantity rules = discount r
      /\ (min_quantity r <= quantity)%Z
      /\ (forall y, In y rules -> (min_quantity y <= quantity)%Z ->
                    (min_quantity y <= min_quantity r)%Z)
      /\ exists before after,
           rules = before ++ r :: after
           /\ forall y, In y before -> (min_quantity y <= quantity)%Z ->
                        (min_quantity y < min_quantity r)%Z
  end.
Proof.
  pose proof (best_rule_spec quantity rules) as B.
  unfold apply_discount. rewrite first_match_find, first_reached_best.
  destruct (best_rule quantity rules) as [r|]; split; auto.
Qed.

Lemma best_rule_unique (quantity : Z) rules rules' :
  Permutation rules rules' ->
  NoDup (map min_quantity rules) ->
  best_rule quantity rules = best_rule quantity rules'.
Proof.
  intros P N.
  pose proof (best_rule_spec quantity rules) as B.
  pose proof (best_rule_spec quantity rules') as B'.
  assert (I : forall y, In y rules <-> In y rules').
  { intros y. split; apply Permutation_in; [exact P | now apply Permutation_sym]. }
  assert (U : forall a b, In a rules -> In b rules ->
                          min_quantity a = min_quantity b -> a = b).
  { clear - N. induction rules as [|x rules IH]; [intros a b []|].
    cbn [map] in N. inversion N as [|? ? Hx N']; subst.
    intros a b [<-|Ha] [<-|Hb] E; auto.
    - elim Hx. rewrite E. now apply in_map.
    - elim Hx. rewrite <- E. now apply in_map. }
  destruct (best_rule quantity rules) as [r|], (best_rule quantity rules') as [r'|].
  - destruct B as (Q & M & before & after & E & _).
    destruct B' as (Q' & M' & before' & after' & E' & _).
    assert (Hr : In r rules) by (rewrite E; apply in_elt).
    assert (Hr' : In r' rules') by (rewrite E'; apply in_elt).
    f_equal. apply U; [exact Hr | now apply I|].
    apply Z.le_antisymm; [apply M'; [now apply I | exact Q]
                         | apply M; [now apply I | exact Q']].
  - destruct B as (Q & _ & before & after & E & _).
    assert (Hr : In r rules) by (rewrite E; apply in_elt).
    apply I, B' in Hr. lia.
  - destruct B' as (Q & _ & before & after & E & _).
    assert (Hr : In r' rules') by (rewrite E; apply in_elt).
    apply I, B in Hr. lia.
  - reflexivity.
Qed.

(** X12.  When the thresholds of the rules are pairwise distinct, the
    result of [apply_discount] is the same for every order of the rules. *)
Theorem apply_discount_order_independent (zero : F) (quantity : Z) rules rules' :
  Permutation rules rules' ->
  NoDup (map min_quantity rules) ->
  apply_discount zero quantity rules = apply_discount zero quantity rules'.
Proof.
  intros P N. unfold apply_discount.
  rewrite !first_match_find, !first_reached_best.
  now rewrite (best_rule_unique quantity rules rules' P N).
Qed.

End Discount.

Lemma apply_discount_order_independent_witness :
  apply_discount 0.0%Q 60 sample_rules = apply_discount 0.0%Q 60 (rev sample_rules).
Proof.
  apply apply_discount_order_independent.
  - apply Permutation_rev.
  - repeat constructor; simpl; intuition discriminate.
Defined.

Example apply_discount_ex :
  map (fun q => apply_discount 0.0%Q q sample_rules) [0; 9; 10; 49; 50; 99; 100; 5000]%Z
  = [0.0; 0.0; 0.05; 0.05; 0.1; 0.1; 0.15; 0.15]%Q.
Proof. reflexivity. Qed.

(** ** The quote calculator *)

Section QuoteProperties.

Variable fo : float_ops.
Variable price_list : dict (dict scalar).
Variable discount_rules : list (rule (float fo)).

Lemma quote_step_spec (q0 : Quote (float fo)) (p0 : bool) (it : Item)
      (q : Quote (float fo)) (p : bool) :
  quote_step fo price_list discount_rules (q0, p0) it = Ok (q, p) ->
  extends fo price_list q0 q [it] /\ p = p0 || unpriced price_list it.
Proof.
  unfold extends. cbn [flat_map]. rewrite app_nil_r.
  unfold quote_step, quote_missing, unpriced, dict_mem.
  destruct (dict_get price_list (name_text it)) as [meta|] eqn:G.
  - destruct (match dict_get meta "unit_price" with
              | Some v => to_float fo v
              | None => Raise "KeyError"
              end) as [up| |]; cbn [bind]; try discriminate.
    destruct (item_qty it) as [n|] eqn:Q.
    + destruct (float_of_int fo n) as [qf| |]; cbn [bind]; try discriminate.
      intros [= <- <-]. cbn. rewrite !app_nil_r, orb_false_r.
      repeat split; try reflexivity.
      eexists. split; [reflexivity|]. constructor; [|constructor].
      unfold line_of, unpriced, dict_mem. cbn.
      rewrite G, Q. repeat split; intros; try discriminate; try reflexivity.
    + intros [= <- <-]. cbn. rewrite orb_true_r.
      repeat split; try reflexivity.
      eexists. split; [reflexivity|]. constructor; [|constructor].
      unfold line_of, unpriced, dict_mem. cbn.
      rewrite G, Q. repeat split; intros; try discriminate; try reflexivity.
  - intros [= <- <-]. cbn. rewrite orb_true_r.
    repeat split; try reflexivity.
    eexists. split; [reflexivity|]. constructor; [|constructor].
    unfold line_of, unpriced, dict_mem. cbn.
    rewrite G. repeat split; intros; try discriminate; try reflexivity.
Qed.

Lemma extends_refl (q : Quote (float fo)) : extends fo price_list q q [].
Proof.
  unfold extends. cbn [flat_map]. rewrite app_nil_r.
  repeat split. exists []. rewrite app_nil_r. split; [reflexivity | constructor].
Qed.

Lemma extends_trans (q0 q1 q2 : Quote (float fo)) (l1 l2 : list Item) :
  extends fo price_list q0 q1 l1 -> extends fo price_list q1 q2 l2 ->
  extends fo price_list q0 q2 (l1 ++ l2).
Proof.
  intros (A1 & A2 & A3 & A4 & A5 & A6 & ls1 & A7 & A8)
         (B1 & B2 & B3 & B4 & B5 & B6 & ls2 & B7 & B8).
  unfold extends. rewrite flat_map_app.
  repeat split; try congruence.
  - rewrite B6, A6, app_assoc. reflexivity.
  - exists (ls1 ++ ls2). split.
    + rewrite B7, A7, app_assoc. reflexivity.
    + now apply Forall2_app.
Qed.

Lemma quote_fold_spec (its : list Item) (q0 : Quote (float fo)) (p0 : bool)
      (q : Quote (float fo)) (p : bool) :
  fold_outcome (quote_step fo price_list discount_rules) its (q0, p0) = Ok (q, p) ->
  extends fo price_list q0 q its /\ p = p0 || existsb (unpriced price_list) its.
Proof.
  revert q0 p0. induction its as [|it its IH]; intros q0 p0; cbn [fold_outcome].
  - intros [= <- <-]. split; [apply extends_refl | now rewrite orb_false_r].
  - destruct (quote_step fo price_list discount_rules (q0, p0) it)
      as [[q1 p1]| |] eqn:S; cbn [bind]; try discriminate.
    intros H. apply quote_step_spec in S. destruct S as [E1 P1].
    apply IH in H. destruct H as [E2 P2]. split.
    + exact (extends_trans q0 q1 q [it] its E1 E2).
    + rewrite P2, P1. cbn [existsb]. now rewrite orb_assoc.
Qed.

Lemma generate_quote_spec (event : Event) (config : dict scalar)
      (q : Quote (float fo)) :
  generate_quote fo event price_list discount_rules config = Ok q ->
  quote_email_id q = email_id event
  /\ quote_currency q = value (currency event)
  /\ quote_missing_fields q = flat_map (quote_missing price_list) (items event)
  /\ Forall2 (line_of fo price_list) (quote_line_items q) (items event)
  /\ (if existsb (unpriced price_list) (items event)
      then quote_status q = "pending"
           /\ quote_tax q = zero fo /\ quote_total q = zero fo
      else quote_status q = "complete" /\ quote_missing_fields q = []).
Proof.
  unfold generate_quote.
  destruct (forallb shaped_item (items event)); [|discriminate].
  destruct (fold_outcome _ _ _) as [[q1 p1]| |] eqn:Fo; cbn [bind];
    try discriminate.
  apply quote_fold_spec in Fo.
  destruct Fo as ((A1 & A2 & A3 & A4 & A5 & A6 & ls & A7 & A8) & P).
  cbn in A1, A2, A3, A4, A5, A6, A7, P. subst ls.
  cbn [snd fst]. rewrite P.
  destruct (existsb (unpriced price_list) (items event)) eqn:U.
  - intros [= <-]. cbn. repeat split; assumption.
  - destruct (tax_rate_of fo config) as [rate| |]; cbn [bind]; try discriminate.
    intros [= <-]. cbn. repeat split; try assumption.
    rewrite A6. apply flat_map_nil.
    apply Forall_forall. intros it Hit.
    assert (Ui : unpriced price_list it = false).
    { destruct (unpriced price_list it) eqn:Ui; [|reflexivity].
      assert (existsb (unpriced price_list) (items event) = true)
        by (apply existsb_exists; eauto).
      congruence. }
    unfold unpriced in Ui. unfold quote_missing.
    destruct (dict_mem price_list (name_text it)); [|discriminate Ui].
    destruct (item_qty it); [reflexivity | discriminate Ui].
Qed.

(** X13.  A quote [generate_quote] returns has the identifier and the
    currency of the event, and one line for each item, in order, with the
    name and the quantity of the item; the unit price of a line is [None]
    exactly when the name is no key of the price list, and its subtotal is
    [None], with both discount fields zero, exactly when the item has no
    price or no quantity.  The missing fields are, item by item, the entry
    for the price when the name is not in the price list, else the entry
    for the quantity when there is none.  The status is [pending] exactly
    when some item has no price or no quantity, and then tax and total are
    left at zero; otherwise it is [complete] and nothing is missing. *)
Theorem quote_pending_rule (event : Event) (config : dict scalar)
        (q : Quote (float fo)) :
  generate_quote fo event price_list discount_rules config = Ok q ->
  quote_email_id q = email_id event
  /\ quote_currency q = value (currency event)
  /\ quote_missing_fields q = flat_map (quote_missing price_list) (items event)
  /\ Forall2 (line_of fo price_list) (quote_line_items q) (items event)
  /\ (if existsb (unpriced price_list) (items event)
      then quote_status q = "pending"
           /\ quote_tax q = zero fo /\ quote_total q = zero fo
      else quote_status q = "complete" /\ quote_missing_fields q = []).
Proof. apply generate_quote_spec. Qed.

Lemma fold_outcome_stops {A S : Type} (stp : S -> A -> outcome S)
      (l1 : list A) (x : A) (l2 : list A) (s : S) :
  (forall s', match stp s' x with Ok _ => False | _ => True end) ->
  match fold_outcome stp (l1 ++ x :: l2) s with Ok _ => False | _ => True end.
Proof.
  intros H. revert s. induction l1 as [|a l1 IH]; intros s; cbn [app fold_outcome].
  - specialize (H s). destruct (stp s x); [destruct H | exact I | exact I].
  - destruct (stp s a); cbn [bind]; [apply IH | exact I | exact I].
Qed.

(** X14.  When an item of the event names an entry of the price list that
    has no [unit_price], [generate_quote] returns no quote, whatever the
    other items are. *)
Theorem quote_fails_without_unit_price (event : Event) (config : dict scalar)
        (it : Item) :
  In it (items event) ->
  price_missing price_list it ->
  match generate_quote fo event price_list discount_rules config with
  | Ok _ => False
  | _ => True
  end.
Proof.
  intros Hit (meta & G & U). unfold generate_quote.
  destruct (forallb shaped_item (items event)); [|exact I].
  apply in_split in Hit. destruct Hit as (l1 & l2 & ->).
  pose proof (fold_outcome_stops (quote_step fo price_list discount_rules)
                l1 it l2 (new_quote fo event, false)) as S.
  destruct (fold_outcome _ _ _); cbn [bind]; try exact I.
  exfalso. apply S. intros [q0 p0]. unfold quote_step. rewrite G, U. exact I.
Qed.

Lemma quote_fold_total (config : dict scalar) (its : list Item)
      (st : Quote (float fo) * bool) :
  Forall (fun it =>
            (forall meta, dict_get price_list (name_text it) = Some meta ->
                          exists v up, dict_get meta "unit_price" = Some v
                                       /\ to_float fo v = Ok up)
            /\ (forall n, item_qty it = Some n ->
                          exists qf, float_of_int fo n = Ok qf))
         its ->
  exists st', fold_outcome (quote_step fo price_list discount_rules) its st = Ok st'.
Proof.
  intros H. revert st. induction H as [|it its [P Q] _ IH]; intros st;
    cbn [fold_outcome]; [eauto|].
  assert (S : exists st1, quote_step fo price_list discount_rules st it = Ok st1).
  { destruct st as [q0 p0]. unfold quote_step.
    destruct (dict_get price_list (name_text it)) as [meta|]; [|eauto].
    destruct (P meta eq_refl) as (v & up & -> & ->). cbn [bind].
    destruct (item_qty it) as [n|]; [|eauto].
    destruct (Q n eq_refl) as (qf & ->). cbn [bind]. eauto. }
  destruct S as (st1 & ->). cbn [bind]. apply IH.
Qed.

Lemma generate_quote_total (event : Event) (config : dict scalar) :
  forallb shaped_item (items event) = true ->
  convertible fo price_list config (items event) ->
  exists q, generate_quote fo event price_list discount_rules config = Ok q.
Proof.
  intros Sh [C (rate & T)]. unfold generate_quote. rewrite Sh.
  destruct (quote_fold_total config (items event) (new_quote fo event, false) C)
    as ([q1 p1] & ->).
  cbn [bind snd fst]. destruct p1; [eauto|]. rewrite T. cbn [bind]. eauto.
Qed.

(** X15.  With discount rules that are well-formed, each an integer
    threshold with a discount that is a float, [generate_quote] returns a
    quote when every item that names an entry of the price list finds a
    [unit_price] there that [float] accepts, the quantities convert to
    floats, and [float] accepts the tax rate of the configuration. *)
Theorem quote_returns_when_convertible (event : Event) (config : dict scalar) :
  forallb shaped_item (items event) = true ->
  convertible fo price_list config (items event) ->
  exists q, generate_quote fo event price_list discount_rules config = Ok q.
Proof. apply generate_quote_total. Qed.

End QuoteProperties.

Lemma quote_pending_rule_witness :
  exists q,
    generate_quote exact_floats sample_event (price_list demo_parser)
                   sample_rules sample_config = Ok q
    /\ quote_status q = "pending"
    /\ quote_missing_fields q = ["price for Sprockets"]
    /\ quote_total q = 0.0%Q.
Proof.
  assert (G : exists q,
             generate_quote exact_floats sample_event (price_list demo_parser)
                            sample_rules sample_config = Ok q)
    by (eexists; vm_compute; reflexivity).
  destruct G as [q G]. exists q. split; [exact G|].
  destruct (quote_pending_rule exact_floats (price_list demo_parser)
              sample_rules sample_event sample_config q G)
    as (_ & _ & M & _ & St & _ & T).
  auto.
Defined.

Lemma quote_fails_without_unit_price_witness :
  match generate_quote exact_floats sample_event unpriced_catalog
                       sample_rules sample_config with
  | Ok _ => False
  | _ => True
  end.
Proof.
  apply (quote_fails_without_unit_price exact_floats unpriced_catalog
           sample_rules sample_event sample_config
           widget_item).
  - left. reflexivity.
  - exists [("unit_of_measure", VStr "each")]. split; reflexivity.
Defined.

Lemma quote_returns_when_convertible_witness :
  exists q,
    generate_quote exact_floats sample_event (price_list demo_parser)
                   sample_rules sample_config = Ok q.
Proof.
  apply (quote_returns_when_convertible exact_floats (price_list demo_parser)
           sample_rules sample_event sample_config).
  - reflexivity.
  - split.
    + repeat constructor.
      * intros meta H. injection H as <-. eexists. eexists. split; reflexivity.
      * intros n H. injection H as <-. eexists. reflexivity.
      * intros meta H. discriminate H.
      * intros n H. discriminate H.
    + eexists. reflexivity.
Defined.

Section QuoteAmounts.

Variable fo : float_ops.
Variable price_list : dict (dict scalar).
Variable discount_rules : list (rule (float fo)).

Lemma sum_exact_snoc (lines : list (QuoteLine (float fo)))
      (line : QuoteLine (float fo)) :
  sum_exact fo (lines ++ [line]) = add_exact fo (sum_exact fo lines) line.
Proof. unfold sum_exact. now rewrite fold_left_app. Qed.

Lemma quote_step_amounts (q0 : Quote (float fo)) (p0 : bool) (it : Item)
      (q : Quote (float fo)) (p : bool) :
  quote_step fo price_list discount_rules (q0, p0) it = Ok (q, p) ->
  Forall (line_discounted fo discount_rules) (quote_line_items q0) ->
  quote_subtotal q0 = sum_exact fo (quote_line_items q0) ->
  Forall (line_discounted fo discount_rules) (quote_line_items q)
  /\ quote_subtotal q = sum_exact fo (quote_line_items q).
Proof.
  unfold quote_step.
  destruct (dict_get price_list (name_text it)) as [meta|].
  - destruct (match dict_get meta "unit_price" with
              | Some v => to_float fo v
              | None => Raise "KeyError"
              end) as [up| |]; cbn [bind]; try discriminate.
    destruct (item_qty it) as [n|].
    + destruct (float_of_int fo n) as [qf| |] eqn:Qf; cbn [bind];
        try discriminate.
      intros [= <- <-] L S.
      cbn [push_priced quote_line_items quote_subtotal]. split.
      * apply Forall_app. split; [exact L|]. constructor; [|constructor].
        unfold line_discounted, line_exact.
        cbn [line_subtotal line_unit_price line_quantity line_discount_rate
             line_discount_amount].
        rewrite Qf. cbn [option_map].
        split; [reflexivity|]. split; [reflexivity|]. eauto.
      * rewrite sum_exact_snoc, <- S. unfold add_exact, line_exact.
        cbn [line_unit_price line_quantity line_discount_rate].
        now rewrite Qf.
    + intros [= <- <-] L S.
      cbn [push_pending quote_line_items quote_subtotal]. split.
      * apply Forall_app. split; [exact L|]. constructor; [|constructor].
        unfold line_discounted, line_exact.
        cbn [line_subtotal line_unit_price line_quantity line_discount_rate
             line_discount_amount option_map]. auto.
      * rewrite sum_exact_snoc, <- S. reflexivity.
  - intros [= <- <-] L S.
    cbn [push_pending quote_line_items quote_subtotal]. split.
    + apply Forall_app. split; [exact L|]. constructor; [|constructor].
      unfold line_discounted, line_exact.
      cbn [line_subtotal line_unit_price line_quantity line_discount_rate
           line_discount_amount option_map]. auto.
    + rewrite sum_exact_snoc, <- S. reflexivity.
Qed.

Lemma quote_fold_amounts (its : list Item) (q0 : Quote (float fo)) (p0 : bool)
      (q : Quote (float fo)) (p : bool) :
  fold_outcome (quote_step fo price_list discount_rules) its (q0, p0) = Ok (q, p) ->
  Forall (line_discounted fo discount_rules) (quote_line_items q0) ->
  quote_subtotal q0 = sum_exact fo (quote_line_items q0) ->
  Forall (line_discounted fo discount_rules) (quote_line_items q)
  /\ quote_subtotal q = sum_exact fo (quote_line_items q).
Proof.
  revert q0 p0. induction its as [|it its IH]; intros q0 p0; cbn [fold_outcome].
  - intros [= <- <-]. auto.
  - destruct (quote_step fo price_list discount_rules (q0, p0) it)
      as [[q1 p1]| |] eqn:S; cbn [bind]; try discriminate.
    intros H L T. destruct (quote_step_amounts _ _ _ _ _ S L T) as [L1 T1].
    exact (IH _ _ H L1 T1).
Qed.

(** X16.  In a quote [generate_quote] returns, a line with a price and a
    quantity has the rate [apply_discount] gives for the quantity, the
    discount amount price times quantity times rate rounded to two places,
    and as subtotal the rounded difference; every other line has no
    subtotal and zero discounts.  The subtotal of the quote is the sum, in
    the order of the lines, of the amounts of the priced lines before
    rounding: left as it is when the quote is pending, and rounded when it
    is complete, where the tax is the rounded product of the unrounded sum
    and the tax rate and the total the rounded sum of the unrounded sum and
    the tax. *)
Theorem quote_amounts_from_lines (event : Event) (config : dict scalar)
        (q : Quote (float fo)) :
  generate_quote fo event price_list discount_rules config = Ok q ->
  let exact := sum_exact fo (quote_line_items q) in
  Forall (line_discounted fo discount_rules) (quote_line_items q)
  /\ (if existsb (unpriced price_list) (items event)
      then quote_subtotal q = exact
      else exists tax_rate,
          tax_rate_of fo config = Ok tax_rate
          /\ quote_subtotal q = round2 fo exact
          /\ quote_tax q = round2 fo (fmul fo exact tax_rate)
          /\ quote_total q = round2 fo (fadd fo exact (quote_tax q))).
Proof.
  unfold generate_quote.
  destruct (forallb shaped_item (items event)); [|discriminate].
  destruct (fold_outcome _ _ _) as [[q1 p1]| |] eqn:Fo; cbn [bind];
    try discriminate.
  pose proof (quote_fold_spec fo price_list discount_rules _ _ _ _ _ Fo)
    as [_ P].
  apply quote_fold_amounts in Fo; [|constructor|reflexivity].
  destruct Fo as [L S]. cbn [snd fst]. cbn [orb] in P. rewrite P.
  destruct (existsb (unpriced price_list) (items event)).
  - intros [= <-]. cbn. auto.
  - destruct (tax_rate_of fo config) as [rate| |]; cbn [bind]; try discriminate.
    intros [= <-]. cbn. split; [exact L|]. exists rate. rewrite S. auto.
Qed.

End QuoteAmounts.

Lemma quote_amounts_from_lines_witness :
  exists q,
    generate_quote exact_floats (parse demo_parser two_senders)
                   (price_list demo_parser) sample_rules sample_config = Ok q
    /\ quote_subtotal q
       = round2 exact_floats (sum_exact exact_floats (quote_line_items q))
    /\ quote_total q
       = round2 exact_floats
           (fadd exact_floats (sum_exact exact_floats (quote_line_items q))
                 (quote_tax q)).
Proof.
  assert (G : exists q,
             generate_quote exact_floats (parse demo_parser two_senders)
                            (price_list demo_parser) sample_rules sample_config
             = Ok q)
    by (eexists; vm_compute; reflexivity).
  destruct G as (q & G). exists q. split; [exact G|].
  pose proof (quote_amounts_from_lines exact_floats (price_list demo_parser)
                sample_rules (parse demo_parser two_senders) sample_config q G)
    as [_ A].
  assert (U : existsb (unpriced (price_list demo_parser))
                      (items (parse demo_parser two_senders)) = false)
    by (vm_compute; reflexivity).
  rewrite U in A. destruct A as (rate & _ & S & _ & T). split; assumption.
Defined.

(** ** Quotes of parsed emails *)

Lemma parsed_items_shaped (self : EmailParser) (text : string) :
  forallb shaped_item (items (parse self text)) = true.
Proof.
  apply forallb_forall. intros it Hit.
  pose proof (one_item_per_name_names self text) as N.
  assert (G : Forall graded_item (items (parse self text))).
  { destruct (parse_fields self text) as (_ & _ & _ & _ & I & _).
    cbv zeta in I. rewrite I. apply (consolidate_graded self).
    apply items_found_graded. }
  rewrite Forall_forall in N, G. specialize (N it Hit). specialize (G it Hit).
  unfold shaped_item. rewrite N.
  destruct G as [_ [[(n & ->) _] | ->]]; reflexivity.
Qed.

Lemma append_inj_l (p a b : string) : (p ++ a = p ++ b)%string -> a = b.
Proof.
  induction p as [|c p IH]; cbn [String.append]; [auto|].
  intros [= H]. auto.
Qed.

Lemma item_level_entries (self : EmailParser) (text : string) :
  filter item_level (missing_fields (parse self text))
  = flat_map (item_missing self) (items (parse self text)).
Proof.
  destruct (parse_fields self text) as (_ & _ & _ & _ & _ & M). cbv zeta in M.
  rewrite M, !filter_app.
  assert (A : forall (b : bool) (s : string),
             item_level s = false -> filter item_level (if b then [s] else []) = []).
  { intros b s H. destruct b; [|reflexivity]. cbn [filter]. now rewrite H. }
  rewrite !A by reflexivity. cbn [app].
  destruct (items (parse self text)) as [|it its] eqn:E; [reflexivity|].
  apply filter_all. intros s Hs.
  destruct (items_missing_no_marker self _ s Hs) as (F & S & I).
  unfold item_level. destruct (mem s ["from"; "subject"; "items"]) eqn:Q;
    [|reflexivity].
  apply mem_In in Q. destruct Q as [<-|[<-|[<-|[]]]]; congruence.
Qed.

Lemma quote_missing_item (self : EmailParser) (it : Item) (s : string) :
  shaped_item it = true ->
  (In s (quote_missing (price_list self) it)
   <-> In s (item_missing self it)
       /\ (dict_mem (price_list self) (name_text it) = false ->
           s = "price for " ++ name_text it)%string).
Proof.
  unfold shaped_item, quote_missing, item_missing, in_price_list, item_qty,
    name_text.
  destruct (value (product_name it)) as [|pname| |]; try discriminate.
  destruct (value (quantity it)) as [| |n|]; try discriminate; intros _;
    destruct (dict_mem (price_list self) pname); cbn;
    intuition (try discriminate; subst; auto).
Qed.

Lemma unpriced_item (self : EmailParser) (it : Item) :
  shaped_item it = true ->
  (unpriced (price_list self) it = false <-> item_missing self it = []).
Proof.
  unfold shaped_item, unpriced, item_missing, in_price_list, item_qty, name_text.
  destruct (value (product_name it)) as [|pname| |]; try discriminate.
  destruct (value (quantity it)) as [| |n|]; try discriminate; intros _;
    destruct (dict_mem (price_list self) pname); cbn;
    intuition discriminate.
Qed.

Lemma unpriced_items (self : EmailParser) (its : list Item) :
  forallb shaped_item its = true ->
  (existsb (unpriced (price_list self)) its = false
   <-> flat_map (item_missing self) its = []).
Proof.
  induction its as [|it its IH]; cbn [forallb existsb flat_map];
    [intros _; tauto|].
  intros H. apply andb_true_iff in H. destruct H as [H1 H2].
  rewrite orb_false_iff, (unpriced_item self it H1), (IH H2).
  split.
  - intros [-> ->]. reflexivity.
  - intros H. apply app_eq_nil in H. exact H.
Qed.

(** X17.  For a parsed event quoted with the price list of the parser, a
    quote is returned when the conversions succeed.  It is [complete]
    exactly when the missing fields of the event hold no entry about an
    item (an entry other than [from], [subject] and [items]), and [pending]
    otherwise; its missing fields are those entries of the event, without
    the entries for the quantity of items that are not in the price
    list. *)
Theorem parsed_email_quote (fo : float_ops) (self : EmailParser) (text : string)
        (discount_rules : list (rule (float fo))) (config : dict scalar) :
  let ev := parse self text in
  let entries := filter item_level (missing_fields ev) in
  convertible fo (price_list self) config (items ev) ->
  exists q,
    generate_quote fo ev (price_list self) discount_rules config = Ok q
    /\ (quote_status q = "complete" <-> entries = [])
    /\ (quote_status q = "pending" <-> entries <> [])
    /\ (forall s, In s (quote_missing_fields q) <->
                  In s entries
                  /\ forall name, s = ("quantity for " ++ name)%string ->
                                  dict_mem (price_list self) name = true).
Proof.
  cbv zeta. intros C. rewrite item_level_entries.
  pose proof (parsed_items_shaped self text) as Sh.
  destruct (generate_quote_total fo (price_list self) discount_rules
              (parse self text) config Sh C) as (q & G).
  exists q. split; [exact G|].
  apply generate_quote_spec in G. destruct G as (_ & _ & M & _ & St).
  pose proof (unpriced_items self _ Sh) as U.
  split; [|split].
  - destruct (existsb (unpriced (price_list self)) (items (parse self text))).
    + destruct St as (-> & _). split; [discriminate|].
      intros E. apply U in E. discriminate E.
    + destruct St as (-> & _). split; [intros _; now apply U | reflexivity].
  - destruct (existsb (unpriced (price_list self)) (items (parse self text))).
    + destruct St as (-> & _). split; [|reflexivity].
      intros _ E. apply U in E. discriminate E.
    + destruct St as (-> & _). split; [discriminate|].
      intros E. elim E. now apply U.
  - intros s. rewrite M, !in_flat_map. rewrite forallb_forall in Sh. split.
    + intros (it & Hit & Hs).
      apply (quote_missing_item self it s (Sh it Hit)) in Hs.
      destruct Hs as [Hs P]. split; [eauto|].
      intros name ->.
      unfold item_missing in Hs. apply in_app_or in Hs.
      destruct (dict_mem (price_list self) (name_text it)) eqn:D.
      * destruct Hs as [Hs|Hs].
        -- destruct (is_none (value (quantity it))); [|destruct Hs].
           destruct Hs as [Hs|[]]. apply append_inj_l in Hs. now subst.
        -- unfold in_price_list in Hs.
           pose proof (Sh it Hit) as S1. unfold shaped_item in S1.
           unfold name_text in D.
           destruct (value (product_name it)); try discriminate S1.
           rewrite D in Hs. destruct Hs.
      * specialize (P eq_refl). discriminate P.
    + intros [(it & Hit & Hs) P]. exists it. split; [exact Hit|].
      apply (quote_missing_item self it s (Sh it Hit)). split; [exact Hs|].
      intros D. unfold item_missing in Hs. apply in_app_or in Hs.
      destruct Hs as [Hs|Hs].
      * destruct (is_none (value (quantity it))); [|destruct Hs].
        destruct Hs as [<-|[]]. rewrite (P _ eq_refl) in D. discriminate D.
      * destruct (in_price_list self (value (product_name it))); [destruct Hs|].
        destruct Hs as [<-|[]]. reflexivity.
Qed.

Lemma parsed_email_quote_witness :
  exists q,
    generate_quote exact_floats (parse demo_parser two_senders)
                   (price_list demo_parser) sample_rules sample_config = Ok q
    /\ quote_status q = "complete".
Proof.
  destruct (parsed_email_quote exact_floats demo_parser two_senders sample_rules
              sample_config) as (q & G & C & _).
  - split; [|eexists; reflexivity].
    set (its := items (parse demo_parser two_senders)). vm_compute in its.
    subst its. constructor; [|constructor]. split.
    + intros meta H. injection H as <-. eexists. eexists. split; reflexivity.
    + intros n H. injection H as <-. eexists. reflexivity.
  - exists q. split; [exact G|]. apply C. vm_compute. reflexivity.
Defined.

(** ** The acknowledgment draft *)

Lemma startswith_append (p x : string) : startswith (p ++ x)%string p = true.
Proof.
  induction p as [|c p IH]; cbn [String.append startswith]; [reflexivity|].
  now rewrite Ascii.eqb_refl, IH.
Qed.

Lemma drop_append (p x : string) : drop (String.length p) (p ++ x)%string = x.
Proof. induction p as [|c p IH]; cbn; auto. Qed.

Lemma split_upto_absent (fuel : nat) (s sep : string) :
  contains sep s = false -> split_upto fuel s sep = [s].
Proof.
  intros H. destruct fuel; cbn [split_upto]; [reflexivity|].
  now rewrite (partition_None_contains sep s H).
Qed.

Lemma split_prefixed (sep x : string) :
  sep <> ""%string -> contains sep x = false ->
  split (sep ++ x)%string sep = [""%string; x].
Proof.
  intros N H. unfold split.
  destruct (String.length (sep ++ x)%string) as [|fuel] eqn:L.
  - destruct sep; [now elim N | discriminate L].
  - cbn [split_upto].
    assert (P : partition sep (sep ++ x)%string = Some (""%string, x)).
    { destruct sep as [|c sep]; [now elim N|].
      cbn [String.append partition].
      change (String c (sep ++ x)%string) with (String c sep ++ x)%string.
      now rewrite startswith_append, drop_append. }
    rewrite P. now rewrite split_upto_absent.
Qed.

Lemma drop_length (p s : string) :
  startswith s p = true ->
  String.length s = String.length p + String.length (drop (String.length p) s).
Proof.
  revert s. induction p as [|c p IH]; intros s H; [reflexivity|].
  destruct s as [|d s]; [discriminate H|].
  cbn [startswith] in H. apply andb_true_iff in H. destruct H as [_ H].
  cbn [String.length drop]. now rewrite (IH s H).
Qed.

Lemma partition_length (sep s a b : string) :
  partition sep s = Some (a, b) ->
  String.length s = String.length a + String.length sep + String.length b.
Proof.
  revert a b. induction s as [|c s IH]; intros a b; cbn [partition].
  - destruct (startswith "" sep) eqn:P; [|discriminate].
    intros [= <- <-]. pose proof (drop_length sep "" P) as L.
    cbn [String.length] in *. lia.
  - destruct (startswith (String c s) sep) eqn:P.
    + intros [= <- <-]. pose proof (drop_length sep (String c s) P) as L.
      cbn [String.length] in *. lia.
    + destruct (partition sep s) as [[a' b']|]; [|discriminate].
      intros [= <- <-]. pose proof (IH a' b' eq_refl) as L.
      cbn [String.length]. lia.
Qed.

(** The cuts of [split] never run out: any number of cuts that is at least
    the length of the text gives the same pieces. *)
Lemma split_fuel_enough (sep : string) (n m : nat) (s : string) :
  sep <> ""%string -> String.length s <= n -> String.length s <= m ->
  split_upto n s sep = split_upto m s sep.
Proof.
  intros N. revert m s. induction n as [|n IH]; intros m s Hn Hm.
  - destruct s; [|cbn in Hn; lia].
    destruct m; cbn [split_upto]; [reflexivity|].
    destruct sep; [now elim N | reflexivity].
  - destruct m as [|m].
    + destruct s; [|cbn in Hm; lia]. cbn [split_upto].
      destruct sep; [now elim N | reflexivity].
    + cbn [split_upto].
      destruct (partition sep s) as [[a b]|] eqn:P; [|reflexivity].
      apply partition_length in P.
      assert (0 < String.length sep) by (destruct sep; [now elim N | cbn; lia]).
      f_equal. apply IH; lia.
Qed.

Lemma question_for_marker (s : string) :
  In s ["from"; "subject"; "items"]%string ->
  exists q, question_for s = [q].
Proof.
  intros [<-|[<-|[<-|[]]]]; cbv; eauto.
Qed.

Lemma question_for_item (self : EmailParser) (it : Item) (s : string) :
  In s (item_missing self it) -> exists q, question_for s = [q].
Proof.
  unfold item_missing. intros H. apply in_app_or in H. destruct H as [H|H].
  - destruct (is_none (value (quantity it))); [|destruct H].
    destruct H as [<-|[]]. unfold question_for.
    rewrite startswith_append. eauto.
  - destruct (in_price_list self (value (product_name it))); [destruct H|].
    destruct H as [<-|[]]. unfold question_for.
    replace (startswith ("price for " ++ name_text it)%string "quantity for ")
      with false by reflexivity.
    rewrite startswith_append. eauto.
Qed.

Lemma parsed_missing_asked (self : EmailParser) (text : string) :
  Forall (fun s => exists q, question_for s = [q])
         (missing_fields (parse self text)).
Proof.
  destruct (parse_fields self text) as (_ & _ & _ & _ & _ & M). cbv zeta in M.
  rewrite M. clear M. apply Forall_app. split; [|apply Forall_app; split].
  - destruct (absent (from_ (parse self text))); constructor; [|constructor].
    apply question_for_marker. cbn. auto.
  - destruct (absent (subject (parse self text))); constructor; [|constructor].
    apply question_for_marker. cbn. auto.
  - destruct (items (parse self text)) as [|it its].
    + constructor; [|constructor]. apply question_for_marker. cbn. auto.
    + apply Forall_forall. intros s Hs. apply in_flat_map in Hs.
      destruct Hs as (x & _ & Hs). exact (question_for_item self x s Hs).
Qed.

Lemma questions_aligned (fields : list string) :
  Forall (fun s => exists q, question_for s = [q]) fields ->
  Forall2 (fun q field => question_for field = [q])
          (flat_map question_for fields) fields.
Proof.
  induction 1 as [|s fields (q & Hq) _ IH]; cbn [flat_map]; [constructor|].
  rewrite Hq. cbn [app]. constructor; assumption.
Qed.

Lemma In_firstn_In {A : Type} (x : A) (n : nat) (l : list A) :
  In x (firstn n l) -> In x l.
Proof.
  revert l. induction n as [|n IH]; intros [|y l]; cbn; try tauto.
  intros [H|H]; auto.
Qed.

Lemma Forall_firstn {A : Type} (P : A -> Prop) (n : nat) (l : list A) :
  Forall P l -> Forall P (firstn n l).
Proof.
  intros H. apply Forall_forall. rewrite Forall_forall in H.
  intros x Hx. apply H. eapply In_firstn_In; eauto.
Qed.

Lemma parsed_event_shaped (self : EmailParser) (text : string) :
  shaped (parse self text) = true.
Proof.
  unfold shaped. rewrite parsed_items_shaped, andb_true_r.
  destruct (parse_fields self text) as (_ & F & S & _). cbv zeta in F, S.
  destruct (extract_headers_textual (header_of text)
              (new_event (make_email_id text))) as [TF TS].
  { split; left; reflexivity. }
  unfold textual_value. rewrite F, S.
  destruct TF as [-> | (s & ->)]; destruct TS as [-> | (s' & ->)]; reflexivity.
Qed.

(** X18.  For a parsed event, [draft_acknowledgment] returns a draft when
    the [sla_text] of the configuration is a string or is not set, and
    raises [TypeError] when it is set to something else.  The draft has the
    identifier and the missing fields of the event, and one question for
    each of the first two missing fields, in their order: two questions at
    most, and as many as there are missing fields when these are fewer. *)
Theorem ack_for_parsed_email (self : EmailParser) (text : string)
        (config : dict scalar) :
  let ev := parse self text in
  match dict_get config "sla_text" with
  | None | Some (VStr _) =>
      exists d,
        draft_acknowledgment ev config = Ok d
        /\ draft_email_id d = email_id ev
        /\ draft_missing_fields d = missing_fields ev
        /\ List.length (draft_questions d)
           = Nat.min 2 (List.length (missing_fields ev))
        /\ Forall2 (fun q field => question_for field = [q])
                   (draft_questions d) (firstn 2 (missing_fields ev))
  | Some _ => draft_acknowledgment ev config = Raise "TypeError"
  end.
Proof.
  cbv zeta. unfold draft_acknowledgment. rewrite parsed_event_shaped.
  assert (A : Forall2 (fun q field => question_for field = [q])
                      (questions_of (missing_fields (parse self text)))
                      (firstn 2 (missing_fields (parse self text)))).
  { apply questions_aligned, Forall_firstn, parsed_missing_asked. }
  assert (L : List.length (questions_of (missing_fields (parse self text)))
              = Nat.min 2 (List.length (missing_fields (parse self text)))).
  { rewrite (Forall2_length A). apply length_firstn. }
  destruct (dict_get config "sla_text") as [[|sla| |]|];
    try reflexivity; eexists; (split; [reflexivity|]); cbn; auto.
Qed.

Lemma draft_fields (event : Event) (config : dict scalar) (d : Draft) :
  draft_acknowledgment event config = Ok d ->
  draft_email_id d = email_id event
  /\ draft_to d = or_default (value (from_ event)) "customer"
  /\ draft_subject d
     = ("Re: " ++ or_default (value (subject event)) "your inquiry")%string
  /\ draft_missing_fields d = missing_fields event
  /\ draft_questions d = questions_of (missing_fields event)
  /\ startswith (draft_body d)
                (greeting_of (or_default (value (from_ event)) "customer"))
     = true.
Proof.
  unfold draft_acknowledgment. destruct (shaped event); [|discriminate].
  destruct (dict_get config "sla_text") as [[|sla| |]|]; try discriminate;
    intros [= <-]; cbn [draft_email_id draft_to draft_subject draft_body
                        draft_missing_fields draft_questions];
    repeat split; cbn [app String.concat]; apply startswith_append.
Qed.

Lemma question_names_quantity (name : string) :
  contains "quantity for " name = false ->
  question_for ("quantity for " ++ name) = [ask_quantity name].
Proof.
  intros H. unfold question_for. rewrite startswith_append.
  rewrite split_prefixed by (discriminate || exact H). reflexivity.
Qed.

Lemma question_names_price (name : string) :
  contains "price for " name = false ->
  question_for ("price for " ++ name) = [ask_price name].
Proof.
  intros H. unfold question_for.
  replace (startswith ("price for " ++ name)%string "quantity for ")
    with false by reflexivity.
  rewrite startswith_append.
  rewrite split_prefixed by (discriminate || exact H). reflexivity.
Qed.

(** X19.  When the entry for the quantity, or for the price, of a product
    is among the first two missing fields, and the name of the product does
    not itself contain the prefix of the entry, the draft holds the
    question that names this very product. *)
Theorem ack_question_names_product (event : Event) (config : dict scalar)
        (d : Draft) (sep name : string) (ask : string -> string) :
  draft_acknowledgment event config = Ok d ->
  In (sep, ask) [("quantity for "%string, ask_quantity);
                 ("price for "%string, ask_price)] ->
  In (sep ++ name)%string (firstn 2 (missing_fields event)) ->
  contains sep name = false ->
  In (ask name) (draft_questions d).
Proof.
  intros D K F C. apply draft_fields in D.
  destruct D as (_ & _ & _ & _ & -> & _).
  unfold questions_of. apply in_flat_map. exists (sep ++ name)%string.
  split; [exact F|].
  destruct K as [[= <- <-]|[[= <- <-]|[]]].
  - rewrite question_names_quantity by exact C. now left.
  - rewrite question_names_price by exact C. now left.
Qed.

Lemma ack_question_names_product_witness :
  exists d,
    draft_acknowledgment sample_event sample_config = Ok d
    /\ In (ask_quantity "Sprockets") (draft_questions d).
Proof.
  assert (D : exists d, draft_acknowledgment sample_event sample_config = Ok d)
    by (eexists; vm_compute; reflexivity).
  destruct D as [d D]. exists d. split; [exact D|].
  apply (ack_question_names_product sample_event sample_config d
           "quantity for " "Sprockets" ask_quantity D).
  - left. reflexivity.
  - right. left. reflexivity.
  - reflexivity.
Defined.

Lemma absent_default (f : Field) (default : string) :
  absent f = true -> textual_value f = true ->
  or_default (value f) default = default.
Proof.
  unfold absent, textual_value, or_default, truthy.
  destruct (value f) as [|s| |]; try discriminate; [reflexivity|].
  destruct (s =? "")%string; [reflexivity | discriminate].
Qed.

(** X20.  When a parsed email has neither sender nor subject, the two
    questions of the draft are the one for the contact address followed by
    the one for the subject, whatever is missing about the items; the
    draft is addressed to [customer], has the subject [Re: your inquiry]
    and greets with [Hello Customer,]. *)
Theorem ack_header_questions_first (self : EmailParser) (text : string)
        (config : dict scalar) (d : Draft) :
  let ev := parse self text in
  draft_acknowledgment ev config = Ok d ->
  absent (from_ ev) = true ->
  absent (subject ev) = true ->
  draft_questions d = [ask_from; ask_subject]
  /\ draft_to d = "customer"%string
  /\ draft_subject d = "Re: your inquiry"%string
  /\ startswith (draft_body d) "Hello Customer," = true.
Proof.
  cbv zeta. intros D F S. apply draft_fields in D.
  destruct D as (_ & T & J & _ & Q & G).
  pose proof (parsed_event_shaped self text) as Sh. unfold shaped in Sh.
  apply andb_true_iff in Sh. destruct Sh as [Sh _].
  apply andb_true_iff in Sh. destruct Sh as [TF TS].
  rewrite (absent_default _ _ F TF) in T, G.
  rewrite (absent_default _ _ S TS) in J.
  split; [|auto].
  rewrite Q.
  destruct (parse_fields self text) as (_ & _ & _ & _ & _ & M). cbv zeta in M.
  rewrite M, F, S. reflexivity.
Qed.

Lemma ack_header_questions_first_witness :
  exists d,
    draft_acknowledgment (parse demo_parser order_mail) sample_config = Ok d
    /\ draft_questions d = [ask_from; ask_subject]
    /\ draft_to d = "customer"%string.
Proof.
  assert (D : exists d,
             draft_acknowledgment (parse demo_parser order_mail) sample_config
             = Ok d)
    by (eexists; vm_compute; reflexivity).
  destruct D as [d D]. exists d. split; [exact D|].
  destruct (ack_header_questions_first demo_parser order_mail sample_config d D)
    as (Q & T & _); [vm_compute; reflexivity | vm_compute; reflexivity|].
  split; assumption.
Defined.

Lemma contains_cons (c : ascii) (s : string) :
  contains "@" (String c s) = Ascii.eqb "@" c || contains "@" s.
Proof.
  cbn [contains startswith]. destruct s; now rewrite andb_true_r.
Qed.

Lemma partition_at (a b : string) :
  contains "@" a = false ->
  partition "@" (a ++ "@" ++ b)%string = Some (a, b).
Proof.
  induction a as [|c a IH]; intros H.
  - reflexivity.
  - rewrite contains_cons in H. apply orb_false_iff in H. destruct H as [H1 H2].
    cbn [String.append]. cbn [partition startswith]. rewrite H1. cbn [andb].
    change (a ++ String "@" b)%string with (a ++ "@" ++ b)%string.
    now rewrite (IH H2).
Qed.

Lemma contains_at (a b : string) : contains "@" (a ++ "@" ++ b)%string = true.
Proof.
  induction a as [|c a IH]; [reflexivity|].
  cbn [String.append]. rewrite contains_cons.
  change (a ++ String "@" b)%string with (a ++ "@" ++ b)%string.
  rewrite IH. apply orb_true_r.
Qed.

Lemma greeting_local_part (a b : string) :
  contains "@" a = false ->
  greeting_of (a ++ "@" ++ b)
  = if (a =? "")%string then "Hello,"%string
    else ("Hello " ++ title a ++ ",")%string.
Proof.
  intros H. unfold greeting_of. rewrite contains_at.
  assert (N : ((a ++ "@" ++ b)%string =? "")%string = false).
  { destruct a; reflexivity. }
  rewrite N. cbn [negb andb]. unfold split.
  destruct (String.length (a ++ "@" ++ b)%string) eqn:L.
  - destruct a; discriminate L.
  - cbn [split_upto]. rewrite (partition_at a b H). reflexivity.
Qed.

(** X21.  When the sender is an address [local@domain] whose local part is
    ASCII and holds no [@], the draft is addressed to the whole address and
    its body starts with the greeting of the title-cased local part, or
    with [Hello,] when the local part is empty. *)
Theorem ack_greets_local_part (event : Event) (config : dict scalar)
        (d : Draft) (local domain : string) :
  draft_acknowledgment event config = Ok d ->
  value (from_ event) = VStr (local ++ "@" ++ domain) ->
  contains "@" local = false ->
  ascii_text local = true ->
  draft_to d = (local ++ "@" ++ domain)%string
  /\ startswith (draft_body d)
                (if (local =? "")%string then "Hello,"%string
                 else ("Hello " ++ title local ++ ",")%string) = true.
Proof.
  intros D V H _. apply draft_fields in D.
  destruct D as (_ & T & _ & _ & _ & G).
  assert (O : or_default (value (from_ event)) "customer"
              = (local ++ "@" ++ domain)%string).
  { rewrite V. unfold or_default.
    destruct local; reflexivity. }
  rewrite O in T, G. rewrite (greeting_local_part local domain H) in G.
  split; assumption.
Qed.

Lemma ack_greets_local_part_witness :
  exists d,
    draft_acknowledgment sample_event sample_config = Ok d
    /\ startswith (draft_body d) "Hello Asha.Rao," = true.
Proof.
  assert (D : exists d, draft_acknowledgment sample_event sample_config = Ok d)
    by (eexists; vm_compute; reflexivity).
  destruct D as [d D]. exists d. split; [exact D|].
  apply (ack_greets_local_part sample_event sample_config d
           "asha.rao" "example.com" D); reflexivity.
Defined.

(** ** The inbox loop *)

Lemma length_append (a b : string) :
  String.length (a ++ b)%string = String.length a + String.length b.
Proof. induction a as [|c a IH]; cbn; [reflexivity | now rewrite IH]. Qed.

Lemma append_inj_r (a b s : string) : (a ++ s = b ++ s)%string -> a = b.
Proof.
  revert b. induction a as [|c a IH]; intros [|d b] H; cbn in H.
  - reflexivity.
  - apply (f_equal String.length) in H. cbn in H. rewrite length_append in H. lia.
  - apply (f_equal String.length) in H. cbn in H. rewrite length_append in H. lia.
  - injection H as -> H. f_equal. now apply IH.
Qed.

Lemma insert_entry_In (e x : string * inbox_entry)
      (l : list (string * inbox_entry)) :
  In x (insert_entry e l) <-> x = e \/ In x l.
Proof.
  induction l as [|y l IH]; cbn [insert_entry].
  - cbn. intuition.
  - destruct (String.leb (fst e) (fst y)); cbn [In]; [intuition|].
    rewrite IH. cbn [In]. intuition.
Qed.

Lemma sorted_listing_In (x : string * inbox_entry)
      (l : list (string * inbox_entry)) :
  In x (sorted_listing l) <-> In x l.
Proof.
  unfold sorted_listing. induction l as [|y l IH]; cbn [fold_right]; [tauto|].
  rewrite insert_entry_In, IH. cbn [In]. intuition.
Qed.

Lemma parsed_email_id (self : EmailParser) (text : string) :
  email_id (parse self text) = make_email_id text.
Proof. now destruct (parse_fields self text) as (E & _). Qed.

Lemma dict_mem_set {V : Type} (d : dict V) (k k' : string) (v : V) :
  dict_mem (dict_set d k v) k' = (k =? k')%string || dict_mem d k'.
Proof.
  unfold dict_mem. rewrite dict_get_set. now destruct (k =? k')%string.
Qed.

Lemma parse_error_init (pl : dict (dict scalar)) (cfg cfg' : dict scalar)
      (text : string) :
  parse_error (init pl cfg) text = parse_error (init pl cfg') text.
Proof. reflexivity. Qed.

Section InboxProperties.

Variable fo : float_ops.
Variable clock : nat -> string.
Variable price_list : dict (dict scalar).
Variable discount_rules : list (rule (float fo)).
Variable config : dict scalar.

Lemma process_new_spec (w : World (float fo)) (fname : string) (event : Event)
      (w' : World (float fo)) (o : outcome unit) :
  process_new fo clock price_list discount_rules config w fname event = (w', o) ->
  events_dir w' = dict_set (events_dir w) (event_file (email_id event)) event
  /\ written fo price_list discount_rules config w w' event o
  /\ exists records, timeline_file w' = timeline_file w ++ records.
Proof.
  unfold process_new, written.
  destruct (draft_acknowledgment event config) as [ack| |].
  - destruct (generate_quote fo event price_list discount_rules config)
      as [quote| |]; intros [= <- <-]; cbn; repeat split;
      rewrite <- ?app_assoc; eauto.
  - intros [= <- <-]; cbn; repeat split; eauto.
  - intros [= <- <-]; cbn; repeat split; eauto.
Qed.

Lemma untouched_refl (w : World (float fo)) : untouched w w.
Proof.
  split; [intros name v H; exact H|]. split; [auto|].
  exists []. now rewrite app_nil_r.
Qed.

Lemma keeps_files_mem {V : Type} (d d' : dict V) (name : string) :
  keeps_files d d' -> dict_mem d name = true -> dict_mem d' name = true.
Proof.
  unfold dict_mem. intros K H.
  destruct (dict_get d name) as [v|] eqn:G; [|discriminate H].
  now rewrite (K name v G).
Qed.

Lemma untouched_trans (a b c : World (float fo)) :
  untouched a b -> untouched b c -> untouched a c.
Proof.
  intros (K1 & U1 & r1 & T1) (K2 & U2 & r2 & T2). split; [|split].
  - intros name v H. apply K2, K1, H.
  - intros id H. destruct (U1 id H) as [O1 Q1].
    destruct (U2 id (keeps_files_mem _ _ _ K1 H)) as [O2 Q2].
    split; congruence.
  - exists (r1 ++ r2). now rewrite T2, T1, app_assoc.
Qed.

Lemma untouched_log (w : World (float fo)) (id : option string)
      (step status message : string) :
  untouched w (log fo clock w id step status message).
Proof.
  split; [intros name v H; exact H|]. split; [auto|]. cbn. eauto.
Qed.

Lemma dict_get_set_other {V : Type} (d : dict V) (k k' : string) (v : V) :
  k <> k' -> dict_get (dict_set d k v) k' = dict_get d k'.
Proof.
  intros N. rewrite dict_get_set. apply String.eqb_neq in N. now rewrite N.
Qed.

Lemma process_new_untouched (w : World (float fo)) (fname : string)
      (event : Event) (w' : World (float fo)) (o : outcome unit) :
  dict_mem (events_dir w) (event_file (email_id event)) = false ->
  process_new fo clock price_list discount_rules config w fname event = (w', o) ->
  untouched w w'.
Proof.
  intros New P. apply process_new_spec in P. destruct P as (E & W & T).
  assert (Other : forall id, dict_mem (events_dir w) (event_file id) = true ->
                             id <> email_id event).
  { intros id H ->. congruence. }
  split; [|split; [|exact T]].
  - intros name v H. rewrite E, dict_get_set_other; [exact H|].
    intros <-. unfold dict_mem in New. now rewrite H in New.
  - intros id H. specialize (Other id H).
    assert (NA : ack_file (email_id event) <> ack_file id).
    { intros X. apply append_inj_r in X. congruence. }
    assert (NQ : quote_file (email_id event) <> quote_file id).
    { intros X. apply append_inj_r in X. congruence. }
    unfold written in W.
    destruct (draft_acknowledgment event config) as [ack| |].
    + destruct W as [-> W]. rewrite (dict_get_set_other _ _ _ _ NA).
      split; [reflexivity|].
      destruct (generate_quote fo event price_list discount_rules config)
        as [quote| |]; destruct W as [_ ->];
        rewrite ?(dict_get_set_other _ _ _ _ NQ); reflexivity.
    + destruct W as (_ & -> & ->). auto.
    + destruct W as (_ & -> & ->). auto.
Qed.

Lemma process_file_untouched (w : World (float fo)) (e : string * inbox_entry)
      (w' : World (float fo)) (o : outcome unit) :
  process_file fo clock price_list discount_rules config w e = (w', o) ->
  untouched w w'.
Proof.
  destruct e as [fname [|exc|raw]]; cbn [process_file].
  - intros [= <- _]. apply untouched_refl.
  - destruct (endswith (lower fname) ".txt"); intros [= <- _];
      [apply untouched_log | apply untouched_refl].
  - destruct (endswith (lower fname) ".txt");
      [|intros [= <- _]; apply untouched_refl].
    destruct (parse_error _ raw); [intros [= <- _]; apply untouched_log|].
    destruct (dict_mem _ _) eqn:M; [intros [= <- _]; apply untouched_log|].
    apply (process_new_untouched _ _ _ _ _ M).
Qed.

Lemma process_files_untouched (entries : list (string * inbox_entry))
      (w w' : World (float fo)) (o : outcome unit) :
  process_files fo clock price_list discount_rules config entries w = (w', o) ->
  untouched w w'.
Proof.
  revert w. induction entries as [|e entries IH]; intros w; cbn [process_files].
  - intros [= <- _]. apply untouched_refl.
  - destruct (process_file fo clock price_list discount_rules config w e)
      as [w1 o1] eqn:S.
    apply process_file_untouched in S.
    destruct o1 as [u| |].
    + intros H. exact (untouched_trans _ _ _ S (IH _ H)).
    + intros [= <- _]. exact S.
    + intros [= <- _]. exact S.
Qed.

(** X22.  A run of [process_inbox], whether it ends or stops on an
    exception, leaves every event file that was there before it with its
    content; it leaves alone the acknowledgment and the quote of every
    email whose event file was there before; and it only adds lines to the
    timeline. *)
Theorem known_emails_untouched (listing : list (string * inbox_entry))
        (w : World (float fo)) :
  let w' := fst (process_inbox fo clock price_list discount_rules config
                               listing w) in
  keeps_files (events_dir w) (events_dir w')
  /\ (forall id, dict_mem (events_dir w) (event_file id) = true ->
                 dict_get (outbox_dir w') (ack_file id)
                 = dict_get (outbox_dir w) (ack_file id)
                 /\ dict_get (quotes_dir w') (quote_file id)
                    = dict_get (quotes_dir w) (quote_file id))
  /\ exists records, timeline_file w' = timeline_file w ++ records.
Proof.
  cbv zeta. unfold process_inbox.
  destruct (process_files fo clock price_list discount_rules config
                          (sorted_listing listing) w) as [w' o] eqn:P.
  exact (process_files_untouched _ _ _ _ P).
Qed.

Lemma process_file_known (w : World (float fo)) (fname raw : string)
      (w' : World (float fo)) (o : outcome unit) :
  endswith (lower fname) ".txt" = true ->
  parse_error (init price_list config) raw = None ->
  process_file fo clock price_list discount_rules config w (fname, Text raw)
  = (w', o) ->
  dict_mem (events_dir w') (event_file (make_email_id raw)) = true.
Proof.
  intros T R. cbn [process_file]. rewrite T, R, parsed_email_id.
  destruct (dict_mem _ _) eqn:M; [intros [= <- _]; exact M|].
  intros P. apply process_new_spec in P. destruct P as (E & _).
  rewrite E, parsed_email_id, dict_mem_set, String.eqb_refl. reflexivity.
Qed.

Lemma processed_ids_known (entries : list (string * inbox_entry))
      (w w' : World (float fo)) (u : unit) :
  process_files fo clock price_list discount_rules config entries w
  = (w', Ok u) ->
  forall fname raw, In (fname, Text raw) entries ->
                    endswith (lower fname) ".txt" = true ->
                    parse_error (init price_list config) raw = None ->
                    dict_mem (events_dir w') (event_file (make_email_id raw))
                    = true.
Proof.
  revert w. induction entries as [|e entries IH]; intros w; cbn [process_files].
  - intros _ fname raw [].
  - destruct (process_file fo clock price_list discount_rules config w e)
      as [w1 o1] eqn:S.
    destruct o1 as [u1| |]; try discriminate.
    intros H fname raw [-> | I] T R.
    + apply (process_file_known _ _ _ _ _ T R) in S.
      apply process_files_untouched in H. destruct H as (K & _).
      exact (keeps_files_mem _ _ _ K S).
    + exact (IH _ H fname raw I T R).
Qed.

Lemma process_files_skips (entries : list (string * inbox_entry))
      (w : World (float fo)) :
  (forall fname raw, In (fname, Text raw) entries ->
                     endswith (lower fname) ".txt" = true ->
                     parse_error (init price_list config) raw = None ->
                     dict_mem (events_dir w) (event_file (make_email_id raw))
                     = true) ->
  exists w' records,
    process_files fo clock price_list discount_rules config entries w
    = (w', Ok tt)
    /\ events_dir w' = events_dir w
    /\ outbox_dir w' = outbox_dir w
    /\ quotes_dir w' = quotes_dir w
    /\ timeline_file w' = timeline_file w ++ records
    /\ only_skips records.
Proof.
  revert w. induction entries as [|e entries IH]; intros w Known;
    cbn [process_files].
  - exists w, []. rewrite app_nil_r. repeat split. constructor.
  - assert (S : exists w1 r1,
               process_file fo clock price_list discount_rules config w e
               = (w1, Ok tt)
               /\ events_dir w1 = events_dir w
               /\ outbox_dir w1 = outbox_dir w
               /\ quotes_dir w1 = quotes_dir w
               /\ timeline_file w1 = timeline_file w ++ r1
               /\ only_skips r1).
    { destruct e as [fname [|exc|raw]]; cbn [process_file].
      - exists w, []. rewrite app_nil_r. repeat split. constructor.
      - destruct (endswith (lower fname) ".txt").
        + eexists; eexists; repeat split.
          constructor; [|constructor]. right. left. split; reflexivity.
        + exists w, []. rewrite app_nil_r. repeat split. constructor.
      - destruct (endswith (lower fname) ".txt") eqn:T.
        + destruct (parse_error (init price_list config) raw) as [exc|] eqn:R.
          * eexists; eexists; repeat split.
            constructor; [|constructor]. right. right. split; reflexivity.
          * rewrite parsed_email_id.
            rewrite (Known fname raw (or_introl eq_refl) T R).
            eexists; eexists; repeat split.
            constructor; [|constructor]. left. split; reflexivity.
        + exists w, []. rewrite app_nil_r. repeat split. constructor. }
    destruct S as (w1 & r1 & -> & E1 & O1 & Q1 & T1 & S1).
    destruct (IH w1) as (w2 & r2 & P & E2 & O2 & Q2 & T2 & S2).
    { intros fname raw I T R. rewrite E1.
      apply (Known fname raw); [now right | exact T | exact R]. }
    exists w2, (r1 ++ r2). rewrite P. repeat split; try congruence.
    + now rewrite T2, T1, app_assoc.
    + apply Forall_app. split; assumption.
Qed.

Lemma process_file_cases (w : World (float fo)) (e : string * inbox_entry)
      (w1 : World (float fo)) (o : outcome unit) :
  process_file fo clock price_list discount_rules config w e = (w1, o) ->
  (o = Ok tt /\ events_dir w1 = events_dir w /\ outbox_dir w1 = outbox_dir w
   /\ quotes_dir w1 = quotes_dir w)
  \/ exists fname raw,
      e = (fname, Text raw)
      /\ endswith (lower fname) ".txt" = true
      /\ parse_error (init price_list config) raw = None
      /\ dict_mem (events_dir w)
                  (event_file (email_id (parse (init price_list config) raw)))
         = false
      /\ process_new fo clock price_list discount_rules config w fname
                     (parse (init price_list config) raw) = (w1, o).
Proof.
  destruct e as [fname [|exc|raw]]; cbn [process_file].
  - intros [= <- <-]. left. auto.
  - destruct (endswith (lower fname) ".txt"); intros [= <- <-]; left; auto.
  - destruct (endswith (lower fname) ".txt") eqn:T;
      [|intros [= <- <-]; left; auto].
    destruct (parse_error _ raw) eqn:R; [intros [= <- <-]; left; auto|].
    destruct (dict_mem _ _) eqn:M; [intros [= <- <-]; left; auto|].
    intros P. right. exists fname, raw. auto.
Qed.




Lemma process_file_unwritten (w : World (float fo)) (e : string * inbox_entry)
      (w1 : World (float fo)) (o : outcome unit) (id : string) :
  process_file fo clock price_list discount_rules config w e = (w1, o) ->
  dict_mem (events_dir w1) (event_file id) = false ->
  dict_get (outbox_dir w1) (ack_file id) = dict_get (outbox_dir w) (ack_file id)
  /\ dict_get (quotes_dir w1) (quote_file id)
     = dict_get (quotes_dir w) (quote_file id).
Proof.
  intros S M.
  destruct (process_file_cases _ _ _ _ S)
    as [(_ & _ & -> & ->) | (fname & raw & -> & T & _ & New & P)]; [auto|].
  apply process_new_spec in P. destruct P as (E & W & _).
  rewrite E, dict_mem_set in M. apply orb_false_iff in M. destruct M as [M _].
  apply String.eqb_neq in M.
  set (event := parse (init price_list config) raw) in *.
  assert (NA : ack_file (email_id event) <> ack_file id).
  { intros X. apply append_inj_r in X. apply M. unfold event_file. now rewrite X. }
  assert (NQ : quote_file (email_id event) <> quote_file id).
  { intros X. apply append_inj_r in X. apply M. unfold event_file. now rewrite X. }
  unfold written in W.
  destruct (draft_acknowledgment event config) as [ack| |].
  - destruct W as [-> W]. rewrite (dict_get_set_other _ _ _ _ NA).
    split; [reflexivity|].
    destruct (generate_quote fo event price_list discount_rules config)
      as [quote| |]; destruct W as [_ ->];
      rewrite ?(dict_get_set_other _ _ _ _ NQ); reflexivity.
  - destruct W as (_ & -> & ->). auto.
  - destruct W as (_ & -> & ->). auto.
Qed.

Lemma mem_false_before {V : Type} (d d' : dict V) (name : string) :
  keeps_files d d' -> dict_mem d' name = false -> dict_mem d name = false.
Proof.
  intros K H. destruct (dict_mem d name) eqn:M; [|reflexivity].
  rewrite (keeps_files_mem _ _ _ K M) in H. discriminate H.
Qed.

Lemma process_files_stop (entries : list (string * inbox_entry))
      (w w1 : World (float fo)) (exc : string) :
  process_files fo clock price_list discount_rules config entries w
  = (w1, Raise exc) ->
  exists fname raw,
    In (fname, Text raw) entries
    /\ endswith (lower fname) ".txt" = true
    /\ let event := parse (init price_list config) raw in
       dict_mem (events_dir w) (event_file (email_id event)) = false
       /\ dict_get (events_dir w1) (event_file (email_id event)) = Some event
       /\ (draft_acknowledgment event config = Raise exc
           \/ generate_quote fo event price_list discount_rules config
              = Raise exc)
       /\ dict_get (quotes_dir w1) (quote_file (email_id event))
          = dict_get (quotes_dir w) (quote_file (email_id event)).
Proof.
  revert w. induction entries as [|e entries IH]; intros w; cbn [process_files];
    [discriminate|].
  destruct (process_file fo clock price_list discount_rules config w e)
    as [w0 o0] eqn:S.
  destruct o0 as [u0| |]; [| |discriminate].
  - intros H. destruct (IH _ H) as (fname & raw & I & T & New & E & F & Q).
    exists fname, raw. split; [now right|]. split; [exact T|]. cbv zeta.
    pose proof (process_file_untouched _ _ _ _ S) as (K & _).
    split; [exact (mem_false_before _ _ _ K New)|]. split; [exact E|].
    split; [exact F|]. rewrite Q.
    exact (proj2 (process_file_unwritten _ _ _ _ _ S New)).
  - intros [= <- <-].
    destruct (process_file_cases _ _ _ _ S)
      as [(X & _) | (fname & raw & -> & T & _ & New & P)]; [discriminate X|].
    exists fname, raw. split; [now left|]. split; [exact T|]. cbv zeta.
    apply process_new_spec in P. destruct P as (E & W & _).
    split; [exact New|]. rewrite E, dict_get_set_same. split; [reflexivity|].
    unfold written in W.
    destruct (draft_acknowledgment _ config) as [ack| |].
    + destruct W as [_ W].
      destruct (generate_quote fo _ price_list discount_rules config)
        as [quote| |]; destruct W as [F ->].
      * discriminate F.
      * cbn in F. subst. auto.
      * destruct F.
    + destruct W as (F & _ & ->). cbn in F. subst. auto.
    + destruct W as ([] & _).
Qed.




End InboxProperties.

(** X24.  For an inbox of ASCII texts and a catalog of ASCII names, after
    a run that ends normally, a further run with the same price list over
    an inbox whose [.txt] files hold only texts that the first inbox held,
    under any file names and with any rules and configuration, ends
    normally, changes no event, acknowledgment or quote, and adds to the
    timeline only lines for skipped emails, for failed readings and for
    texts on which [parse] raises. *)
Theorem rerun_only_skips
        (fo : float_ops) (clock clock' : nat -> string)
        (price_list : dict (dict scalar))
        (discount_rules discount_rules' : list (rule (float fo)))
        (config config' : dict scalar)
        (listing listing' : list (string * inbox_entry))
        (w w1 : World (float fo)) :
  ascii_catalog price_list = true ->
  ascii_inbox listing = true ->
  process_inbox fo clock price_list discount_rules config listing w
  = (w1, Ok tt) ->
  (forall fname raw, inbox_text listing' fname raw ->
                     exists fname0, inbox_text listing fname0 raw) ->
  exists w2 records,
    process_inbox fo clock' price_list discount_rules' config' listing' w1
    = (w2, Ok tt)
    /\ events_dir w2 = events_dir w1
    /\ outbox_dir w2 = outbox_dir w1
    /\ quotes_dir w2 = quotes_dir w1
    /\ timeline_file w2 = timeline_file w1 ++ records
    /\ only_skips records.
Proof.
  unfold process_inbox. intros _ _ P Sub.
  apply process_files_skips. intros fname raw I T R.
  destruct (Sub fname raw) as (fname0 & I0 & T0).
  { split; [now apply sorted_listing_In | exact T]. }
  apply (processed_ids_known _ _ _ _ _ _ _ _ _ P fname0 raw);
    [now apply sorted_listing_In | exact T0|].
  rewrite (parse_error_init price_list config config' raw). exact R.
Qed.

Lemma rerun_only_skips_witness :
  exists w1 w2 records,
    process_inbox exact_floats sample_clock (price_list demo_parser)
                  sample_rules sample_config long_inbox empty_world
    = (w1, Ok tt)
    /\ process_inbox exact_floats sample_clock (price_list demo_parser) []
                     null_sla_config (rev long_inbox) w1
       = (w2, Ok tt)
    /\ events_dir w2 = events_dir w1
    /\ outbox_dir w2 = outbox_dir w1
    /\ quotes_dir w2 = quotes_dir w1
    /\ timeline_file w2 = timeline_file w1 ++ records
    /\ only_skips records.
Proof.
  assert (R : exists w1,
             process_inbox exact_floats sample_clock (price_list demo_parser)
                           sample_rules sample_config long_inbox empty_world
             = (w1, Ok tt))
    by (eexists; vm_compute; reflexivity).
  destruct R as [w1 R]. exists w1.
  destruct (rerun_only_skips exact_floats sample_clock sample_clock
              (price_list demo_parser) sample_rules []
              sample_config null_sla_config long_inbox (rev long_inbox)
              empty_world w1 eq_refl eq_refl R)
    as (w2 & records & R2 & E & O & Q & T & S).
  - intros fname raw [I T]. exists fname. split; [|exact T].
    now apply in_rev.
  - exists w2, records. repeat split; assumption.
Defined.

(** The second run over the sample inbox: two skipped emails, the file
    that cannot be read and the text on which [parse] raises. *)
Example rerun_ex :
  let first := fst (process_inbox exact_floats sample_clock
                                  (price_list demo_parser) sample_rules
                                  sample_config long_inbox empty_world) in
  let second := fst (process_inbox exact_floats sample_clock
                                   (price_list demo_parser) [] null_sla_config
                                   (rev long_inbox) first) in
  map log_step (skipn (List.length (timeline_file first)) (timeline_file second))
  = ["skip_email"; "skip_email"; "read_email"; "parse_email"]
  /\ dict_keys (events_dir second) = ["ad870e28cbabdd2d.json"].
Proof. vm_compute. split; reflexivity. Qed.

(** X25.  When a run stops on an exception, the exception is that of
    [draft_acknowledgment] or [generate_quote] on an email of the inbox
    that had no event file before; the event file of this email has been
    written and no quote has, and no later run, whatever its inbox and
    configuration, writes one: the email is skipped from then on. *)
Theorem failed_email_not_retried
        (fo : float_ops) (clock clock' : nat -> string)
        (price_list price_list' : dict (dict scalar))
        (discount_rules discount_rules' : list (rule (float fo)))
        (config config' : dict scalar)
        (listing listing' : list (string * inbox_entry))
        (w w1 : World (float fo)) (exc : string) :
  process_inbox fo clock price_list discount_rules config listing w
  = (w1, Raise exc) ->
  exists fname raw,
    inbox_text listing fname raw
    /\ let event := parse (init price_list config) raw in
       let later := fst (process_inbox fo clock' price_list' discount_rules'
                                       config' listing' w1) in
       dict_mem (events_dir w) (event_file (email_id event)) = false
       /\ dict_get (events_dir w1) (event_file (email_id event)) = Some event
       /\ (draft_acknowledgment event config = Raise exc
           \/ generate_quote fo event price_list discount_rules config
              = Raise exc)
       /\ dict_get (quotes_dir w1) (quote_file (email_id event))
          = dict_get (quotes_dir w) (quote_file (email_id event))
       /\ dict_get (quotes_dir later) (quote_file (email_id event))
          = dict_get (quotes_dir w) (quote_file (email_id event)).
Proof.
  unfold process_inbox. intros P.
  apply process_files_stop in P.
  destruct P as (fname & raw & I & T & New & E & F & Q).
  exists fname, raw. split; [split; [now apply sorted_listing_In | exact T]|].
  cbv zeta. repeat split; try assumption.
  destruct (process_files fo clock' price_list' discount_rules' config'
                          (sorted_listing listing') w1) as [w2 o2] eqn:P2.
  apply process_files_untouched in P2. destruct P2 as (_ & U & _).
  cbn [fst]. rewrite <- Q. apply U. unfold dict_mem. now rewrite E.
Qed.

Lemma failed_email_not_retried_witness :
  exists w1,
    process_inbox exact_floats sample_clock (price_list demo_parser)
                  sample_rules null_sla_config sample_inbox empty_world
    = (w1, Raise "TypeError")
    /\ exists raw,
        let event := parse (init (price_list demo_parser) null_sla_config) raw in
        let later := fst (process_inbox exact_floats sample_clock
                                        (price_list demo_parser) sample_rules
                                        sample_config sample_inbox w1) in
        dict_get (events_dir w1) (event_file (email_id event)) = Some event
        /\ dict_get (quotes_dir later) (quote_file (email_id event)) = None.
Proof.
  assert (R : exists w1,
             process_inbox exact_floats sample_clock (price_list demo_parser)
                           sample_rules null_sla_config sample_inbox empty_world
             = (w1, Raise "TypeError"))
    by (eexists; vm_compute; reflexivity).
  destruct R as [w1 R]. exists w1. split; [exact R|].
  destruct (failed_email_not_retried exact_floats sample_clock sample_clock
              (price_list demo_parser) (price_list demo_parser)
              sample_rules sample_rules null_sla_config sample_config
              sample_inbox sample_inbox empty_world w1 "TypeError" R)
    as (fname & raw & _ & _ & E & _ & _ & L).
  exists raw. cbv zeta. split; [exact E|]. rewrite L. reflexivity.
Defined.

